(** * DataLabel invoice processor: a shallow embedding of [app.py]

    The development follows the script: the text operations it relies on
    ([str.strip], [str.upper], [re.search], [json.loads]), its helper
    functions [normalize_field_names] and [extract_tracking_number], the
    retrying [process_pdf], the batch loop and the CSV export.  The
    statements about them come after the definitions.

    Representation choices.
    - A Python [str] is represented by the [string] of its UTF-8 bytes.
      The two regular expressions of the script only mention ASCII
      characters, so matching on bytes selects the same spans as matching
      on code points.  [str.strip] and [str.upper] work on characters:
      the text is cut into its code points, white space is what
      [str.isspace] accepts, and the upper case of a character is taken
      from the table of CPython.
    - A Python [dict] is an association list in insertion order with
      pairwise distinct keys; [dict_set] is item assignment.
    - [re.search] and [json.loads] are modelled by a matcher and a decoder
      written here after the behaviour of CPython.
    - The services the script calls (pdf2image, PIL, the OpenAI client,
      the file system, Streamlit) are represented by what they deliver in
      each attempt, an [attempt_world], and by the trace of the effects
      the script performs on them.  Nothing is assumed about what they
      deliver; the statements hold for every world.
    - What pandas writes for a value that is present in a cell (numbers,
      nested values, quoting) is a parameter of the export, [show]. *)

From Stdlib Require Import Ascii NArith Lia.
From Stdlib Require Import Numbers.DecimalString.
From stdpp Require Import gmap strings list sorting.

(** ** Characters and text *)

Module Text.

Definition code (c : ascii) : N := N_of_ascii c.

Definition in_range (lo hi : N) (c : ascii) : bool :=
  ((lo <=? code c) && (code c <=? hi))%N.

Definition is_digit (c : ascii) : bool := in_range 48 57 c.
Definition is_upper (c : ascii) : bool := in_range 65 90 c.
Definition is_lower (c : ascii) : bool := in_range 97 122 c.

Fixpoint forallb (p : ascii -> bool) (s : string) : bool :=
  match s with
  | EmptyString => true
  | String c s' => p c && forallb p s'
  end.

Definition occurs (c : ascii) (s : string) : bool :=
  negb (forallb (fun x => negb (Ascii.eqb x c)) s).

(** [str(n)] for a non-negative integer *)
Definition decimal (n : nat) : string :=
  NilEmpty.string_of_uint (Nat.to_uint n).

Fixpoint join (sep : string) (l : list string) : string :=
  match l with
  | [] => EmptyString
  | [x] => x
  | x :: l' => x +:+ sep +:+ join sep l'
  end.

End Text.

(** ** The fragment of [re] the script uses

    A pattern is a sequence of items; each item tests single characters.
    [match_here] is the backtracking matcher anchored at the start of the
    text: a greedy star first tries to take one more character and falls
    back to the rest of the pattern when that fails.  [search] is
    [re.search]: the leftmost position where [match_here] succeeds. *)

Module Re.

Inductive item :=
| One (p : ascii -> bool)               (* a literal or a class *)
| Times (p : ascii -> bool) (n : nat)   (* [p{n}] *)
| Star (p : ascii -> bool).             (* greedy [p*] *)

Definition pattern := list item.

(** [p{n}] followed by the rest of the pattern, [k] *)
Fixpoint times (p : ascii -> bool) (k : string -> option string)
    (n : nat) (s : string) : option string :=
  match n with
  | O => k s
  | S n' =>
      match s with
      | String c s' => if p c then String c <$> times p k n' s' else None
      | EmptyString => None
      end
  end.

(** Greedy [p*] followed by the rest of the pattern, [k] *)
Fixpoint star (p : ascii -> bool) (k : string -> option string)
    (s : string) : option string :=
  match s with
  | String c s' =>
      if p c then
        match star p k s' with
        | Some m => Some (String c m)
        | None => k s
        end
      else k s
  | EmptyString => k s
  end.

Fixpoint match_here (pat : pattern) (s : string) : option string :=
  match pat with
  | [] => Some EmptyString
  | One p :: pat' =>
      match s with
      | String c s' =>
          if p c then String c <$> match_here pat' s' else None
      | EmptyString => None
      end
  | Times p n :: pat' => times p (match_here pat') n s
  | Star p :: pat' => star p (match_here pat') s
  end.

(** [re.search(pat, s)]; the result is [match.group(0)]. *)
Fixpoint search (pat : pattern) (s : string) : option string :=
  match match_here pat s with
  | Some m => Some m
  | None =>
      match s with
      | String _ s' => search pat s'
      | EmptyString => None
      end
  end.

Definition lit (c : ascii) : item := One (Ascii.eqb c).
Definition any : ascii -> bool := fun _ => true.

End Re.

(** ** [extract_tracking_number] (app.py, lines 86-89) *)

Definition upper_or_digit (c : ascii) : bool :=
  Text.is_upper c || Text.is_digit c.

(** [r'1Z[A-Z0-9]{16}'] *)
Definition tracking_pattern : Re.pattern :=
  [Re.lit "1"%char; Re.lit "Z"%char; Re.Times upper_or_digit 16].

Definition no_tracking : string := "No Tracking Number Found".

Definition extract_tracking_number (text : string) : string :=
  match Re.search tracking_pattern text with
  | Some m => m
  | None => no_tracking
  end.

(** ** JSON values and Python dictionaries *)

#[warnings="-register-all"]
Inductive json :=
| JNull
| JBool (b : bool)
| JNum (literal : string)   (* the numeric literal as written *)
| JStr (s : string)
| JArr (items : list json)
| JObj (members : list (string * json)).

(** A [dict] with [str] keys, in insertion order. *)
Definition dict := list (string * json).

Fixpoint dict_get (d : dict) (k : string) : option json :=
  match d with
  | [] => None
  | (k', v) :: d' => if String.eqb k' k then Some v else dict_get d' k
  end.

(** [d[k] = v]: an existing key keeps its position, a new key goes last. *)
Fixpoint dict_set (d : dict) (k : string) (v : json) : dict :=
  match d with
  | [] => [(k, v)]
  | (k', v') :: d' =>
      if String.eqb k' k then (k', v) :: d' else (k', v') :: dict_set d' k v
  end.

Definition dict_keys (d : dict) : list string := d.*1.

(** The invariant of a Python dictionary: no key occurs twice. *)
Definition dict_wf (d : dict) : Prop := NoDup (dict_keys d).

(** ** [json.loads]

    The decoder of the standard library, as a lexer followed by a
    pushdown parser.  It accepts what CPython's decoder accepts: the
    JSON grammar with white space [" \t\n\r"], the extra constants [NaN],
    [Infinity] and [-Infinity], strict strings (no raw control
    characters), and duplicate member names, where the last value wins.
    A number is kept as its literal; Python would convert it.  The limits
    of the interpreter (nesting depth, length of integer literals) are
    not modelled. *)

Module Json.

Inductive token :=
| TLBrace | TRBrace | TLBracket | TRBracket | TColon | TComma
| TScalar (v : json).

(** A piece of a string literal: a character written as such, or the
    16-bit unit of a [\uXXXX] escape. *)
Inductive piece :=
| Raw (c : ascii)
| Esc (u : N).

Inductive lex_state :=
| LDefault
| LBare (acc : list ascii)                 (* number or constant, reversed *)
| LString (acc : list piece)               (* reversed *)
| LEscape (acc : list piece)               (* after a backslash *)
| LHex (acc : list piece) (n : nat) (u : N). (* [n] hex digits read *)

Definition byte (n : N) : ascii := ascii_of_N n.

(** UTF-8 encoding of a code point (a lone surrogate is encoded like any
    other three-byte code point). *)
Definition utf8 (u : N) : string :=
  (if u <? 128 then String (byte u) EmptyString
   else if u <? 2048 then
     String (byte (192 + u / 64)) (String (byte (128 + u mod 64)) EmptyString)
   else if u <? 65536 then
     String (byte (224 + u / 4096))
       (String (byte (128 + (u / 64) mod 64))
          (String (byte (128 + u mod 64)) EmptyString))
   else
     String (byte (240 + u / 262144))
       (String (byte (128 + (u / 4096) mod 64))
          (String (byte (128 + (u / 64) mod 64))
             (String (byte (128 + u mod 64)) EmptyString))))%N.

Definition is_high (u : N) : bool := ((55296 <=? u) && (u <=? 56319))%N.
Definition is_low (u : N) : bool := ((56320 <=? u) && (u <=? 57343))%N.

(** A high surrogate escape directly followed by a low surrogate escape
    is one code point. *)
Fixpoint build (ps : list piece) : string :=
  match ps with
  | [] => EmptyString
  | Raw c :: ps' => String c (build ps')
  | Esc hi :: ps' =>
      match ps' with
      | Esc lo :: ps'' =>
          if is_high hi && is_low lo
          then utf8 (65536 + (hi - 55296) * 1024 + (lo - 56320))%N +:+ build ps''
          else utf8 hi +:+ build ps'
      | _ => utf8 hi +:+ build ps'
      end
  end.

Definition hex_value (c : ascii) : option N :=
  if Text.is_digit c then Some (Text.code c - 48)%N
  else if Text.in_range 65 70 c then Some (Text.code c - 55)%N
  else if Text.in_range 97 102 c then Some (Text.code c - 87)%N
  else None.

Definition is_ws (c : ascii) : bool :=
  Ascii.eqb c " " || Ascii.eqb c "009" || Ascii.eqb c "010" || Ascii.eqb c "013".

(** Characters of numbers and constants. *)
Definition is_bare (c : ascii) : bool :=
  Text.is_digit c || Text.is_upper c || Text.is_lower c
  || Ascii.eqb c "-" || Ascii.eqb c "+" || Ascii.eqb c ".".

Fixpoint drop_digits (s : string) : string :=
  match s with
  | String c s' => if Text.is_digit c then drop_digits s' else s
  | EmptyString => EmptyString
  end.

Definition starts_with_digit (s : string) : bool :=
  match s with
  | String c _ => Text.is_digit c
  | EmptyString => false
  end.

(** Nothing, or [e]/[E], an optional sign and at least one digit, up to
    the end of the literal. *)
Definition exponent_ok (s : string) : bool :=
  match s with
  | EmptyString => true
  | String e s' =>
      if Ascii.eqb e "e" || Ascii.eqb e "E" then
        let digits :=
          match s' with
          | String sg s'' =>
              if Ascii.eqb sg "-" || Ascii.eqb sg "+" then s'' else s'
          | EmptyString => s'
          end in
        starts_with_digit digits && String.eqb (drop_digits digits) EmptyString
      else false
  end.

(** An optional dot with at least one digit, then the exponent. *)
Definition fraction_ok (s : string) : bool :=
  match s with
  | String c s' =>
      if Ascii.eqb c "."
      then starts_with_digit s' && exponent_ok (drop_digits s')
      else exponent_ok s
  | EmptyString => true
  end.

(** An optional minus sign, then [0] or a digit sequence without a
    leading zero, then the optional fraction and exponent. *)
Definition number_ok (s : string) : bool :=
  let s := match s with
           | String c s' => if Ascii.eqb c "-" then s' else s
           | EmptyString => s
           end in
  match s with
  | String c s' =>
      if Ascii.eqb c "0" then fraction_ok s'
      else if Text.is_digit c then fraction_ok (drop_digits s')
      else false
  | EmptyString => false
  end.

Definition scalar_of (w : string) : option json :=
  if String.eqb w "null" then Some JNull
  else if String.eqb w "true" then Some (JBool true)
  else if String.eqb w "false" then Some (JBool false)
  else if String.eqb w "NaN" || String.eqb w "Infinity"
          || String.eqb w "-Infinity" || number_ok w
  then Some (JNum w)
  else None.

Definition bare_token (acc : list ascii) : option token :=
  TScalar <$> scalar_of (String.string_of_list_ascii (rev acc)).

Definition lex_default (c : ascii) : option (lex_state * list token) :=
  if is_ws c then Some (LDefault, [])
  else if Ascii.eqb c "{" then Some (LDefault, [TLBrace])
  else if Ascii.eqb c "}" then Some (LDefault, [TRBrace])
  else if Ascii.eqb c "[" then Some (LDefault, [TLBracket])
  else if Ascii.eqb c "]" then Some (LDefault, [TRBracket])
  else if Ascii.eqb c ":" then Some (LDefault, [TColon])
  else if Ascii.eqb c "," then Some (LDefault, [TComma])
  else if Ascii.eqb c "034" then Some (LString [], [])
  else if is_bare c then Some (LBare [c], [])
  else None.

Definition lex_escape (acc : list piece) (c : ascii)
  : option (lex_state * list token) :=
  if Ascii.eqb c "034" || Ascii.eqb c "\" || Ascii.eqb c "/"
  then Some (LString (Raw c :: acc), [])
  else if Ascii.eqb c "b" then Some (LString (Raw "008" :: acc), [])
  else if Ascii.eqb c "f" then Some (LString (Raw "012" :: acc), [])
  else if Ascii.eqb c "n" then Some (LString (Raw "010" :: acc), [])
  else if Ascii.eqb c "r" then Some (LString (Raw "013" :: acc), [])
  else if Ascii.eqb c "t" then Some (LString (Raw "009" :: acc), [])
  else if Ascii.eqb c "u" then Some (LHex acc 0 0%N, [])
  else None.

Definition lex_char (st : lex_state) (c : ascii)
  : option (lex_state * list token) :=
  match st with
  | LDefault => lex_default c
  | LBare acc =>
      if is_bare c then Some (LBare (c :: acc), [])
      else
        t ← bare_token acc;
        '(st', ts) ← lex_default c;
        Some (st', t :: ts)
  | LString acc =>
      if Ascii.eqb c "034" then Some (LDefault, [TScalar (JStr (build (rev acc)))])
      else if Ascii.eqb c "\" then Some (LEscape acc, [])
      else if (Text.code c <? 32)%N then None
      else Some (LString (Raw c :: acc), [])
  | LEscape acc => lex_escape acc c
  | LHex acc n u =>
      d ← hex_value c;
      let u' := (u * 16 + d)%N in
      Some (if Nat.eqb n 3 then LString (Esc u' :: acc) else LHex acc (S n) u', [])
  end.

Definition lex_end (st : lex_state) : option (list token) :=
  match st with
  | LDefault => Some []
  | LBare acc => t ← bare_token acc; Some [t]
  | _ => None
  end.

Fixpoint lex_from (st : lex_state) (s : string) : option (list token) :=
  match s with
  | EmptyString => lex_end st
  | String c s' =>
      '(st', ts) ← lex_char st c;
      rest ← lex_from st' s';
      Some (ts ++ rest)
  end.

Definition lex (s : string) : option (list token) := lex_from LDefault s.

(** A container under construction. *)
Inductive frame :=
| FArr (items : list json)                     (* reversed *)
| FObj (members : dict) (key : option string). (* [key]: name read, value pending *)

Inductive expect :=
| XValue          (* a value *)
| XValueOrClose   (* after '[': a value or ']' *)
| XKeyOrClose     (* after '{': a member name or '}' *)
| XKey            (* after ',' in an object *)
| XColon
| XCommaOrClose   (* after a value inside a container *)
| XDone (v : json).

Definition pstate : Type := list frame * expect.

(** A value is complete: it becomes the result or joins the innermost
    container. *)
Definition complete (stack : list frame) (v : json) : option pstate :=
  match stack with
  | [] => Some ([], XDone v)
  | FArr items :: stack' => Some (FArr (v :: items) :: stack', XCommaOrClose)
  | FObj members (Some k) :: stack' =>
      Some (FObj (dict_set members k v) None :: stack', XCommaOrClose)
  | FObj _ None :: _ => None
  end.

Definition open_value (stack : list frame) (t : token) : option pstate :=
  match t with
  | TScalar v => complete stack v
  | TLBrace => Some (FObj [] None :: stack, XKeyOrClose)
  | TLBracket => Some (FArr [] :: stack, XValueOrClose)
  | _ => None
  end.

Definition close_array (stack : list frame) : option pstate :=
  match stack with
  | FArr items :: stack' => complete stack' (JArr (rev items))
  | _ => None
  end.

Definition close_object (stack : list frame) : option pstate :=
  match stack with
  | FObj members None :: stack' => complete stack' (JObj members)
  | _ => None
  end.

Definition member_name (stack : list frame) (t : token) : option pstate :=
  match t, stack with
  | TScalar (JStr k), FObj members None :: stack' =>
      Some (FObj members (Some k) :: stack', XColon)
  | _, _ => None
  end.

Definition parse_token (st : pstate) (t : token) : option pstate :=
  let '(stack, e) := st in
  match e with
  | XValue => open_value stack t
  | XValueOrClose =>
      match t with
      | TRBracket => close_array stack
      | _ => open_value stack t
      end
  | XKeyOrClose =>
      match t with
      | TRBrace => close_object stack
      | _ => member_name stack t
      end
  | XKey => member_name stack t
  | XColon =>
      match t with
      | TColon => Some (stack, XValue)
      | _ => None
      end
  | XCommaOrClose =>
      match t, stack with
      | TComma, FArr _ :: _ => Some (stack, XValue)
      | TComma, FObj _ _ :: _ => Some (stack, XKey)
      | TRBracket, _ => close_array stack
      | TRBrace, _ => close_object stack
      | _, _ => None
      end
  | XDone _ => None
  end.

Fixpoint parse_from (st : pstate) (ts : list token) : option json :=
  match ts with
  | [] =>
      match st with
      | ([], XDone v) => Some v
      | _ => None
      end
  | t :: ts' => st' ← parse_token st t; parse_from st' ts'
  end.

(** [json.loads(s)]; [None] stands for [json.JSONDecodeError]. *)
Definition loads (s : string) : option json :=
  ts ← lex s; parse_from ([], XValue) ts.

End Json.

(** ** [str.strip] and [str.upper]

    The methods of [str] work on characters (code points).  [chars]
    cuts the UTF-8 text into its characters: a leading byte and the
    continuation bytes that belong to it. *)

Module Str.

(** A continuation byte of UTF-8. *)
Definition is_cont (c : ascii) : bool := Text.in_range 128 191 c.

(** The number of bytes of the character that [c] begins. *)
Definition width (c : ascii) : nat :=
  if (Text.code c <? 192)%N then 1
  else if (Text.code c <? 224)%N then 2
  else if (Text.code c <? 240)%N then 3
  else 4.

(** [chars_from chunk need s]: the character being read is [chunk], it
    lacks [need] continuation bytes. *)
Fixpoint chars_from (chunk : string) (need : nat) (s : string) : list string :=
  match s with
  | EmptyString => [chunk]
  | String c s' =>
      match need with
      | S n =>
          if is_cont c then chars_from (chunk +:+ String c EmptyString) n s'
          else chunk :: chars_from (String c EmptyString) (width c - 1) s'
      | O => chunk :: chars_from (String c EmptyString) (width c - 1) s'
      end
  end.

(** [list(s)] *)
Definition chars (s : string) : list string :=
  match s with
  | EmptyString => []
  | String c s' => chars_from (String c EmptyString) (width c - 1) s'
  end.

(** [''.join(l)] *)
Definition concat (l : list string) : string :=
  foldr String.append EmptyString l.

(** The code points for which [str.isspace] holds. *)
Definition white_space : list N :=
  [9; 10; 11; 12; 13; 28; 29; 30; 31; 32; 133; 160; 5760;
   8192; 8193; 8194; 8195; 8196; 8197; 8198; 8199; 8200; 8201; 8202;
   8232; 8233; 8239; 8287; 12288]%N.

Definition spaces : list string :=
  Eval vm_compute in map Json.utf8 white_space.

Definition isspace (ch : string) : bool := existsb (String.eqb ch) spaces.

Fixpoint lstrip_chars (l : list string) : list string :=
  match l with
  | [] => []
  | ch :: l' => if isspace ch then lstrip_chars l' else l
  end.

Definition rstrip_chars (l : list string) : list string :=
  reverse (lstrip_chars (reverse l)).

(** [s.strip()] *)
Definition strip (s : string) : string :=
  concat (rstrip_chars (lstrip_chars (chars s))).

(** [chr(c).upper()] for every code point [c] that it changes (CPython
    3.11, Unicode 14.0). *)
Definition upper_code_points : list (N * list N) :=
  [(97, [65]); (98, [66]); (99, [67]); (100, [68]); (101, [69]); (102, [70]);
   (103, [71]); (104, [72]); (105, [73]); (106, [74]); (107, [75]);
   (108, [76]); (109, [77]); (110, [78]); (111, [79]); (112, [80]);
   (113, [81]); (114, [82]); (115, [83]); (116, [84]); (117, [85]);
   (118, [86]); (119, [87]); (120, [88]); (121, [89]); (122, [90]);
   (181, [924]); (223, [83; 83]); (224, [192]); (225, [193]); (226, [194]);
   (227, [195]); (228, [196]); (229, [197]); (230, [198]); (231, [199]);
   (232, [200]); (233, [201]); (234, [202]); (235, [203]); (236, [204]);
   (237, [205]); (238, [206]); (239, [207]); (240, [208]); (241, [209]);
   (242, [210]); (243, [211]); (244, [212]); (245, [213]); (246, [214]);
   (248, [216]); (249, [217]); (250, [218]); (251, [219]); (252, [220]);
   (253, [221]); (254, [222]); (255, [376]); (257, [256]); (259, [258]);
   (261, [260]); (263, [262]); (265, [264]); (267, [266]); (269, [268]);
   (271, [270]); (273, [272]); (275, [274]); (277, [276]); (279, [278]);
   (281, [280]); (283, [282]); (285, [284]); (287, [286]); (289, [288]);
   (291, [290]); (293, [292]); (295, [294]); (297, [296]); (299, [298]);
   (301, [300]); (303, [302]); (305, [73]); (307, [306]); (309, [308]);
   (311, [310]); (314, [313]); (316, [315]); (318, [317]); (320, [319]);
   (322, [321]); (324, [323]); (326, [325]); (328, [327]); (329, [700; 78]);
   (331, [330]); (333, [332]); (335, [334]); (337, [336]); (339, [338]);
   (341, [340]); (343, [342]); (345, [344]); (347, [346]); (349, [348]);
   (351, [350]); (353, [352]); (355, [354]); (357, [356]); (359, [358]);
   (361, [360]); (363, [362]); (365, [364]); (367, [366]); (369, [368]);
   (371, [370]); (373, [372]); (375, [374]); (378, [377]); (380, [379]);
   (382, [381]); (383, [83]); (384, [579]); (387, [386]); (389, [388]);
   (392, [391]); (396, [395]); (402, [401]); (405, [502]); (409, [408]);
   (410, [573]); (414, [544]); (417, [416]); (419, [418]); (421, [420]);
   (424, [423]); (429, [428]); (432, [431]); (436, [435]); (438, [437]);
   (441, [440]); (445, [444]); (447, [503]); (453, [452]); (454, [452]);
   (456, [455]); (457, [455]); (459, [458]); (460, [458]); (462, [461]);
   (464, [463]); (466, [465]); (468, [467]); (470, [469]); (472, [471]);
   (474, [473]); (476, [475]); (477, [398]); (479, [478]); (481, [480]);
   (483, [482]); (485, [484]); (487, [486]); (489, [488]); (491, [490]);
   (493, [492]); (495, [494]); (496, [74; 780]); (498, [497]); (499, [497]);
   (501, [500]); (505, [504]); (507, [506]); (509, [508]); (511, [510]);
   (513, [512]); (515, [514]); (517, [516]); (519, [518]); (521, [520]);
   (523, [522]); (525, [524]); (527, [526]); (529, [528]); (531, [530]);
   (533, [532]); (535, [534]); (537, [536]); (539, [538]); (541, [540]);
   (543, [542]); (547, [546]); (549, [548]); (551, [550]); (553, [552]);
   (555, [554]); (557, [556]); (559, [558]); (561, [560]); (563, [562]);
   (572, [571]); (575, [11390]); (576, [11391]); (578, [577]); (583, [582]);
   (585, [584]); (587, [586]); (589, [588]); (591, [590]); (592, [11375]);
   (593, [11373]); (594, [11376]); (595, [385]); (596, [390]); (598, [393]);
   (599, [394]); (601, [399]); (603, [400]); (604, [42923]); (608, [403]);
   (609, [42924]); (611, [404]); (613, [42893]); (614, [42922]); (616, [407]);
   (617, [406]); (618, [42926]); (619, [11362]); (620, [42925]); (623, [412]);
   (625, [11374]); (626, [413]); (629, [415]); (637, [11364]); (640, [422]);
   (642, [42949]); (643, [425]); (647, [42929]); (648, [430]); (649, [580]);
   (650, [433]); (651, [434]); (652, [581]); (658, [439]); (669, [42930]);
   (670, [42928]); (837, [921]); (881, [880]); (883, [882]); (887, [886]);
   (891, [1021]); (892, [1022]); (893, [1023]); (912, [921; 776; 769]);
   (940, [902]); (941, [904]); (942, [905]); (943, [906]);
   (944, [933; 776; 769]); (945, [913]); (946, [914]); (947, [915]);
   (948, [916]); (949, [917]); (950, [918]); (951, [919]); (952, [920]);
   (953, [921]); (954, [922]); (955, [923]); (956, [924]); (957, [925]);
   (958, [926]); (959, [927]); (960, [928]); (961, [929]); (962, [931]);
   (963, [931]); (964, [932]); (965, [933]); (966, [934]); (967, [935]);
   (968, [936]); (969, [937]); (970, [938]); (971, [939]); (972, [908]);
   (973, [910]); (974, [911]); (976, [914]); (977, [920]); (981, [934]);
   (982, [928]); (983, [975]); (985, [984]); (987, [986]); (989, [988]);
   (991, [990]); (993, [992]); (995, [994]); (997, [996]); (999, [998]);
   (1001, [1000]); (1003, [1002]); (1005, [1004]); (1007, [1006]);
   (1008, [922]); (1009, [929]); (1010, [1017]); (1011, [895]); (1013, [917]);
   (1016, [1015]); (1019, [1018]); (1072, [1040]); (1073, [1041]);
   (1074, [1042]); (1075, [1043]); (1076, [1044]); (1077, [1045]);
   (1078, [1046]); (1079, [1047]); (1080, [1048]); (1081, [1049]);
   (1082, [1050]); (1083, [1051]); (1084, [1052]); (1085, [1053]);
   (1086, [1054]); (1087, [1055]); (1088, [1056]); (1089, [1057]);
   (1090, [1058]); (1091, [1059]); (1092, [1060]); (1093, [1061]);
   (1094, [1062]); (1095, [1063]); (1096, [1064]); (1097, [1065]);
   (1098, [1066]); (1099, [1067]); (1100, [1068]); (1101, [1069]);
   (1102, [1070]); (1103, [1071]); (1104, [1024]); (1105, [1025]);
   (1106, [1026]); (1107, [1027]); (1108, [1028]); (1109, [1029]);
   (1110, [1030]); (1111, [1031]); (1112, [1032]); (1113, [1033]);
   (1114, [1034]); (1115, [1035]); (1116, [1036]); (1117, [1037]);
   (1118, [1038]); (1119, [1039]); (1121, [1120]); (1123, [1122]);
   (1125, [1124]); (1127, [1126]); (1129, [1128]); (1131, [1130]);
   (1133, [1132]); (1135, [1134]); (1137, [1136]); (1139, [1138]);
   (1141, [1140]); (1143, [1142]); (1145, [1144]); (1147, [1146]);
   (1149, [1148]); (1151, [1150]); (1153, [1152]); (1163, [1162]);
   (1165, [1164]); (1167, [1166]); (1169, [1168]); (1171, [1170]);
   (1173, [1172]); (1175, [1174]); (1177, [1176]); (1179, [1178]);
   (1181, [1180]); (1183, [1182]); (1185, [1184]); (1187, [1186]);
   (1189, [1188]); (1191, [1190]); (1193, [1192]); (1195, [1194]);
   (1197, [1196]); (1199, [1198]); (1201, [1200]); (1203, [1202]);
   (1205, [1204]); (1207, [1206]); (1209, [1208]); (1211, [1210]);
   (1213, [1212]); (1215, [1214]); (1218, [1217]); (1220, [1219]);
   (1222, [1221]); (1224, [1223]); (1226, [1225]); (1228, [1227]);
   (1230, [1229]); (1231, [1216]); (1233, [1232]); (1235, [1234]);
   (1237, [1236]); (1239, [1238]); (1241, [1240]); (1243, [1242]);
   (1245, [1244]); (1247, [1246]); (1249, [1248]); (1251, [1250]);
   (1253, [1252]); (1255, [1254]); (1257, [1256]); (1259, [1258]);
   (1261, [1260]); (1263, [1262]); (1265, [1264]); (1267, [1266]);
   (1269, [1268]); (1271, [1270]); (1273, [1272]); (1275, [1274]);
   (1277, [1276]); (1279, [1278]); (1281, [1280]); (1283, [1282]);
   (1285, [1284]); (1287, [1286]); (1289, [1288]); (1291, [1290]);
   (1293, [1292]); (1295, [1294]); (1297, [1296]); (1299, [1298]);
   (1301, [1300]); (1303, [1302]); (1305, [1304]); (1307, [1306]);
   (1309, [1308]); (1311, [1310]); (1313, [1312]); (1315, [1314]);
   (1317, [1316]); (1319, [1318]); (1321, [1320]); (1323, [1322]);
   (1325, [1324]); (1327, [1326]); (1377, [1329]); (1378, [1330]);
   (1379, [1331]); (1380, [1332]); (1381, [1333]); (1382, [1334]);
   (1383, [1335]); (1384, [1336]); (1385, [1337]); (1386, [1338]);
   (1387, [1339]); (1388, [1340]); (1389, [1341]); (1390, [1342]);
   (1391, [1343]); (1392, [1344]); (1393, [1345]); (1394, [1346]);
   (1395, [1347]); (1396, [1348]); (1397, [1349]); (1398, [1350]);
   (1399, [1351]); (1400, [1352]); (1401, [1353]); (1402, [1354]);
   (1403, [1355]); (1404, [1356]); (1405, [1357]); (1406, [1358]);
   (1407, [1359]); (1408, [1360]); (1409, [1361]); (1410, [1362]);
   (1411, [1363]); (1412, [1364]); (1413, [1365]); (1414, [1366]);
   (1415, [1333; 1362]); (4304, [7312]); (4305, [7313]); (4306, [7314]);
   (4307, [7315]); (4308, [7316]); (4309, [7317]); (4310, [7318]);
   (4311, [7319]); (4312, [7320]); (4313, [7321]); (4314, [7322]);
   (4315, [7323]); (4316, [7324]); (4317, [7325]); (4318, [7326]);
   (4319, [7327]); (4320, [7328]); (4321, [7329]); (4322, [7330]);
   (4323, [7331]); (4324, [7332]); (4325, [7333]); (4326, [7334]);
   (4327, [7335]); (4328, [7336]); (4329, [7337]); (4330, [7338]);
   (4331, [7339]); (4332, [7340]); (4333, [7341]); (4334, [7342]);
   (4335, [7343]); (4336, [7344]); (4337, [7345]); (4338, [7346]);
   (4339, [7347]); (4340, [7348]); (4341, [7349]); (4342, [7350]);
   (4343, [7351]); (4344, [7352]); (4345, [7353]); (4346, [7354]);
   (4349, [7357]); (4350, [7358]); (4351, [7359]); (5112, [5104]);
   (5113, [5105]); (5114, [5106]); (5115, [5107]); (5116, [5108]);
   (5117, [5109]); (7296, [1042]); (7297, [1044]); (7298, [1054]);
   (7299, [1057]); (7300, [1058]); (7301, [1058]); (7302, [1066]);
   (7303, [1122]); (7304, [42570]); (7545, [42877]); (7549, [11363]);
   (7566, [42950]); (7681, [7680]); (7683, [7682]); (7685, [7684]);
   (7687, [7686]); (7689, [7688]); (7691, [7690]); (7693, [7692]);
   (7695, [7694]); (7697, [7696]); (7699, [7698]); (7701, [7700]);
   (7703, [7702]); (7705, [7704]); (7707, [7706]); (7709, [7708]);
   (7711, [7710]); (7713, [7712]); (7715, [7714]); (7717, [7716]);
   (7719, [7718]); (7721, [7720]); (7723, [7722]); (7725, [7724]);
   (7727, [7726]); (7729, [7728]); (7731, [7730]); (7733, [7732]);
   (7735, [7734]); (7737, [7736]); (7739, [7738]); (7741, [7740]);
   (7743, [7742]); (7745, [7744]); (7747, [7746]); (7749, [7748]);
   (7751, [7750]); (7753, [7752]); (7755, [7754]); (7757, [7756]);
   (7759, [7758]); (7761, [7760]); (7763, [7762]); (7765, [7764]);
   (7767, [7766]); (7769, [7768]); (7771, [7770]); (7773, [7772]);
   (7775, [7774]); (7777, [7776]); (7779, [7778]); (7781, [7780]);
   (7783, [7782]); (7785, [7784]); (7787, [7786]); (7789, [7788]);
   (7791, [7790]); (7793, [7792]); (7795, [7794]); (7797, [7796]);
   (7799, [7798]); (7801, [7800]); (7803, [7802]); (7805, [7804]);
   (7807, [7806]); (7809, [7808]); (7811, [7810]); (7813, [7812]);
   (7815, [7814]); (7817, [7816]); (7819, [7818]); (7821, [7820]);
   (7823, [7822]); (7825, [7824]); (7827, [7826]); (7829, [7828]);
   (7830, [72; 817]); (7831, [84; 776]); (7832, [87; 778]); (7833, [89; 778]);
   (7834, [65; 702]); (7835, [7776]); (7841, [7840]); (7843, [7842]);
   (7845, [7844]); (7847, [7846]); (7849, [7848]); (7851, [7850]);
   (7853, [7852]); (7855, [7854]); (7857, [7856]); (7859, [7858]);
   (7861, [7860]); (7863, [7862]); (7865, [7864]); (7867, [7866]);
   (7869, [7868]); (7871, [7870]); (7873, [7872]); (7875, [7874]);
   (7877, [7876]); (7879, [7878]); (7881, [7880]); (7883, [7882]);
   (7885, [7884]); (7887, [7886]); (7889, [7888]); (7891, [7890]);
   (7893, [7892]); (7895, [7894]); (7897, [7896]); (7899, [7898]);
   (7901, [7900]); (7903, [7902]); (7905, [7904]); (7907, [7906]);
   (7909, [7908]); (7911, [7910]); (7913, [7912]); (7915, [7914]);
   (7917, [7916]); (7919, [7918]); (7921, [7920]); (7923, [7922]);
   (7925, [7924]); (7927, [7926]); (7929, [7928]); (7931, [7930]);
   (7933, [7932]); (7935, [7934]); (7936, [7944]); (7937, [7945]);
   (7938, [7946]); (7939, [7947]); (7940, [7948]); (7941, [7949]);
   (7942, [7950]); (7943, [7951]); (7952, [7960]); (7953, [7961]);
   (7954, [7962]); (7955, [7963]); (7956, [7964]); (7957, [7965]);
   (7968, [7976]); (7969, [7977]); (7970, [7978]); (7971, [7979]);
   (7972, [7980]); (7973, [7981]); (7974, [7982]); (7975, [7983]);
   (7984, [7992]); (7985, [7993]); (7986, [7994]); (7987, [7995]);
   (7988, [7996]); (7989, [7997]); (7990, [7998]); (7991, [7999]);
   (8000, [8008]); (8001, [8009]); (8002, [8010]); (8003, [8011]);
   (8004, [8012]); (8005, [8013]); (8016, [933; 787]); (8017, [8025]);
   (8018, [933; 787; 768]); (8019, [8027]); (8020, [933; 787; 769]);
   (8021, [8029]); (8022, [933; 787; 834]); (8023, [8031]); (8032, [8040]);
   (8033, [8041]); (8034, [8042]); (8035, [8043]); (8036, [8044]);
   (8037, [8045]); (8038, [8046]); (8039, [8047]); (8048, [8122]);
   (8049, [8123]); (8050, [8136]); (8051, [8137]); (8052, [8138]);
   (8053, [8139]); (8054, [8154]); (8055, [8155]); (8056, [8184]);
   (8057, [8185]); (8058, [8170]); (8059, [8171]); (8060, [8186]);
   (8061, [8187]); (8064, [7944; 921]); (8065, [7945; 921]);
   (8066, [7946; 921]); (8067, [7947; 921]); (8068, [7948; 921]);
   (8069, [7949; 921]); (8070, [7950; 921]); (8071, [7951; 921]);
   (8072, [7944; 921]); (8073, [7945; 921]); (8074, [7946; 921]);
   (8075, [7947; 921]); (8076, [7948; 921]); (8077, [7949; 921]);
   (8078, [7950; 921]); (8079, [7951; 921]); (8080, [7976; 921]);
   (8081, [7977; 921]); (8082, [7978; 921]); (8083, [7979; 921]);
   (8084, [7980; 921]); (8085, [7981; 921]); (8086, [7982; 921]);
   (8087, [7983; 921]); (8088, [7976; 921]); (8089, [7977; 921]);
   (8090, [7978; 921]); (8091, [7979; 921]); (8092, [7980; 921]);
   (8093, [7981; 921]); (8094, [7982; 921]); (8095, [7983; 921]);
   (8096, [8040; 921]); (8097, [8041; 921]); (8098, [8042; 921]);
   (8099, [8043; 921]); (8100, [8044; 921]); (8101, [8045; 921]);
   (8102, [8046; 921]); (8103, [8047; 921]); (8104, [8040; 921]);
   (8105, [8041; 921]); (8106, [8042; 921]); (8107, [8043; 921]);
   (8108, [8044; 921]); (8109, [8045; 921]); (8110, [8046; 921]);
   (8111, [8047; 921]); (8112, [8120]); (8113, [8121]); (8114, [8122; 921]);
   (8115, [913; 921]); (8116, [902; 921]); (8118, [913; 834]);
   (8119, [913; 834; 921]); (8124, [913; 921]); (8126, [921]);
   (8130, [8138; 921]); (8131, [919; 921]); (8132, [905; 921]);
   (8134, [919; 834]); (8135, [919; 834; 921]); (8140, [919; 921]);
   (8144, [8152]); (8145, [8153]); (8146, [921; 776; 768]);
   (8147, [921; 776; 769]); (8150, [921; 834]); (8151, [921; 776; 834]);
   (8160, [8168]); (8161, [8169]); (8162, [933; 776; 768]);
   (8163, [933; 776; 769]); (8164, [929; 787]); (8165, [8172]);
   (8166, [933; 834]); (8167, [933; 776; 834]); (8178, [8186; 921]);
   (8179, [937; 921]); (8180, [911; 921]); (8182, [937; 834]);
   (8183, [937; 834; 921]); (8188, [937; 921]); (8526, [8498]); (8560, [8544]);
   (8561, [8545]); (8562, [8546]); (8563, [8547]); (8564, [8548]);
   (8565, [8549]); (8566, [8550]); (8567, [8551]); (8568, [8552]);
   (8569, [8553]); (8570, [8554]); (8571, [8555]); (8572, [8556]);
   (8573, [8557]); (8574, [8558]); (8575, [8559]); (8580, [8579]);
   (9424, [9398]); (9425, [9399]); (9426, [9400]); (9427, [9401]);
   (9428, [9402]); (9429, [9403]); (9430, [9404]); (9431, [9405]);
   (9432, [9406]); (9433, [9407]); (9434, [9408]); (9435, [9409]);
   (9436, [9410]); (9437, [9411]); (9438, [9412]); (9439, [9413]);
   (9440, [9414]); (9441, [9415]); (9442, [9416]); (9443, [9417]);
   (9444, [9418]); (9445, [9419]); (9446, [9420]); (9447, [9421]);
   (9448, [9422]); (9449, [9423]); (11312, [11264]); (11313, [11265]);
   (11314, [11266]); (11315, [11267]); (11316, [11268]); (11317, [11269]);
   (11318, [11270]); (11319, [11271]); (11320, [11272]); (11321, [11273]);
   (11322, [11274]); (11323, [11275]); (11324, [11276]); (11325, [11277]);
   (11326, [11278]); (11327, [11279]); (11328, [11280]); (11329, [11281]);
   (11330, [11282]); (11331, [11283]); (11332, [11284]); (11333, [11285]);
   (11334, [11286]); (11335, [11287]); (11336, [11288]); (11337, [11289]);
   (11338, [11290]); (11339, [11291]); (11340, [11292]); (11341, [11293]);
   (11342, [11294]); (11343, [11295]); (11344, [11296]); (11345, [11297]);
   (11346, [11298]); (11347, [11299]); (11348, [11300]); (11349, [11301]);
   (11350, [11302]); (11351, [11303]); (11352, [11304]); (11353, [11305]);
   (11354, [11306]); (11355, [11307]); (11356, [11308]); (11357, [11309]);
   (11358, [11310]); (11359, [11311]); (11361, [11360]); (11365, [570]);
   (11366, [574]); (11368, [11367]); (11370, [11369]); (11372, [11371]);
   (11379, [11378]); (11382, [11381]); (11393, [11392]); (11395, [11394]);
   (11397, [11396]); (11399, [11398]); (11401, [11400]); (11403, [11402]);
   (11405, [11404]); (11407, [11406]); (11409, [11408]); (11411, [11410]);
   (11413, [11412]); (11415, [11414]); (11417, [11416]); (11419, [11418]);
   (11421, [11420]); (11423, [11422]); (11425, [11424]); (11427, [11426]);
   (11429, [11428]); (11431, [11430]); (11433, [11432]); (11435, [11434]);
   (11437, [11436]); (11439, [11438]); (11441, [11440]); (11443, [11442]);
   (11445, [11444]); (11447, [11446]); (11449, [11448]); (11451, [11450]);
   (11453, [11452]); (11455, [11454]); (11457, [11456]); (11459, [11458]);
   (11461, [11460]); (11463, [11462]); (11465, [11464]); (11467, [11466]);
   (11469, [11468]); (11471, [11470]); (11473, [11472]); (11475, [11474]);
   (11477, [11476]); (11479, [11478]); (11481, [11480]); (11483, [11482]);
   (11485, [11484]); (11487, [11486]); (11489, [11488]); (11491, [11490]);
   (11500, [11499]); (11502, [11501]); (11507, [11506]); (11520, [4256]);
   (11521, [4257]); (11522, [4258]); (11523, [4259]); (11524, [4260]);
   (11525, [4261]); (11526, [4262]); (11527, [4263]); (11528, [4264]);
   (11529, [4265]); (11530, [4266]); (11531, [4267]); (11532, [4268]);
   (11533, [4269]); (11534, [4270]); (11535, [4271]); (11536, [4272]);
   (11537, [4273]); (11538, [4274]); (11539, [4275]); (11540, [4276]);
   (11541, [4277]); (11542, [4278]); (11543, [4279]); (11544, [4280]);
   (11545, [4281]); (11546, [4282]); (11547, [4283]); (11548, [4284]);
   (11549, [4285]); (11550, [4286]); (11551, [4287]); (11552, [4288]);
   (11553, [4289]); (11554, [4290]); (11555, [4291]); (11556, [4292]);
   (11557, [4293]); (11559, [4295]); (11565, [4301]); (42561, [42560]);
   (42563, [42562]); (42565, [42564]); (42567, [42566]); (42569, [42568]);
   (42571, [42570]); (42573, [42572]); (42575, [42574]); (42577, [42576]);
   (42579, [42578]); (42581, [42580]); (42583, [42582]); (42585, [42584]);
   (42587, [42586]); (42589, [42588]); (42591, [42590]); (42593, [42592]);
   (42595, [42594]); (42597, [42596]); (42599, [42598]); (42601, [42600]);
   (42603, [42602]); (42605, [42604]); (42625, [42624]); (42627, [42626]);
   (42629, [42628]); (42631, [42630]); (42633, [42632]); (42635, [42634]);
   (42637, [42636]); (42639, [42638]); (42641, [42640]); (42643, [42642]);
   (42645, [42644]); (42647, [42646]); (42649, [42648]); (42651, [42650]);
   (42787, [42786]); (42789, [42788]); (42791, [42790]); (42793, [42792]);
   (42795, [42794]); (42797, [42796]); (42799, [42798]); (42803, [42802]);
   (42805, [42804]); (42807, [42806]); (42809, [42808]); (42811, [42810]);
   (42813, [42812]); (42815, [42814]); (42817, [42816]); (42819, [42818]);
   (42821, [42820]); (42823, [42822]); (42825, [42824]); (42827, [42826]);
   (42829, [42828]); (42831, [42830]); (42833, [42832]); (42835, [42834]);
   (42837, [42836]); (42839, [42838]); (42841, [42840]); (42843, [42842]);
   (42845, [42844]); (42847, [42846]); (42849, [42848]); (42851, [42850]);
   (42853, [42852]); (42855, [42854]); (42857, [42856]); (42859, [42858]);
   (42861, [42860]); (42863, [42862]); (42874, [42873]); (42876, [42875]);
   (42879, [42878]); (42881, [42880]); (42883, [42882]); (42885, [42884]);
   (42887, [42886]); (42892, [42891]); (42897, [42896]); (42899, [42898]);
   (42900, [42948]); (42903, [42902]); (42905, [42904]); (42907, [42906]);
   (42909, [42908]); (42911, [42910]); (42913, [42912]); (42915, [42914]);
   (42917, [42916]); (42919, [42918]); (42921, [42920]); (42933, [42932]);
   (42935, [42934]); (42937, [42936]); (42939, [42938]); (42941, [42940]);
   (42943, [42942]); (42945, [42944]); (42947, [42946]); (42952, [42951]);
   (42954, [42953]); (42961, [42960]); (42967, [42966]); (42969, [42968]);
   (42998, [42997]); (43859, [42931]); (43888, [5024]); (43889, [5025]);
   (43890, [5026]); (43891, [5027]); (43892, [5028]); (43893, [5029]);
   (43894, [5030]); (43895, [5031]); (43896, [5032]); (43897, [5033]);
   (43898, [5034]); (43899, [5035]); (43900, [5036]); (43901, [5037]);
   (43902, [5038]); (43903, [5039]); (43904, [5040]); (43905, [5041]);
   (43906, [5042]); (43907, [5043]); (43908, [5044]); (43909, [5045]);
   (43910, [5046]); (43911, [5047]); (43912, [5048]); (43913, [5049]);
   (43914, [5050]); (43915, [5051]); (43916, [5052]); (43917, [5053]);
   (43918, [5054]); (43919, [5055]); (43920, [5056]); (43921, [5057]);
   (43922, [5058]); (43923, [5059]); (43924, [5060]); (43925, [5061]);
   (43926, [5062]); (43927, [5063]); (43928, [5064]); (43929, [5065]);
   (43930, [5066]); (43931, [5067]); (43932, [5068]); (43933, [5069]);
   (43934, [5070]); (43935, [5071]); (43936, [5072]); (43937, [5073]);
   (43938, [5074]); (43939, [5075]); (43940, [5076]); (43941, [5077]);
   (43942, [5078]); (43943, [5079]); (43944, [5080]); (43945, [5081]);
   (43946, [5082]); (43947, [5083]); (43948, [5084]); (43949, [5085]);
   (43950, [5086]); (43951, [5087]); (43952, [5088]); (43953, [5089]);
   (43954, [5090]); (43955, [5091]); (43956, [5092]); (43957, [5093]);
   (43958, [5094]); (43959, [5095]); (43960, [5096]); (43961, [5097]);
   (43962, [5098]); (43963, [5099]); (43964, [5100]); (43965, [5101]);
   (43966, [5102]); (43967, [5103]); (64256, [70; 70]); (64257, [70; 73]);
   (64258, [70; 76]); (64259, [70; 70; 73]); (64260, [70; 70; 76]);
   (64261, [83; 84]); (64262, [83; 84]); (64275, [1348; 1350]);
   (64276, [1348; 1333]); (64277, [1348; 1339]); (64278, [1358; 1350]);
   (64279, [1348; 1341]); (65345, [65313]); (65346, [65314]); (65347, [65315]);
   (65348, [65316]); (65349, [65317]); (65350, [65318]); (65351, [65319]);
   (65352, [65320]); (65353, [65321]); (65354, [65322]); (65355, [65323]);
   (65356, [65324]); (65357, [65325]); (65358, [65326]); (65359, [65327]);
   (65360, [65328]); (65361, [65329]); (65362, [65330]); (65363, [65331]);
   (65364, [65332]); (65365, [65333]); (65366, [65334]); (65367, [65335]);
   (65368, [65336]); (65369, [65337]); (65370, [65338]); (66600, [66560]);
   (66601, [66561]); (66602, [66562]); (66603, [66563]); (66604, [66564]);
   (66605, [66565]); (66606, [66566]); (66607, [66567]); (66608, [66568]);
   (66609, [66569]); (66610, [66570]); (66611, [66571]); (66612, [66572]);
   (66613, [66573]); (66614, [66574]); (66615, [66575]); (66616, [66576]);
   (66617, [66577]); (66618, [66578]); (66619, [66579]); (66620, [66580]);
   (66621, [66581]); (66622, [66582]); (66623, [66583]); (66624, [66584]);
   (66625, [66585]); (66626, [66586]); (66627, [66587]); (66628, [66588]);
   (66629, [66589]); (66630, [66590]); (66631, [66591]); (66632, [66592]);
   (66633, [66593]); (66634, [66594]); (66635, [66595]); (66636, [66596]);
   (66637, [66597]); (66638, [66598]); (66639, [66599]); (66776, [66736]);
   (66777, [66737]); (66778, [66738]); (66779, [66739]); (66780, [66740]);
   (66781, [66741]); (66782, [66742]); (66783, [66743]); (66784, [66744]);
   (66785, [66745]); (66786, [66746]); (66787, [66747]); (66788, [66748]);
   (66789, [66749]); (66790, [66750]); (66791, [66751]); (66792, [66752]);
   (66793, [66753]); (66794, [66754]); (66795, [66755]); (66796, [66756]);
   (66797, [66757]); (66798, [66758]); (66799, [66759]); (66800, [66760]);
   (66801, [66761]); (66802, [66762]); (66803, [66763]); (66804, [66764]);
   (66805, [66765]); (66806, [66766]); (66807, [66767]); (66808, [66768]);
   (66809, [66769]); (66810, [66770]); (66811, [66771]); (66967, [66928]);
   (66968, [66929]); (66969, [66930]); (66970, [66931]); (66971, [66932]);
   (66972, [66933]); (66973, [66934]); (66974, [66935]); (66975, [66936]);
   (66976, [66937]); (66977, [66938]); (66979, [66940]); (66980, [66941]);
   (66981, [66942]); (66982, [66943]); (66983, [66944]); (66984, [66945]);
   (66985, [66946]); (66986, [66947]); (66987, [66948]); (66988, [66949]);
   (66989, [66950]); (66990, [66951]); (66991, [66952]); (66992, [66953]);
   (66993, [66954]); (66995, [66956]); (66996, [66957]); (66997, [66958]);
   (66998, [66959]); (66999, [66960]); (67000, [66961]); (67001, [66962]);
   (67003, [66964]); (67004, [66965]); (68800, [68736]); (68801, [68737]);
   (68802, [68738]); (68803, [68739]); (68804, [68740]); (68805, [68741]);
   (68806, [68742]); (68807, [68743]); (68808, [68744]); (68809, [68745]);
   (68810, [68746]); (68811, [68747]); (68812, [68748]); (68813, [68749]);
   (68814, [68750]); (68815, [68751]); (68816, [68752]); (68817, [68753]);
   (68818, [68754]); (68819, [68755]); (68820, [68756]); (68821, [68757]);
   (68822, [68758]); (68823, [68759]); (68824, [68760]); (68825, [68761]);
   (68826, [68762]); (68827, [68763]); (68828, [68764]); (68829, [68765]);
   (68830, [68766]); (68831, [68767]); (68832, [68768]); (68833, [68769]);
   (68834, [68770]); (68835, [68771]); (68836, [68772]); (68837, [68773]);
   (68838, [68774]); (68839, [68775]); (68840, [68776]); (68841, [68777]);
   (68842, [68778]); (68843, [68779]); (68844, [68780]); (68845, [68781]);
   (68846, [68782]); (68847, [68783]); (68848, [68784]); (68849, [68785]);
   (68850, [68786]); (71872, [71840]); (71873, [71841]); (71874, [71842]);
   (71875, [71843]); (71876, [71844]); (71877, [71845]); (71878, [71846]);
   (71879, [71847]); (71880, [71848]); (71881, [71849]); (71882, [71850]);
   (71883, [71851]); (71884, [71852]); (71885, [71853]); (71886, [71854]);
   (71887, [71855]); (71888, [71856]); (71889, [71857]); (71890, [71858]);
   (71891, [71859]); (71892, [71860]); (71893, [71861]); (71894, [71862]);
   (71895, [71863]); (71896, [71864]); (71897, [71865]); (71898, [71866]);
   (71899, [71867]); (71900, [71868]); (71901, [71869]); (71902, [71870]);
   (71903, [71871]); (93792, [93760]); (93793, [93761]); (93794, [93762]);
   (93795, [93763]); (93796, [93764]); (93797, [93765]); (93798, [93766]);
   (93799, [93767]); (93800, [93768]); (93801, [93769]); (93802, [93770]);
   (93803, [93771]); (93804, [93772]); (93805, [93773]); (93806, [93774]);
   (93807, [93775]); (93808, [93776]); (93809, [93777]); (93810, [93778]);
   (93811, [93779]); (93812, [93780]); (93813, [93781]); (93814, [93782]);
   (93815, [93783]); (93816, [93784]); (93817, [93785]); (93818, [93786]);
   (93819, [93787]); (93820, [93788]); (93821, [93789]); (93822, [93790]);
   (93823, [93791]); (125218, [125184]); (125219, [125185]);
   (125220, [125186]); (125221, [125187]); (125222, [125188]);
   (125223, [125189]); (125224, [125190]); (125225, [125191]);
   (125226, [125192]); (125227, [125193]); (125228, [125194]);
   (125229, [125195]); (125230, [125196]); (125231, [125197]);
   (125232, [125198]); (125233, [125199]); (125234, [125200]);
   (125235, [125201]); (125236, [125202]); (125237, [125203]);
   (125238, [125204]); (125239, [125205]); (125240, [125206]);
   (125241, [125207]); (125242, [125208]); (125243, [125209]);
   (125244, [125210]); (125245, [125211]); (125246, [125212]);
   (125247, [125213]); (125248, [125214]); (125249, [125215]);
   (125250, [125216]); (125251, [125217])]%N.

Definition upper_table : list (string * string) :=
  Eval vm_compute in
    map (fun '(c, l) => (Json.utf8 c, concat (map Json.utf8 l)))
        upper_code_points.

Fixpoint lookup (ch : string) (table : list (string * string))
  : option string :=
  match table with
  | [] => None
  | (k, v) :: table' => if String.eqb k ch then Some v else lookup ch table'
  end.

(** The upper case of one character; a character without an entry is
    its own upper case. *)
Definition upper_char (ch : string) : string :=
  match lookup ch upper_table with
  | Some u => u
  | None => ch
  end.

(** [s.upper()]: character by character, without context. *)
Definition upper (s : string) : string :=
  concat (map upper_char (chars s)).

End Str.

(** ** [normalize_field_names] (app.py, lines 69-84) *)

Definition field_name_mapping : list (string * string) :=
  [("INVOICE DATE", "INVOICE_DATE");
   ("INVOICE NUMBER", "INVOICE_NUMBER");
   ("CUST. PO#", "CUSTOMER_PO");
   ("SUB-TOTAL:", "SUB_TOTAL");
   ("FREIGHT:", "FREIGHT");
   ("TOTAL:", "TOTAL");
   ("TRACKING/PRO NUMBER", "TRACKING_NUMBER")].

(** [mapping.get(k, default)] *)
Fixpoint mapping_get (mapping : list (string * string)) (k default : string)
  : string :=
  match mapping with
  | [] => default
  | (k', v) :: mapping' =>
      if String.eqb k' k then v else mapping_get mapping' k default
  end.

(** [field_name_mapping.get(key.strip().upper(), key.strip().upper())] *)
Definition normalize_key (key : string) : string :=
  mapping_get field_name_mapping
    (Str.upper (Str.strip key)) (Str.upper (Str.strip key)).

Definition normalize_field_names (data_dict : dict) : dict :=
  fold_left (fun normalized_dict '(key, value) =>
               dict_set normalized_dict (normalize_key key) value)
            data_dict [].

(** The canonical field names: the values of the alias table. *)
Definition canonical_fields : list string := field_name_mapping.*2.

(** ** Parsing the reply (app.py, lines 149-156) *)

(** [r'\{.*\}'] with [re.DOTALL] *)
Definition json_pattern : Re.pattern :=
  [Re.lit "{"%char; Re.Star Re.any; Re.lit "}"%char].

Inductive parse_error :=
| NoJsonFound        (* [ValueError("No JSON found in the response")] *)
| JsonDecodeError.   (* [json.JSONDecodeError] *)

Definition parse_response (response_text : string) : parse_error + json :=
  match Re.search json_pattern response_text with
  | Some json_str =>
      match Json.loads json_str with
      | Some extracted_data => inr extracted_data
      | None => inl JsonDecodeError
      end
  | None => inl NoJsonFound
  end.

(** Lines 159-165: normalise, overwrite the tracking number, add the file
    name. *)
Definition build_record (extracted_data : dict) (response_text pdf_file : string)
  : dict :=
  let extracted_data := normalize_field_names extracted_data in
  let extracted_data :=
    dict_set extracted_data "TRACKING_NUMBER"
      (JStr (extract_tracking_number response_text)) in
  dict_set extracted_data "pdf_file" (JStr pdf_file).

(** ** The world around [process_pdf] *)

(** What the script does to its collaborators, in order. *)
Inductive event :=
| Convert (pdf_path : string)          (* [convert_from_path] *)
| Save (path : string)                 (* [image.save] *)
| Request                              (* [client.chat.completions.create] *)
| Remove (path : string)               (* [os.remove] *)
| Sleep (seconds : nat)                (* [time.sleep] *)
| StWarning (msg : string)
| StInfo (msg : string)
| StError (msg : string)
| StWrite (msg : string)
| StSuccess (msg : string)
| StatusMarkdown (slot : nat) (msg : string)
| StatusError (slot : nat) (msg : string)
| Progress (done total : nat)          (* [progress_bar.progress(done / total)] *)
| Spinner (text : string)              (* [with st.spinner(text)] is entered *)
| DownloadButton (file_name data : string)
| Dataframe (columns : list string) (rows : list (list (option json))).

(** What the collaborators deliver during one attempt.  Each component is
    consulted only if the attempt reaches the call; an exception is
    represented by its message. *)
Inductive save_result :=
| Saved
| SaveRaised (created : bool) (e : string). (* [created]: a file was left *)

Record attempt_world := {
  (** [convert_from_path(..., output_folder=temp_dir, single_file=True)]
      followed by [images[0]]: the files the rasterizer leaves in the output
      folder, and the exception if no page image is obtained *)
  rasterizer_files : list string;
  rasterizer_error : option string;
  (** [image.save(image_path)] *)
  image_save : save_result;
  (** reading the image back for the base64 encoding *)
  read_error : option string;
  (** the API call and [response.choices[0].message.content]: the
      exception, or the text *)
  reply : string + string
}.

(** The file system (the set of existing paths) and the local variable
    [image_path], which stays bound from one attempt to the next. *)
Record machine := {
  files : gset string;
  image_path : option string
}.

(** Computations that read and write the machine, emit events and may
    raise. *)
Definition M (A : Type) : Type :=
  machine -> (string + A) * machine * list event.

Definition ret {A} (a : A) : M A := fun m => (inr a, m, []).

Definition bind {A B} (x : M A) (f : A -> M B) : M B :=
  fun m =>
    match x m with
    | (inl e, m1, t1) => (inl e, m1, t1)
    | (inr a, m1, t1) =>
        match f a m1 with
        | (r, m2, t2) => (r, m2, t1 ++ t2)
        end
    end.

Definition raise {A} (e : string) : M A := fun m => (inl e, m, []).

Definition emit (ev : event) : M unit := fun m => (inr tt, m, [ev]).

Definition try_except {A} (body : M A) (handler : string -> M A) : M A :=
  fun m =>
    match body m with
    | (inr a, m1, t1) => (inr a, m1, t1)
    | (inl e, m1, t1) =>
        match handler e m1 with
        | (r, m2, t2) => (r, m2, t1 ++ t2)
        end
    end.

#[export] Instance M_ret : MRet M := @ret.
#[export] Instance M_bind : MBind M := fun A B f x => bind x f.

Definition raise_if (e : option string) : M unit :=
  match e with
  | Some msg => raise msg
  | None => ret tt
  end.

Definition create_files (paths : list string) : M unit :=
  fun m => (inr tt,
            {| files := files m ∪ list_to_set paths;
               image_path := image_path m |}, []).

Definition set_image_path (path : string) : M unit :=
  fun m => (inr tt, {| files := files m; image_path := Some path |}, []).

(** [os.remove(path)] *)
Definition os_remove (path : string) : M unit :=
  fun m =>
    if decide (path ∈ files m)
    then (inr tt,
          {| files := files m ∖ {[path]}; image_path := image_path m |},
          [Remove path])
    else (inl "No such file or directory", m, [Remove path]).

(** ['image_path' in locals() and os.path.exists(image_path)] *)
Definition image_exists : M bool :=
  fun m =>
    (inr match image_path m with
         | Some path => bool_decide (path ∈ files m)
         | None => false
         end, m, []).

Definition current_image_path : M (option string) :=
  fun m => (inr (image_path m), m, []).

(** [os.path.join(a, b)] on a POSIX system *)
Definition path_join (a b : string) : string :=
  match b with
  | String "/" _ => b
  | _ =>
      match String.rev a with
      | EmptyString => b
      | String "/" _ => a +:+ b
      | _ => a +:+ "/" +:+ b
      end
  end.

(** [f'temp_{pdf_file}_{attempt}.png'] *)
Definition temp_image_name (pdf_file : string) (attempt : nat) : string :=
  "temp_" +:+ pdf_file +:+ "_" +:+ Text.decimal attempt +:+ ".png".

Definition clear_locals : M unit :=
  fun m => (inr tt, {| files := files m; image_path := None |}, []).

(** ** The export (lines 216-224 and 236-244) *)

Definition columns_order : list string :=
  ["INVOICE_DATE"; "INVOICE_NUMBER"; "CUSTOMER_PO"; "SUB_TOTAL"; "FREIGHT";
   "TOTAL"; "TRACKING_NUMBER"; "pdf_file"].

(** A table of pandas: column labels and rows of cells; [None] is a
    missing value. *)
Record data_frame := {
  columns : list string;
  rows : list (list (option json))
}.

Definition add_column (cols : list string) (k : string) : list string :=
  if existsb (String.eqb k) cols then cols else cols ++ [k].

(** [pd.DataFrame(data)] for a list of dictionaries: the columns are the
    keys in the order in which they first appear. *)
Definition DataFrame (data : list dict) : data_frame :=
  let cols :=
    fold_left (fun cols record => fold_left add_column (dict_keys record) cols)
              data [] in
  {| columns := cols;
     rows := map (fun record => map (dict_get record) cols) data |}.

Fixpoint index_of (k : string) (cols : list string) : option nat :=
  match cols with
  | [] => None
  | c :: cols' => if String.eqb c k then Some 0 else S <$> index_of k cols'
  end.

Definition cell_of (cols : list string) (row : list (option json)) (k : string)
  : option json :=
  i ← index_of k cols; mjoin (row !! i).

(** [df.reindex(columns=cols)]: the columns named, in that order; a column
    the frame does not have is filled with missing values. *)
Definition reindex (cols : list string) (df : data_frame) : data_frame :=
  {| columns := cols;
     rows := map (fun row => map (cell_of (columns df) row) cols) (rows df) |}.

Definition double_quote : string := String "034" EmptyString.

Fixpoint escape_quotes (s : string) : string :=
  match s with
  | EmptyString => EmptyString
  | String c s' =>
      if Ascii.eqb c "034" then String c (String c (escape_quotes s'))
      else String c (escape_quotes s')
  end.

(** A text field as the [csv] writer puts it ([QUOTE_MINIMAL]): quoted
    when it holds the delimiter, the quote character or a character of
    the line terminator, which is the line feed. *)
Definition csv_field (s : string) : string :=
  if Text.occurs "," s || Text.occurs "034" s || Text.occurs "010" s
  then double_quote +:+ escape_quotes s +:+ double_quote
  else s.

(** One record; a record made of a single empty field is written as a
    pair of quotes. *)
Definition csv_record (fields : list string) : string :=
  match fields with
  | [field] =>
      if String.eqb field EmptyString then double_quote +:+ double_quote else field
  | _ => Text.join "," fields
  end.

Definition newline : string := String "010" EmptyString.

Fixpoint csv_lines (records : list string) : string :=
  match records with
  | [] => EmptyString
  | r :: records' => r +:+ newline +:+ csv_lines records'
  end.

(** [.encode('utf-8')].  A text is represented by its UTF-8 bytes, so the
    bytes are the text; the encoding fails, with [UnicodeEncodeError], on
    a lone surrogate, which only a [\u] escape can bring in. *)
Fixpoint has_surrogate (s : string) : bool :=
  match s with
  | EmptyString => false
  | String c s' =>
      (Text.in_range 237 237 c
       && match s' with
          | String c' _ => Text.in_range 160 191 c'
          | EmptyString => false
          end)
      || has_surrogate s'
  end.

Definition encode_utf8 (s : string) : option string :=
  if has_surrogate s then None else Some s.

Definition encode_error_message : string :=
  "'utf-8' codec can't encode character: surrogates not allowed".

Inductive export_result :=
| NothingToExport
| EncodingError
| Exported (csv_buffer : string).

Section CsvExport.

(** The text pandas writes for a value that is present, quoting
    included.  It depends on the type pandas infers for the whole
    column, so the column is an argument. *)
Variable show : list (option json) -> json -> string.

Definition cell_text (column : list (option json)) (cell : option json)
  : string :=
  match cell with
  | None => EmptyString
  | Some v => show column v
  end.

Definition column_at (df : data_frame) (j : nat) : list (option json) :=
  map (fun row => mjoin (row !! j)) (rows df).

Definition row_fields (df : data_frame) (row : list (option json))
  : list string :=
  imap (fun j cell => cell_text (column_at df j) cell) row.

(** [df.to_csv(index=False)]: the header, then one record per row, no
    index column, lines ended by a line feed. *)
Definition to_csv (df : data_frame) : string :=
  csv_lines (csv_record (map csv_field (columns df))
             :: map (fun row => csv_record (row_fields df row)) (rows df)).

(** The CSV the script builds (lines 217-224) when [data] is not
    empty. *)
Definition export_csv (data : list dict) : export_result :=
  match data with
  | [] => NothingToExport
  | _ =>
      match encode_utf8 (to_csv (reindex columns_order (DataFrame data))) with
      | Some csv_buffer => Exported csv_buffer
      | None => EncodingError
      end
  end.

End CsvExport.

(** ** The messages of the script *)

(** [f"Failed to parse JSON for file {pdf_file} on attempt {attempt + 1}"] *)
Definition parse_failure_message (pdf_file : string) (attempt : nat) : string :=
  "Failed to parse JSON for file " +:+ pdf_file +:+ " on attempt "
  +:+ Text.decimal (attempt + 1).

(** [f"Response text: {response_text}"] *)
Definition response_message (response_text : string) : string :=
  "Response text: " +:+ response_text.

(** [f"An error occurred while processing {pdf_file} on attempt
    {attempt + 1}: {e}"] *)
Definition attempt_error_message (pdf_file : string) (attempt : nat)
    (e : string) : string :=
  "An error occurred while processing " +:+ pdf_file +:+ " on attempt "
  +:+ Text.decimal (attempt + 1) +:+ ": " +:+ e.

(** [f"Retrying {pdf_file} in {retry_delay} seconds..."] *)
Definition retry_message (pdf_file : string) (retry_delay : nat) : string :=
  "Retrying " +:+ pdf_file +:+ " in " +:+ Text.decimal retry_delay
  +:+ " seconds...".

(** [f"All retries failed for {pdf_file}"] *)
Definition failure_message (pdf_file : string) : string :=
  "All retries failed for " +:+ pdf_file.

(** [f"**{pdf_file}**: Processing..."] *)
Definition processing_message (pdf_file : string) : string :=
  "**" +:+ pdf_file +:+ "**: Processing...".

Definition no_data_message : string :=
  "No data was extracted from the uploaded PDFs.".

(** ** [process_pdf] (app.py, lines 91-187) *)

Section Pipeline.

(** The directory made by [tempfile.TemporaryDirectory()] *)
Variable temp_dir : string.

Definition image_path_of (pdf_file : string) (attempt : nat) : string :=
  path_join temp_dir (temp_image_name pdf_file attempt).

(** The body of the outer [try] (lines 96-170). *)
Definition attempt_body (w : attempt_world) (pdf_file : string) (attempt : nat)
  : M dict :=
  emit (Convert (path_join temp_dir pdf_file));;
  create_files (rasterizer_files w);;
  raise_if (rasterizer_error w);;
  let path := image_path_of pdf_file attempt in
  set_image_path path;;
  emit (Save path);;
  match image_save w with
  | Saved => create_files [path]
  | SaveRaised created e =>
      (if created then create_files [path] else ret tt);; raise e
  end;;
  raise_if (read_error w);;
  emit Request;;
  response_text ← match reply w with
                  | inl e => raise e
                  | inr text => ret text
                  end;
  match parse_response response_text with
  | inl NoJsonFound => raise "No JSON found in the response"
  | inl JsonDecodeError =>
      emit (StWarning (parse_failure_message pdf_file attempt));;
      emit (StInfo (response_message response_text));;
      raise "JSON parsing failed"
  | inr (JObj extracted_data) =>
      let extracted_data := build_record extracted_data response_text pdf_file in
      os_remove path;;
      ret extracted_data
  | inr _ => raise "object has no attribute 'items'"
  end.

(** The [except Exception as e] clause (lines 177-187).  [None] means
    that the loop goes on, [Some r] that the function returns [r]. *)
Definition on_exception (pdf_file : string) (attempt max_retries retry_delay : nat)
    (e : string) : M (option (option dict)) :=
  emit (StWarning (attempt_error_message pdf_file attempt e));;
  path ← current_image_path;
  present ← image_exists;
  match path, present with
  | Some path, true => os_remove path
  | _, _ => ret tt
  end;;
  if attempt <? max_retries - 1 then
    emit (StInfo (retry_message pdf_file retry_delay));;
    emit (Sleep retry_delay);;
    ret None
  else
    emit (StError (failure_message pdf_file));;
    ret (Some None).

Definition iteration (w : attempt_world) (pdf_file : string)
    (attempt max_retries retry_delay : nat) : M (option (option dict)) :=
  try_except
    (extracted_data ← attempt_body w pdf_file attempt;
     ret (Some (Some extracted_data)))
    (on_exception pdf_file attempt max_retries retry_delay).

(** [for attempt in range(max_retries)], from [attempt] on, with [todo]
    iterations left; the function returns [None] when the range is
    exhausted. *)
Fixpoint for_attempts (world : nat -> attempt_world) (pdf_file : string)
    (max_retries retry_delay todo attempt : nat) : M (option dict) :=
  match todo with
  | O => ret None
  | S todo' =>
      r ← iteration (world attempt) pdf_file attempt max_retries retry_delay;
      match r with
      | Some result => ret result
      | None =>
          for_attempts world pdf_file max_retries retry_delay todo' (S attempt)
      end
  end.

Definition process_pdf (world : nat -> attempt_world) (pdf_file : string)
    (max_retries retry_delay : nat) : M (option dict) :=
  clear_locals;;
  for_attempts world pdf_file max_retries retry_delay max_retries 0.

(** ** The batch loop (lines 189-229)

    [world idx attempt] is what the collaborators deliver in attempt
    [attempt] of the document at position [idx]. *)
Fixpoint batch_loop (world : nat -> nat -> attempt_world) (total_files idx : nat)
    (pdf_files : list string) (data : list dict) : M (list dict) :=
  match pdf_files with
  | [] => ret data
  | pdf_file :: rest =>
      emit (StatusMarkdown 0 (processing_message pdf_file));;
      result ← process_pdf (world idx) pdf_file 3 5;
      data ← match result with
             | Some result => ret (data ++ [result])
             | None => emit (StatusError 0 "Failed");; ret data
             end;
      emit (Progress (idx + 1) total_files);;
      batch_loop world total_files (S idx) rest data
  end.

(** Lines 212-229.  [show] is the rendering of values by pandas, see
    [to_csv].  The result is [data] and the value left in
    [st.session_state.data]. *)
Definition process_all (show : list (option json) -> json -> string)
    (world : nat -> nat -> attempt_world) (pdf_files : list string)
  : M (list dict * option (list dict)) :=
  data ← batch_loop world (length pdf_files) 0 pdf_files [];
  emit (StWrite "All files processed.");;
  match export_csv show data with
  | NothingToExport => emit (StError no_data_message);; ret (data, None)
  | EncodingError => raise encode_error_message
  | Exported _ => ret (data, Some data)
  end.

(** The end of the script (lines 234-258): the content offered for
    download.  The table is built and encoded inside the spinner. *)
Definition download (show : list (option json) -> json -> string)
    (session_data : option (list dict)) : M (option string) :=
  match session_data with
  | Some (record :: data) =>
      emit (Spinner "Preparing CSV...");;
      let df := reindex columns_order (DataFrame (record :: data)) in
      match export_csv show (record :: data) with
      | Exported csv_buffer =>
          emit (StSuccess "Processing complete!");;
          emit (DownloadButton "data_label_invoices.csv" csv_buffer);;
          emit (Dataframe (columns df) (rows df));;
          ret (Some csv_buffer)
      | _ => raise encode_error_message
      end
  | _ => emit (StError no_data_message);; ret None
  end.

End Pipeline.

(** * Vocabulary of the statements *)

(** ** Text and patterns *)

(** A continuation of the matcher that returns prefixes of its argument. *)
Definition prefixing (k : string → option string) : Prop :=
  ∀ s m, k s = Some m → ∃ rest, s = m +:+ rest.

(** The rest of the pattern after the star of [json_pattern]. *)
Definition closing : string → option string :=
  Re.match_here [Re.lit "}"%char].

(** The shape of a tracking number: ["1Z"] and 16 characters, each an
    upper-case letter or a digit. *)
Definition tracking_shape (m : string) : Prop :=
  ∃ t, m = "1Z" +:+ t ∧ String.length t = 16 ∧
       Text.forallb upper_or_digit t = true.

(** ** JSON *)

(** Decoding a JSON text directly. *)
Definition decode_directly (json_str : string) : parse_error + json :=
  match Json.loads json_str with
  | Some v => inr v
  | None => inl JsonDecodeError
  end.

(** The non-empty spans of a text. *)
Definition substrings (s : string) : list string :=
  flat_map (fun i => map (fun n => String.substring i n s)
                         (seq 1 (String.length s - i)))
           (seq 0 (String.length s)).

(** A text from a brace to a brace that decodes to an object. *)
Definition is_object_text (t : string) : bool :=
  match t, String.rev t with
  | String "{" _, String "}" _ =>
      match Json.loads t with
      | Some (JObj _) => true
      | _ => false
      end
  | _, _ => false
  end.

(** The well-formed JSON objects a text contains. *)
Definition objects_in (s : string) : list string :=
  List.filter is_object_text (substrings s).

(** An opening brace with a closing brace somewhere after it. *)
Definition brace_span (s : string) : Prop :=
  ∃ a b c, s = a +:+ "{" +:+ b +:+ "}" +:+ c.

(** The outermost container under construction is an object. *)
Fixpoint rooted (stack : list Json.frame) : bool :=
  match stack with
  | [] => false
  | f :: stack' =>
      match stack' with
      | [] => match f with Json.FObj _ _ => true | Json.FArr _ => false end
      | _ => rooted stack'
      end
  end.

(** A state of the parser whose result, if any, is an object. *)
Definition object_rooted (st : Json.pstate) : Prop :=
  rooted st.1 = true ∨ (st.1 = [] ∧ ∃ members, st.2 = Json.XDone (JObj members)).

(** ** Characters of a text *)

(** A leading byte with continuation bytes, no more than it calls for. *)
Definition is_char (ch : string) : bool :=
  match ch with
  | EmptyString => false
  | String c rest =>
      Text.forallb Str.is_cont rest
      && (String.length rest <=? Str.width c - 1)
  end.

(** A character that has all its bytes. *)
Definition complete (ch : string) : bool :=
  match ch with
  | EmptyString => false
  | String c rest =>
      Text.forallb Str.is_cont rest
      && (String.length rest =? Str.width c - 1)
  end.

(** The text does not begin with a continuation byte. *)
Definition fresh (s : string) : bool :=
  match s with
  | EmptyString => true
  | String c _ => negb (Str.is_cont c)
  end.

Definition fresh_head (l : list string) : bool :=
  match l with
  | [] => true
  | ch :: _ => fresh ch
  end.

(** A list of characters as [Str.chars] cuts them. *)
Fixpoint chunked (l : list string) : Prop :=
  match l with
  | [] => True
  | ch :: l' =>
      is_char ch = true
      ∧ (complete ch = true ∨ fresh_head l' = true)
      ∧ chunked l'
  end.

Definition first_char (l : list string) : string :=
  match l with
  | [] => EmptyString
  | ch :: _ => ch
  end.

Definition last_char (l : list string) : string := first_char (reverse l).

(** No white space at either end. *)
Definition trimmed (l : list string) : Prop :=
  Str.isspace (first_char l) = false ∧ Str.isspace (last_char l) = false.

(** A text made of white space only. *)
Definition blank (s : string) : bool := forallb Str.isspace (Str.chars s).

(** The characters of the upper case of a list of characters. *)
Definition upper_chars (l : list string) : list string :=
  flat_map (fun ch => Str.chars (Str.upper_char ch)) l.

Definition strip_chars (l : list string) : list string :=
  Str.rstrip_chars (Str.lstrip_chars l).

(** What the table of upper cases is checked for, entry by entry: the
    key is a complete character and no white space; the upper case is made of
    complete characters, does not begin inside a character, neither
    begins nor ends with white space, is its own upper case and holds no
    lower-case ASCII letter. *)
Definition list_eqb (l1 l2 : list string) : bool :=
  bool_decide (l1 = l2).

Definition good_entry (kv : string * string) : bool :=
  complete kv.1 && fresh kv.1 && negb (Str.isspace kv.1)
  && match Str.chars kv.2 with
     | [] => false
     | l =>
         forallb complete l && fresh kv.2
         && negb (Str.isspace (first_char l))
         && negb (Str.isspace (last_char l))
         && list_eqb (upper_chars l) l
         && Text.forallb (fun c => negb (Text.is_lower c)) kv.2
     end.

(** ** Normalisation *)

(** The mapping with every key replaced by its normal form, duplicates
    kept. *)
Definition renamed (d : dict) : dict :=
  map (fun '(key, value) => (normalize_key key, value)) d.

(** A key that [normalize_field_names] leaves alone. *)
Definition stable_key (key : string) : Prop := normalize_key key = key.

(** The upper case of an ASCII letter; other bytes are kept. *)
Definition ascii_upper (c : ascii) : ascii :=
  if Text.is_lower c then ascii_of_N (Text.code c - 32) else c.

Fixpoint ascii_upper_text (s : string) : string :=
  match s with
  | EmptyString => EmptyString
  | String c s' => String (ascii_upper c) (ascii_upper_text s')
  end.

Definition is_ascii (s : string) : bool :=
  Text.forallb (fun c => (Text.code c <? 128)%N) s.

(** No lower-case ASCII letter. *)
Definition no_lower (s : string) : bool :=
  Text.forallb (fun c => negb (Text.is_lower c)) s.

(** A text of white space characters only. *)
Definition white (s : string) : Prop :=
  ∃ l, Forall (fun sp => sp ∈ Str.spaces) l ∧ s = Str.concat l.

(** The text neither begins nor ends with a white space character. *)
Definition no_space_around (s : string) : Prop :=
  ∀ sp rest, sp ∈ Str.spaces → s ≠ sp +:+ rest ∧ s ≠ rest +:+ sp.

(** One step of the loop of [normalize_field_names]. *)
Definition normalize_step (acc : dict) (kv : string * json) : dict :=
  dict_set acc (normalize_key kv.1) kv.2.

(** ** Attempts, documents and traces *)

(** The record an attempt yields, if every call of the attempt delivers. *)
Definition attempt_record (w : attempt_world) (pdf_file : string)
  : option dict :=
  match rasterizer_error w, image_save w, read_error w, reply w with
  | None, Saved, None, inr response_text =>
      match parse_response response_text with
      | inr (JObj extracted_data) =>
          Some (build_record extracted_data response_text pdf_file)
      | _ => None
      end
  | _, _, _, _ => None
  end.

(** The attempt gets as far as a saved image. *)
Definition image_saved (w : attempt_world) : bool :=
  match rasterizer_error w, image_save w with
  | None, Saved => true
  | _, _ => false
  end.

(** The attempt leaves a file at the path of its image: the image was
    saved, or saving raised after it had created the file. *)
Definition image_created (w : attempt_world) : bool :=
  match rasterizer_error w, image_save w with
  | None, Saved => true
  | None, SaveRaised created _ => created
  | Some _, _ => false
  end.

(** What one iteration of the retry loop decides. *)
Definition iteration_result (w : attempt_world) (pdf_file : string)
    (attempt max_retries : nat) : option (option dict) :=
  match attempt_record w pdf_file with
  | Some record => Some (Some record)
  | None => if attempt <? max_retries - 1 then None else Some None
  end.

(** The record of the first attempt that succeeds among [todo] attempts
    starting at [attempt]. *)
Fixpoint first_success (world : nat -> attempt_world) (pdf_file : string)
    (todo attempt : nat) : option dict :=
  match todo with
  | O => None
  | S todo' =>
      match attempt_record (world attempt) pdf_file with
      | Some record => Some record
      | None => first_success world pdf_file todo' (S attempt)
      end
  end.

(** The number of attempts made: up to the first success, or all. *)
Fixpoint attempts_needed (world : nat -> attempt_world) (pdf_file : string)
    (todo attempt : nat) : nat :=
  match todo with
  | O => O
  | S todo' =>
      match attempt_record (world attempt) pdf_file with
      | Some _ => 1
      | None => S (attempts_needed world pdf_file todo' (S attempt))
      end
  end.

(** The records of the documents that succeed, in input order; [idx] is
    the position of the first document of [pdf_files]. *)
Fixpoint expected_data (world : nat -> nat -> attempt_world) (idx : nat)
    (pdf_files : list string) : list dict :=
  match pdf_files with
  | [] => []
  | pdf_file :: rest =>
      match first_success (world idx) pdf_file 3 0 with
      | Some record => record :: expected_data world (S idx) rest
      | None => expected_data world (S idx) rest
      end
  end.

(** The names of the documents that succeed, and of those that fail. *)
Fixpoint succeeded (world : nat -> nat -> attempt_world) (idx : nat)
    (pdf_files : list string) : list string :=
  match pdf_files with
  | [] => []
  | pdf_file :: rest =>
      match first_success (world idx) pdf_file 3 0 with
      | Some _ => pdf_file :: succeeded world (S idx) rest
      | None => succeeded world (S idx) rest
      end
  end.

Fixpoint failed (world : nat -> nat -> attempt_world) (idx : nat)
    (pdf_files : list string) : list string :=
  match pdf_files with
  | [] => []
  | pdf_file :: rest =>
      match first_success (world idx) pdf_file 3 0 with
      | Some _ => failed world (S idx) rest
      | None => pdf_file :: failed world (S idx) rest
      end
  end.

(** Projections of a trace. *)
Definition attempts_in (t : list event) : nat :=
  length (List.filter (fun e => match e with Convert _ => true | _ => false end) t).

Definition removals (t : list event) : list string :=
  omap (fun e => match e with Remove p => Some p | _ => None end) t.

Definition announced (t : list event) : list string :=
  omap (fun e => match e with StatusMarkdown _ msg => Some msg | _ => None end) t.

Definition errors (t : list event) : list string :=
  omap (fun e => match e with StError msg => Some msg | _ => None end) t.

(** The files the rasterizer leaves during [todo] attempts from [attempt]. *)
Fixpoint rasterizer_leftovers (world : nat -> attempt_world)
    (todo attempt : nat) : gset string :=
  match todo with
  | O => ∅
  | S todo' =>
      list_to_set (rasterizer_files (world attempt))
      ∪ rasterizer_leftovers world todo' (S attempt)
  end.

(** ** Sample inputs *)

(** Test inputs are written with ['] for the double quote. *)
Definition q (s : string) : string :=
  (fix go s :=
     match s with
     | EmptyString => EmptyString
     | String c s' => String (if Ascii.eqb c "'" then "034"%char else c) (go s')
     end) s.

Definition sample_canonical : dict :=
  [("TOTAL", JStr "12.50"); ("INVOICE_DATE", JStr "01/02/2024")].

(** The no-break space. *)
Definition nbsp : string := Eval vm_compute in Json.utf8 160.

(** Labels as a reply may hold them. *)
Definition sample_labels : dict :=
  [(" Invoice Date", JStr "01/02/2024"); (nbsp +:+ "total: ", JStr "12.50");
   ("Straße", JStr "Hauptstr. 1"); ("TOTAL:", JStr "12.60")].

(** A reply with the escape of a lone surrogate. *)
Definition surrogate_reply : string := q "{'TOTAL': '\ud83d'}".

(** Sample collaborators for the examples. *)
Definition sample_reply : string :=
  q "{'Invoice Date': '01/02/2024', 'total:': '12.50'} Tracking 1ZABCDEFGH12345678".

Definition delivers (response_text : string) : attempt_world :=
  {| rasterizer_files := []; rasterizer_error := None; image_save := Saved;
     read_error := None; reply := inr response_text |}.

Definition request_fails : attempt_world :=
  {| rasterizer_files := []; rasterizer_error := None; image_save := Saved;
     read_error := None; reply := inl "Connection error." |}.

Definition rasterizer_fails : attempt_world :=
  {| rasterizer_files := []; rasterizer_error := Some "Unable to get page count.";
     image_save := Saved; read_error := None; reply := inl EmptyString |}.

(** The rasterizer writes the page into the output folder, the rest of
    the attempt goes well. *)
Definition leaves_page (response_text : string) : attempt_world :=
  {| rasterizer_files := ["/tmp/work/page.png"]; rasterizer_error := None;
     image_save := Saved; read_error := None; reply := inr response_text |}.

Definition empty_machine : machine := {| files := ∅; image_path := None |}.

(** Run on the empty machine; the files are listed. *)
Definition run_on_empty {A} (x : M A)
  : (string + A) * list string * list event :=
  match x empty_machine with
  | (r, m, t) => (r, elements (files m), t)
  end.

(** * The script around the batch (app.py, lines 12-17, 36-66, 231-258) *)

(** [st.session_state]: the records of the last run that extracted
    something, and the sorted names of the files they came from
    (lines 13-17: initially [None] and the empty list). *)
Record session_state := {
  session_data : option (list dict);
  uploaded_file_names : list string
}.

Definition initial_session : session_state :=
  {| session_data := None; uploaded_file_names := [] |}.

(** [sorted(names)]: strings are compared character by character; on
    UTF-8 text the order of the bytes is the order of the code points. *)
Definition sorted (names : list string) : list string :=
  merge_sort String.le names.

(** Lines 40-47: the cached data are dropped when there are none or when
    the sorted names of the uploaded files differ from the stored ones. *)
Definition check_uploads (names : list string) (s : session_state)
  : session_state :=
  let current_uploaded_file_names := sorted names in
  match session_data s with
  | Some _ =>
      if decide (uploaded_file_names s = current_uploaded_file_names)
      then s
      else {| session_data := None;
              uploaded_file_names := current_uploaded_file_names |}
  | None => {| session_data := None;
               uploaded_file_names := current_uploaded_file_names |}
  end.

(** [f"Found {len(pdf_files)} PDF file(s)."] *)
Definition found_message (n : nat) : string :=
  "Found " +:+ Text.decimal n +:+ " PDF file(s).".

Definition no_pdf_message : string :=
  "No PDF files found. Please upload at least one PDF.".

Definition cached_message : string := "Using cached data.".

(** What the collaborators deliver during one run of the script: the
    exception, if any, of writing the upload at each position into the
    temporary directory, and the worlds of the attempts. *)
Record script_world := {
  write_error : nat -> option string;
  attempts : nat -> nat -> attempt_world
}.

(** Lines 54-59: the uploads are written into the temporary directory,
    [pdf_files] collects their names in upload order. *)
Fixpoint save_uploads (temp_dir : string) (w : script_world) (idx : nat)
    (names pdf_files : list string) : M (list string) :=
  match names with
  | [] => ret pdf_files
  | name :: rest =>
      raise_if (write_error w idx);;
      create_files [path_join temp_dir name];;
      save_uploads temp_dir w (S idx) rest (pdf_files ++ [name])
  end.

(** Lines 50-229: the body of [if st.session_state.data is None]. *)
Definition process_uploads (temp_dir : string)
    (show : list (option json) -> json -> string) (w : script_world)
    (names : list string) : M (list dict * option (list dict)) :=
  emit (Spinner "Setting up...");;
  pdf_files ← save_uploads temp_dir w 0 names [];
  emit (StWrite (found_message (length pdf_files)));;
  match pdf_files with
  | [] => emit (StError no_pdf_message)
  | _ => ret tt
  end;;
  process_all temp_dir show (attempts w) pdf_files.

(** One run of the script with the uploaded files [names] (lines 38-258),
    from the session [s] and the files [fs].  The result is the session
    afterwards, the content offered for download or the exception that
    ends the run, and the trace.  The temporary directory is removed when
    its block is left; the files after the run are not part of the
    result.  The uploader, the placeholders and the progress bar leave
    no event when they are created. *)
Definition run_script (temp_dir : string)
    (show : list (option json) -> json -> string) (w : script_world)
    (names : list string) (s : session_state) (fs : gset string)
  : session_state * (string + option string) * list event :=
  match names with
  | [] => (s, inr None, [])
  | _ =>
      let s1 := check_uploads names s in
      match session_data s1 with
      | None =>
          match process_uploads temp_dir show w names
                  {| files := fs; image_path := None |} with
          | (inl e, _, t) => (s1, inl e, t)
          | (inr (_, stored), m, t) =>
              let s2 := match stored with
                        | Some data =>
                            {| session_data := Some data;
                               uploaded_file_names := uploaded_file_names s1 |}
                        | None => s1
                        end in
              match download show (session_data s2) m with
              | (r, _, t') => (s2, r, t ++ t')
              end
          end
      | Some _ =>
          match (emit (StInfo cached_message);;
                 download show (session_data s1))
                  {| files := fs; image_path := None |} with
          | (r, _, t) => (s1, r, t)
          end
      end
  end.

(** ** More projections of a trace *)

Definition sleeps (t : list event) : list nat :=
  omap (fun e => match e with Sleep n => Some n | _ => None end) t.

(** The number of calls of the API. *)
Definition requests (t : list event) : nat :=
  length (List.filter (fun e => match e with Request => true | _ => false end) t).

Definition progress_updates (t : list event) : list (nat * nat) :=
  omap (fun e => match e with Progress n total => Some (n, total) | _ => None end) t.

(** The placeholders that receive a status, in order. *)
Definition status_slots (t : list event) : list nat :=
  omap (fun e => match e with
                 | StatusMarkdown slot _ | StatusError slot _ => Some slot
                 | _ => None
                 end) t.

Definition infos (t : list event) : list string :=
  omap (fun e => match e with StInfo msg => Some msg | _ => None end) t.

(** The paths given to the rasterizer, in order. *)
Definition conversions (t : list event) : list string :=
  omap (fun e => match e with Convert pdf_path => Some pdf_path | _ => None end) t.

(** The cost of one document, read off the part of the trace that
    belongs to it: between one and three attempts, all of them
    conversions of the document, at most one call of the API per
    attempt, and a pause of five seconds before each further attempt. *)
Definition document_cost (temp_dir pdf_file : string) (part : list event)
  : Prop :=
  conversions part = repeat (path_join temp_dir pdf_file) (attempts_in part)
  ∧ 1 ≤ attempts_in part ≤ 3
  ∧ requests part ≤ attempts_in part
  ∧ sleeps part = repeat 5 (attempts_in part - 1).

(** The attempts of a batch: those of each document, up to its first
    success. *)
Fixpoint batch_attempts (world : nat -> nat -> attempt_world) (idx : nat)
    (pdf_files : list string) : nat :=
  match pdf_files with
  | [] => 0
  | pdf_file :: rest =>
      attempts_needed (world idx) pdf_file 3 0
      + batch_attempts world (S idx) rest
  end.

(** The records a session holds, if any, have been exported once. *)
Definition session_ok (show : list (option json) -> json -> string)
    (s : session_state) : Prop :=
  match session_data s with
  | Some data => ∃ csv_buffer, export_csv show data = Exported csv_buffer
  | None => True
  end.

(** Two lists of records that agree on the columns of the export. *)
Definition same_columns (data data' : list dict) : Prop :=
  Forall2 (fun record record' =>
             ∀ column, column ∈ columns_order →
                       dict_get record column = dict_get record' column)
          data data'.

(** A world in which every upload is written. *)
Definition writes_succeed (w : script_world) : Prop :=
  ∀ idx, write_error w idx = None.

Definition sample_world : script_world :=
  {| write_error := fun _ => None;
     attempts := fun _ _ => delivers sample_reply |}.

Definition failing_world : script_world :=
  {| write_error := fun _ => None;
     attempts := fun _ _ => request_fails |}.

(** A rendering of values for the examples: texts as the CSV writer
    quotes them. *)
Definition sample_show (column : list (option json)) (v : json) : string :=
  match v with
  | JStr s => csv_field s
  | _ => EmptyString
  end.


(** What the end of the script displays when it offers the CSV of
    [data]. *)
Definition offered (data : list dict) (csv_buffer : string) : list event :=
  [Spinner "Preparing CSV..."; StSuccess "Processing complete!";
   DownloadButton "data_label_invoices.csv" csv_buffer;
   Dataframe columns_order (rows (reindex columns_order (DataFrame data)))].
(** * Proofs *)

#[local] Arguments String.append : simpl nomatch.
Set Warnings "-clear-no-such-hyp".

(** Case analysis on the 256 characters. *)
Ltac by_cases c := destruct c as [[] [] [] [] [] [] [] []]; vm_compute; done.

(** Unfolding of the operations of [M]. *)
Ltac run :=
  cbv [mbind M_bind bind mret M_ret ret emit raise raise_if create_files
       set_image_path current_image_path image_exists try_except
       clear_locals os_remove].

Lemma append_assoc (a b c : string) : (a +:+ b) +:+ c = a +:+ b +:+ c.
Proof. induction a; simpl; congruence. Qed.

Lemma append_nil_r (a : string) : a +:+ EmptyString = a.
Proof. induction a; simpl; congruence. Qed.

Lemma append_length (a b : string) :
  String.length (a +:+ b) = String.length a + String.length b.
Proof. induction a; simpl; congruence. Qed.

Lemma forallb_append p a b :
  Text.forallb p (a +:+ b) = Text.forallb p a && Text.forallb p b.
Proof. induction a; simpl; [done|]. rewrite IHa. by destruct (p a). Qed.

Lemma occurs_append c a b :
  Text.occurs c (a +:+ b) = Text.occurs c a || Text.occurs c b.
Proof.
  unfold Text.occurs. rewrite forallb_append.
  by destruct (Text.forallb _ a), (Text.forallb _ b).
Qed.

Lemma occurs_cons c x s :
  Text.occurs c (String x s) = Ascii.eqb x c || Text.occurs c s.
Proof. unfold Text.occurs. simpl. by destruct (Ascii.eqb x c). Qed.

Module ReFacts.

Lemma times_prefix p k n : prefixing k → prefixing (Re.times p k n).
Proof.
  intros Hk. induction n as [|n IH]; intros s m; simpl; [apply Hk|].
  destruct s as [|c s]; [done|]. destruct (p c); [|done].
  destruct (Re.times p k n s) as [m'|] eqn:E; [|done].
  intros [= <-]. destruct (IH _ _ E) as [rest ->]. by exists rest.
Qed.

Lemma star_prefix p k : prefixing k → prefixing (Re.star p k).
Proof.
  intros Hk s. induction s as [|c s IH]; intros m; simpl; [apply Hk|].
  destruct (p c); [|apply Hk].
  destruct (Re.star p k s) as [m'|] eqn:E; [|apply Hk].
  intros [= <-]. destruct (IH _ eq_refl) as [rest ->]. by exists rest.
Qed.

Lemma match_here_prefix pat : prefixing (Re.match_here pat).
Proof.
  induction pat as [|[p|p n|p] pat IH]; simpl.
  - intros s m [= <-]. by exists s.
  - intros [|c s] m; [done|]. destruct (p c); [|done].
    destruct (Re.match_here pat s) as [m'|] eqn:E; [|done].
    intros [= <-]. destruct (IH _ _ E) as [rest ->]. by exists rest.
  - by apply times_prefix.
  - by apply star_prefix.
Qed.

(** [p{n}] takes exactly [n] characters of the class. *)
Lemma times_some p k n s m :
  Re.times p k n s = Some m ↔
  ∃ t rest m', s = t +:+ rest ∧ String.length t = n ∧
    Text.forallb p t = true ∧ k rest = Some m' ∧ m = t +:+ m'.
Proof.
  revert s m. induction n as [|n IH]; intros s m; simpl.
  - split.
    + intros Hk. by exists EmptyString, s, m.
    + intros ([|??] & rest & m' & -> & Hl & _ & Hk & ->); [done|discriminate].
  - destruct s as [|c s].
    { split; [done|]. intros ([|??] & rest & m' & Hs & Hl & _); discriminate. }
    destruct (p c) eqn:Hp.
    + destruct (Re.times p k n s) as [m1|] eqn:E; simpl.
      * apply IH in E as (t & rest & m' & -> & Hl & Hall & Hk & ->).
        split.
        -- intros [= <-]. exists (String c t), rest, m'. simpl.
           rewrite Hp, Hl. done.
        -- intros ([|c' t'] & rest' & m'' & Hs & Hl' & Hall' & Hk' & ->);
             [done|]. simpl in *. injection Hs as -> Hs. f_equal. f_equal.
           assert (Re.times p k n (t +:+ rest) = Some (t' +:+ m'')) as E'.
           { apply IH. exists t', rest', m''. split_and!; auto.
             - by destruct (p c').
             }
           assert (Re.times p k n (t +:+ rest) = Some (t +:+ m')) as E''.
           { apply IH. by exists t, rest, m'. }
           congruence.
      * split; [done|].
        intros ([|c' t'] & rest' & m'' & Hs & Hl' & Hall' & Hk' & ->);
          [done|]. simpl in *. injection Hs as -> Hs. exfalso.
        assert (Re.times p k n s = Some (t' +:+ m'')) as E'; [|congruence].
        apply IH. exists t', rest', m''. split_and!; auto.
        by destruct (p c').
    + split; [done|].
      intros ([|c' t'] & rest' & m'' & Hs & Hl' & Hall' & Hk' & ->);
        [done|]. simpl in *. injection Hs as -> Hs. by rewrite Hp in Hall'.
Qed.

(** [re.search] finds a match at the leftmost position where there is
    one. *)
Lemma search_some pat s m :
  Re.search pat s = Some m →
  ∃ pre rest, s = pre +:+ rest ∧ Re.match_here pat rest = Some m ∧
    ∀ pre' rest', s = pre' +:+ rest' →
      String.length pre' < String.length pre →
      Re.match_here pat rest' = None.
Proof.
  induction s as [|c s IH]; simpl.
  - destruct (Re.match_here pat EmptyString) eqn:E; [|done].
    intros [= <-]. exists EmptyString, EmptyString. split_and!; [done..|]. simpl. lia.
  - destruct (Re.match_here pat (String c s)) eqn:E.
    + intros [= <-]. exists EmptyString, (String c s). split_and!; [done..|].
      simpl. lia.
    + intros (pre & rest & -> & Hm & Hleft)%IH.
      exists (String c pre), rest. split_and!; [done..|].
      intros [|c' pre'] rest' Hs Hl; simpl in *.
      * by subst.
      * injection Hs as -> Hs. apply (Hleft pre'); [done|lia].
Qed.

Lemma search_none pat s :
  Re.search pat s = None ↔
  ∀ pre rest, s = pre +:+ rest → Re.match_here pat rest = None.
Proof.
  induction s as [|c s IH]; simpl.
  - destruct (Re.match_here pat EmptyString) eqn:E.
    + split; [done|]. intros H. specialize (H EmptyString EmptyString eq_refl). congruence.
    + split; [|done]. intros _ [|??] rest; simpl; [by intros <-|done].
  - destruct (Re.match_here pat (String c s)) eqn:E.
    + split; [done|]. intros H. specialize (H EmptyString _ eq_refl). congruence.
    + rewrite IH. split.
      * intros H [|c' pre] rest; simpl; [by intros <-|].
        intros [= -> ->]. by apply (H pre).
      * intros H pre rest ->. by apply (H (String c pre)).
Qed.

End ReFacts.

Module TextFacts.

Lemma lower_not_upper_or_digit c :
  Text.is_lower c = true → upper_or_digit c = false.
Proof. by_cases c. Qed.

End TextFacts.

Module StrFacts.

Lemma concat_app l1 l2 :
  Str.concat (l1 ++ l2) = Str.concat l1 +:+ Str.concat l2.
Proof.
  induction l1 as [|a l1 IH]; simpl; [done|]. by rewrite IH, append_assoc.
Qed.

Lemma width_pos c : 1 ≤ Str.width c.
Proof. unfold Str.width. repeat case_match; lia. Qed.

(** *** Cutting a text into characters *)

Lemma concat_chars_from chunk need s :
  Str.concat (Str.chars_from chunk need s) = chunk +:+ s.
Proof.
  revert chunk need. induction s as [|c s IH]; intros chunk need; simpl.
  - done.
  - destruct need as [|n]; [|destruct (Str.is_cont c)]; simpl; rewrite IH;
      [done| |done].
    by rewrite append_assoc.
Qed.

Lemma concat_chars s : Str.concat (Str.chars s) = s.
Proof. destruct s as [|c s]; [done|]. apply concat_chars_from. Qed.

Lemma chars_from_fresh chunk need s :
  need = 0 ∨ fresh s = true →
  Str.chars_from chunk need s = chunk :: Str.chars s.
Proof.
  destruct s as [|c s]; simpl; [done|].
  destruct need as [|n]; [done|]. intros [|H]; [done|].
  by destruct (Str.is_cont c).
Qed.

Lemma chars_from_app chunk need a b :
  fresh b = true →
  Str.chars_from chunk need (a +:+ b)
  = Str.chars_from chunk need a ++ Str.chars b.
Proof.
  intros Hb. revert chunk need.
  induction a as [|c a IH]; intros chunk need; simpl.
  - apply chars_from_fresh. by right.
  - destruct need as [|n]; [|destruct (Str.is_cont c)]; by rewrite IH.
Qed.

(** A text that does not begin inside a character is cut on its own. *)
Lemma chars_app_fresh a b :
  fresh b = true → Str.chars (a +:+ b) = Str.chars a ++ Str.chars b.
Proof.
  intros Hb. destruct a as [|c a]; [done|]. simpl. by apply chars_from_app.
Qed.

Lemma chars_from_cont chunk need rest s :
  Text.forallb Str.is_cont rest = true →
  String.length rest ≤ need →
  String.length rest = need ∨ fresh s = true →
  Str.chars_from chunk need (rest +:+ s) = (chunk +:+ rest) :: Str.chars s.
Proof.
  revert chunk need.
  induction rest as [|c rest IH]; intros chunk need Hcont Hlen Hend; simpl in *.
  - rewrite append_nil_r. apply chars_from_fresh.
    destruct Hend; [left; lia|by right].
  - apply andb_true_iff in Hcont as [Hc Hrest].
    destruct need as [|n]; [lia|]. rewrite Hc.
    rewrite IH; [|done|lia|destruct Hend; [left; lia|by right]].
    by rewrite append_assoc.
Qed.

Lemma chars_char ch s :
  is_char ch = true →
  complete ch = true ∨ fresh s = true →
  Str.chars (ch +:+ s) = ch :: Str.chars s.
Proof.
  destruct ch as [|c rest]; [done|]. simpl.
  intros [Hcont Hlen%Nat.leb_le]%andb_true_iff Hend.
  apply (chars_from_cont (String c EmptyString)); [done|done|].
  destruct Hend as [H|H]; [|by right]. left.
  apply andb_true_iff in H as [_ H]. by apply Nat.eqb_eq in H.
Qed.

Lemma chars_one ch : is_char ch = true → Str.chars ch = [ch].
Proof.
  intros H. rewrite <-(append_nil_r ch) at 1.
  rewrite chars_char; [done|done|by right].
Qed.

Lemma complete_is_char ch : complete ch = true → is_char ch = true.
Proof.
  destruct ch as [|c rest]; [done|]. simpl.
  intros [-> ->%Nat.eqb_eq]%andb_true_iff. simpl. by apply Nat.leb_le.
Qed.

Lemma is_char_nonempty ch : is_char ch = true → ch ≠ EmptyString.
Proof. by destruct ch. Qed.

Lemma fresh_append a b : a ≠ EmptyString → fresh (a +:+ b) = fresh a.
Proof. by destruct a. Qed.

Lemma fresh_concat l : chunked l → fresh (Str.concat l) = fresh_head l.
Proof.
  destruct l as [|ch l]; [done|]. intros (Hch & _). simpl.
  apply fresh_append. by apply is_char_nonempty.
Qed.

Lemma chars_concat_app l s :
  chunked l →
  Forall (λ ch, complete ch = true) l ∨ fresh s = true →
  Str.chars (Str.concat l +:+ s) = l ++ Str.chars s.
Proof.
  induction l as [|ch l IH]; intros Hl Hend; [done|].
  destruct Hl as (Hch & Hnext & Hl). simpl. rewrite append_assoc.
  rewrite chars_char, IH; [done|done| |done|].
  - destruct Hend as [H|H]; [left; by inversion H|by right].
  - destruct Hnext as [H|H]; [by left|].
    destruct l as [|d l].
    + simpl. destruct Hend as [Hc|Hs]; [left; by inversion Hc|by right].
    + right. destruct Hl as (Hd & _). simpl in *. rewrite append_assoc.
      rewrite fresh_append; [done|by apply is_char_nonempty].
Qed.

Lemma chars_concat l : chunked l → Str.chars (Str.concat l) = l.
Proof.
  intros Hl. rewrite <-(append_nil_r (Str.concat l)).
  rewrite chars_concat_app; [by rewrite app_nil_r|done|by right].
Qed.

Lemma fresh_head_chars_from c chunk need s :
  fresh_head (Str.chars_from (String c chunk) need s) = negb (Str.is_cont c).
Proof.
  revert chunk need. induction s as [|x s IH]; intros chunk need; simpl; [done|].
  destruct need as [|n]; [done|]. destruct (Str.is_cont x); [|done]. apply IH.
Qed.

Lemma chunked_from c rest need s :
  Text.forallb Str.is_cont rest = true →
  String.length rest + need = Str.width c - 1 →
  chunked (Str.chars_from (String c rest) need s).
Proof.
  revert c rest need.
  induction s as [|c' s IH]; intros c rest need Hcont Hlen; simpl.
  - split_and!; [|by right|done]. rewrite Hcont. simpl. apply Nat.leb_le. lia.
  - assert (need = 0 ∨ Str.is_cont c' = false →
            chunked (String c rest
                     :: Str.chars_from (String c' EmptyString)
                          (Str.width c' - 1) s)) as Hcut.
    { intros Hend. split_and!.
      - simpl. rewrite Hcont. simpl. apply Nat.leb_le. lia.
      - destruct Hend as [->|Hc].
        + left. simpl. rewrite Hcont. simpl. apply Nat.eqb_eq. lia.
        + right. by rewrite fresh_head_chars_from, Hc.
      - apply (IH c' EmptyString); [done|]. simpl. lia. }
    destruct need as [|n]; [apply Hcut; by left|].
    destruct (Str.is_cont c') eqn:Hc; [|apply Hcut; by right].
    simpl. apply IH.
    + rewrite forallb_append, Hcont. simpl. by rewrite Hc.
    + rewrite append_length. simpl. lia.
Qed.

Lemma chunked_chars s : chunked (Str.chars s).
Proof.
  destruct s as [|c s]; [done|]. apply (chunked_from c EmptyString); [done|].
  simpl. lia.
Qed.

End StrFacts.

Module UpperFacts.
Import StrFacts.

Lemma table_good : forallb good_entry Str.upper_table = true.
Proof. vm_compute. reflexivity. Qed.

Lemma lookup_in ch table v :
  Str.lookup ch table = Some v → (ch, v) ∈ table.
Proof.
  induction table as [|[k x] table IH]; simpl; [done|].
  destruct (String.eqb k ch) eqn:E.
  - apply String.eqb_eq in E as ->. intros [= ->]. left.
  - intros H. right. by apply IH.
Qed.

Lemma lookup_good ch v :
  Str.lookup ch Str.upper_table = Some v → good_entry (ch, v) = true.
Proof.
  intros H%lookup_in. pose proof table_good as Hall.
  rewrite forallb_forall in Hall. apply Hall. by apply list_elem_of_In.
Qed.

Lemma isspace_in ch : Str.isspace ch = true → ch ∈ Str.spaces.
Proof.
  unfold Str.isspace. rewrite existsb_exists.
  intros (sp & Hin%list_elem_of_In & ->%String.eqb_eq). done.
Qed.

Lemma space_complete ch : Str.isspace ch = true → complete ch = true.
Proof.
  intros H%isspace_in. unfold Str.spaces in H.
  repeat (apply elem_of_cons in H as [->|H]; [by vm_compute|]).
  by apply elem_of_nil in H.
Qed.

Lemma space_fresh ch : Str.isspace ch = true → fresh ch = true.
Proof.
  intros H%isspace_in. unfold Str.spaces in H.
  repeat (apply elem_of_cons in H as [->|H]; [by vm_compute|]).
  by apply elem_of_nil in H.
Qed.

Lemma space_upper ch : Str.isspace ch = true → Str.upper_char ch = ch.
Proof.
  intros H%isspace_in. unfold Str.spaces in H.
  repeat (apply elem_of_cons in H as [->|H]; [by vm_compute|]).
  by apply elem_of_nil in H.
Qed.

(** The upper case of a character is the character itself or an entry
    of the table. *)
Lemma upper_char_cases ch :
  (Str.lookup ch Str.upper_table = None ∧ Str.upper_char ch = ch)
  ∨ good_entry (ch, Str.upper_char ch) = true.
Proof.
  unfold Str.upper_char.
  destruct (Str.lookup ch Str.upper_table) as [v|] eqn:E; [right|by left].
  by apply lookup_good.
Qed.

Lemma good_entry_spec k v :
  good_entry (k, v) = true →
  complete k = true ∧ fresh k = true ∧ Str.isspace k = false
  ∧ Str.chars v ≠ []
  ∧ Forall (λ ch, complete ch = true) (Str.chars v)
  ∧ fresh v = true
  ∧ Str.isspace (first_char (Str.chars v)) = false
  ∧ Str.isspace (last_char (Str.chars v)) = false
  ∧ upper_chars (Str.chars v) = Str.chars v
  ∧ Text.forallb (λ c, negb (Text.is_lower c)) v = true.
Proof.
  unfold good_entry. cbn [fst snd].
  intros [[[Hk Hf]%andb_true_iff Hsp%negb_true_iff]%andb_true_iff H]%andb_true_iff.
  split; [done|]. split; [done|]. split; [done|].
  destruct (Str.chars v) as [|d l] eqn:E; [done|].
  apply andb_true_iff in H as [H H6].
  apply andb_true_iff in H as [H H5].
  apply andb_true_iff in H as [H H4].
  apply andb_true_iff in H as [H H3].
  apply andb_true_iff in H as [H1 H2].
  split; [done|]. split_and!.
  - apply Forall_forall. intros x Hx%list_elem_of_In.
    by eapply forallb_forall in H1.
  - done.
  - by apply negb_true_iff.
  - by apply negb_true_iff.
  - by apply bool_decide_eq_true in H5.
  - done.
Qed.

(** The characters of the upper case of one character. *)
Lemma upper_one ch :
  is_char ch = true →
  Str.chars (Str.upper_char ch) ≠ []
  ∧ upper_chars (Str.chars (Str.upper_char ch)) = Str.chars (Str.upper_char ch)
  ∧ (complete ch = true →
     Forall (λ d, complete d = true) (Str.chars (Str.upper_char ch)))
  ∧ (complete ch = false → Str.upper_char ch = ch)
  ∧ fresh (Str.upper_char ch) = fresh ch
  ∧ Str.isspace (first_char (Str.chars (Str.upper_char ch))) = Str.isspace ch
  ∧ Str.isspace (last_char (Str.chars (Str.upper_char ch))) = Str.isspace ch.
Proof.
  intros Hch. destruct (upper_char_cases ch) as [[Hnone ->]|Hgood].
  - rewrite (chars_one ch Hch). split; [done|]. split.
    { unfold upper_chars. simpl. unfold Str.upper_char. rewrite Hnone.
      by rewrite (chars_one ch Hch). }
    split; [by constructor|]. done.
  - apply good_entry_spec in Hgood
      as (Hk & Hkf & Hsp & Hne & Hall & Hfresh & Hfirst & Hlast & Hup & _).
    rewrite Hfresh, Hfirst, Hlast, Hsp, Hkf, Hk. done.
Qed.

End UpperFacts.

Module StripFacts.
Import StrFacts UpperFacts.

Lemma lstrip_split l :
  ∃ sp, l = sp ++ Str.lstrip_chars l ∧ forallb Str.isspace sp = true.
Proof.
  induction l as [|ch l (sp & IH & Hsp)]; simpl; [by exists []|].
  destruct (Str.isspace ch) eqn:E; [|by exists []].
  exists (ch :: sp). simpl. rewrite E, Hsp. split; [by f_equal|done].
Qed.

Lemma lstrip_first l : Str.isspace (first_char (Str.lstrip_chars l)) = false.
Proof.
  induction l as [|ch l IH]; simpl; [done|].
  by destruct (Str.isspace ch) eqn:E.
Qed.

Lemma lstrip_id l :
  Str.isspace (first_char l) = false → Str.lstrip_chars l = l.
Proof. destruct l as [|ch l]; simpl; [done|]. by intros ->. Qed.

Lemma lstrip_spaces sp l :
  forallb Str.isspace sp = true →
  Str.lstrip_chars (sp ++ l) = Str.lstrip_chars l.
Proof.
  induction sp as [|ch sp IH]; simpl; [done|].
  intros [-> H]%andb_true_iff. by apply IH.
Qed.

Lemma lstrip_all l :
  forallb Str.isspace l = true → Str.lstrip_chars l = [].
Proof.
  intros H. rewrite <-(app_nil_r l). by rewrite lstrip_spaces.
Qed.

Lemma lstrip_app l x :
  forallb Str.isspace l = false →
  Str.lstrip_chars (l ++ x) = Str.lstrip_chars l ++ x.
Proof.
  induction l as [|ch l IH]; simpl; [done|].
  destruct (Str.isspace ch); simpl; [apply IH|done].
Qed.

Lemma forallb_reverse {A} (p : A → bool) l :
  forallb p (reverse l) = forallb p l.
Proof.
  induction l as [|x l IH]; [done|].
  rewrite reverse_cons, forallb_app, IH. simpl. by destruct (p x), (forallb p l).
Qed.

Lemma rstrip_split l :
  ∃ sp, l = Str.rstrip_chars l ++ sp ∧ forallb Str.isspace sp = true.
Proof.
  destruct (lstrip_split (reverse l)) as (sp & E & Hsp).
  exists (reverse sp). rewrite forallb_reverse. split; [|done].
  unfold Str.rstrip_chars. rewrite <-reverse_app, <-E.
  by rewrite reverse_involutive.
Qed.

Lemma rstrip_last l : Str.isspace (last_char (Str.rstrip_chars l)) = false.
Proof.
  unfold last_char, Str.rstrip_chars. rewrite reverse_involutive.
  apply lstrip_first.
Qed.

Lemma rstrip_id l :
  Str.isspace (last_char l) = false → Str.rstrip_chars l = l.
Proof.
  intros H. unfold Str.rstrip_chars. rewrite lstrip_id by done.
  apply reverse_involutive.
Qed.

Lemma rstrip_spaces l sp :
  forallb Str.isspace sp = true →
  Str.rstrip_chars (l ++ sp) = Str.rstrip_chars l.
Proof.
  intros H. unfold Str.rstrip_chars.
  by rewrite reverse_app, lstrip_spaces by by rewrite forallb_reverse.
Qed.

Lemma rstrip_first l :
  Str.isspace (first_char l) = false →
  Str.isspace (first_char (Str.rstrip_chars l)) = false.
Proof.
  intros H. destruct (rstrip_split l) as (sp & E & _).
  destruct (Str.rstrip_chars l) as [|ch r]; [done|].
  rewrite E in H. done.
Qed.

Lemma strip_trimmed l : trimmed (strip_chars l).
Proof.
  split; [|apply rstrip_last]. apply rstrip_first, lstrip_first.
Qed.

Lemma strip_id l : trimmed l → strip_chars l = l.
Proof.
  intros [Hf Hl]. unfold strip_chars. rewrite lstrip_id by done.
  by apply rstrip_id.
Qed.

Lemma strip_padding lp l lq :
  forallb Str.isspace lp = true → forallb Str.isspace lq = true →
  strip_chars (lp ++ l ++ lq) = strip_chars l.
Proof.
  intros Hp Hq. unfold strip_chars. rewrite lstrip_spaces by done.
  destruct (forallb Str.isspace l) eqn:Hl.
  - rewrite !lstrip_all; [done|done|]. by rewrite forallb_app, Hl, Hq.
  - rewrite lstrip_app by done. by apply rstrip_spaces.
Qed.

(** Stripping commutes with a map of characters that keeps white space
    and turns other characters into texts without white space at the
    ends. *)
Lemma lstrip_flat_map (f : string → list string) l :
  (∀ ch, ch ∈ l →
     f ch ≠ []
     ∧ Str.isspace (first_char (f ch)) = Str.isspace ch
     ∧ (Str.isspace ch = true → f ch = [ch])) →
  Str.lstrip_chars (flat_map f l) = flat_map f (Str.lstrip_chars l).
Proof.
  induction l as [|ch l IH]; intros Hf; simpl; [done|].
  destruct (Hf ch ltac:(left)) as (Hne & Hfirst & Hsp).
  destruct (Str.isspace ch) eqn:E.
  - rewrite (Hsp eq_refl). simpl. rewrite E. apply IH.
    intros x Hx. apply Hf. by right.
  - simpl. destruct (f ch) as [|d r]; simpl in *.
    + done.
    + by rewrite Hfirst.
Qed.

Lemma reverse_flat_map (f : string → list string) l :
  reverse (flat_map f l) = flat_map (λ ch, reverse (f ch)) (reverse l).
Proof.
  induction l as [|ch l IH]; simpl; [done|].
  rewrite reverse_app, reverse_cons, flat_map_app, IH. simpl.
  by rewrite app_nil_r.
Qed.

Lemma strip_flat_map (f : string → list string) l :
  (∀ ch, ch ∈ l →
     f ch ≠ []
     ∧ Str.isspace (first_char (f ch)) = Str.isspace ch
     ∧ Str.isspace (last_char (f ch)) = Str.isspace ch
     ∧ (Str.isspace ch = true → f ch = [ch])) →
  strip_chars (flat_map f l) = flat_map f (strip_chars l).
Proof.
  intros Hf. unfold strip_chars, Str.rstrip_chars.
  destruct (lstrip_split l) as (sp & El & _).
  rewrite lstrip_flat_map; [|intros ch Hch; by destruct (Hf ch Hch) as (?&?&_&?)].
  rewrite reverse_flat_map.
  destruct (lstrip_split (reverse (Str.lstrip_chars l))) as (sq & Er & _).
  rewrite lstrip_flat_map.
  - rewrite reverse_flat_map. apply flat_map_ext. intros ch.
    apply reverse_involutive.
  - intros ch Hch. rewrite elem_of_reverse in Hch.
    assert (ch ∈ l) as Hin.
    { rewrite El. apply elem_of_app. by right. }
    destruct (Hf ch Hin) as (Hne & _ & Hlast & Hsp). split_and!; [|done|].
    + intros E. apply Hne. apply (f_equal reverse) in E.
      by rewrite reverse_involutive in E.
    + intros E. by rewrite (Hsp E).
Qed.

End StripFacts.

Module CaseFacts.
Import StrFacts UpperFacts StripFacts.

Lemma chunked_is_char l : chunked l → Forall (λ ch, is_char ch = true) l.
Proof.
  induction l as [|ch l IH]; [done|]. intros (H & _ & Hl).
  constructor; [done|by apply IH].
Qed.

Lemma chunked_app a b :
  chunked a → chunked b →
  Forall (λ ch, complete ch = true) a ∨ fresh_head b = true →
  chunked (a ++ b).
Proof.
  induction a as [|x a IH]; intros Ha Hb Hend; [done|].
  destruct Ha as (Hx & Hnext & Ha). simpl. split; [done|]. split.
  - destruct a as [|y a]; simpl.
    + destruct Hend as [H|H]; [left; by inversion H|by right].
    + done.
  - apply IH; [done|done|]. destruct Hend as [H|H]; [left; by inversion H|by right].
Qed.

Lemma chunked_suffix a b : chunked (a ++ b) → chunked b.
Proof. induction a as [|x a IH]; [done|]. intros (_ & _ & H). by apply IH. Qed.

Lemma chunked_prefix a b : chunked (a ++ b) → chunked a.
Proof.
  induction a as [|x a IH]; [done|]. intros (Hx & Hnext & H).
  split; [done|]. split; [|by apply IH].
  destruct a as [|y a]; [by right|done].
Qed.

Lemma chunked_strip l : chunked l → chunked (strip_chars l).
Proof.
  intros Hl. unfold strip_chars.
  destruct (lstrip_split l) as (sp & E & _).
  destruct (rstrip_split (Str.lstrip_chars l)) as (sq & E' & _).
  rewrite E in Hl. apply chunked_suffix in Hl. rewrite E' in Hl.
  by apply chunked_prefix in Hl.
Qed.

Lemma fresh_head_chars s : fresh_head (Str.chars s) = fresh s.
Proof.
  rewrite <-(concat_chars s) at 2. symmetry. apply fresh_concat, chunked_chars.
Qed.

Lemma upper_chars_app a b :
  upper_chars (a ++ b) = upper_chars a ++ upper_chars b.
Proof. apply flat_map_app. Qed.

Lemma chunked_upper l : chunked l → chunked (upper_chars l).
Proof.
  induction l as [|ch l IH]; [done|]. intros (Hch & Hnext & Hl).
  change (upper_chars (ch :: l))
    with (Str.chars (Str.upper_char ch) ++ upper_chars l).
  destruct (upper_one ch Hch) as (Hne & _ & Hall & Hsame & Hfresh & _).
  apply chunked_app; [apply chunked_chars|by apply IH|].
  destruct (complete ch) eqn:Hc; [left; by apply Hall|]. right.
  destruct Hnext as [|Hnext]; [done|].
  destruct l as [|d l]; [done|].
  change (upper_chars (d :: l))
    with (Str.chars (Str.upper_char d) ++ upper_chars l).
  destruct Hl as (Hd & _).
  destruct (upper_one d Hd) as (Hne' & _ & _ & _ & Hfresh' & _).
  simpl in Hnext. rewrite <-Hnext, <-Hfresh', <-fresh_head_chars.
  by destruct (Str.chars (Str.upper_char d)).
Qed.

Lemma upper_chars_idem l :
  Forall (λ ch, is_char ch = true) l →
  upper_chars (upper_chars l) = upper_chars l.
Proof.
  induction 1 as [|ch l Hch _ IH]; [done|].
  change (upper_chars (ch :: l))
    with (Str.chars (Str.upper_char ch) ++ upper_chars l).
  rewrite upper_chars_app, IH.
  by destruct (upper_one ch Hch) as (_ & -> & _).
Qed.

Lemma strip_upper_chars l :
  Forall (λ ch, is_char ch = true) l →
  strip_chars (upper_chars l) = upper_chars (strip_chars l).
Proof.
  intros Hl. apply strip_flat_map. intros ch Hch.
  eapply Forall_forall in Hl; [|exact Hch].
  destruct (upper_one ch Hl) as (Hne & _ & _ & _ & _ & Hfirst & Hlast).
  split_and!; [done..|].
  intros Hsp. rewrite space_upper by done. by apply chars_one.
Qed.

Lemma concat_upper_chars l :
  Str.concat (upper_chars l) = Str.concat (map Str.upper_char l).
Proof.
  induction l as [|ch l IH]; [done|].
  change (upper_chars (ch :: l))
    with (Str.chars (Str.upper_char ch) ++ upper_chars l).
  rewrite concat_app, concat_chars, IH. done.
Qed.

(** *** [upper] and [strip] on texts *)

Lemma upper_alt s : Str.upper s = Str.concat (upper_chars (Str.chars s)).
Proof. unfold Str.upper. by rewrite concat_upper_chars. Qed.

Lemma chars_upper s : Str.chars (Str.upper s) = upper_chars (Str.chars s).
Proof.
  rewrite upper_alt. apply chars_concat, chunked_upper, chunked_chars.
Qed.

Lemma chars_strip s : Str.chars (Str.strip s) = strip_chars (Str.chars s).
Proof. apply chars_concat, chunked_strip, chunked_chars. Qed.

Lemma chars_is_char s : Forall (λ ch, is_char ch = true) (Str.chars s).
Proof. apply chunked_is_char, chunked_chars. Qed.

Lemma upper_idem s : Str.upper (Str.upper s) = Str.upper s.
Proof.
  rewrite (upper_alt (Str.upper s)), chars_upper, upper_chars_idem.
  - by rewrite upper_alt.
  - apply chars_is_char.
Qed.

Lemma strip_idem s : Str.strip (Str.strip s) = Str.strip s.
Proof.
  unfold Str.strip at 1. rewrite chars_strip.
  fold (strip_chars (strip_chars (Str.chars s))).
  by rewrite strip_id by apply strip_trimmed.
Qed.

Lemma strip_upper s : Str.strip (Str.upper s) = Str.upper (Str.strip s).
Proof.
  unfold Str.strip at 1. rewrite chars_upper.
  fold (strip_chars (upper_chars (Str.chars s))).
  rewrite strip_upper_chars by apply chars_is_char.
  by rewrite upper_alt, chars_strip.
Qed.

(** [key.strip().upper()] is stable under a second application. *)
Lemma upper_strip_idem s :
  Str.upper (Str.strip (Str.upper (Str.strip s))) = Str.upper (Str.strip s).
Proof. by rewrite strip_upper, strip_idem, upper_idem. Qed.

Lemma blank_chars s :
  blank s = true →
  chunked (Str.chars s) ∧ Forall (λ ch, complete ch = true) (Str.chars s)
  ∧ fresh s = true.
Proof.
  unfold blank. intros H. split; [apply chunked_chars|]. split.
  - apply Forall_forall. intros ch Hch%list_elem_of_In.
    eapply forallb_forall in H; [|exact Hch]. by apply space_complete.
  - rewrite <-fresh_head_chars. destruct (Str.chars s) as [|ch l]; [done|].
    simpl in *. apply andb_true_iff in H as [H _]. by apply space_fresh.
Qed.

(** White space around a text does not count. *)
Lemma strip_blank pre s post :
  blank pre = true → blank post = true →
  Str.strip (pre +:+ s +:+ post) = Str.strip s.
Proof.
  intros Hpre Hpost. unfold Str.strip. f_equal.
  destruct (blank_chars pre Hpre) as (Hc & Hall & _).
  destruct (blank_chars post Hpost) as (_ & _ & Hfresh).
  rewrite <-(concat_chars pre) at 1.
  rewrite chars_concat_app by (done || by left).
  rewrite chars_app_fresh by done.
  by apply strip_padding.
Qed.

Lemma forallb_concat p l :
  Forall (λ ch, Text.forallb p ch = true) l →
  Text.forallb p (Str.concat l) = true.
Proof.
  induction 1 as [|ch l Hch _ IH]; [done|]. simpl.
  by rewrite forallb_append, Hch, IH.
Qed.

Lemma cont_not_lower c : Str.is_cont c = true → Text.is_lower c = false.
Proof. by_cases c. Qed.

Lemma lower_width c : Text.is_lower c = true → Str.width c = 1.
Proof. by_cases c. Qed.

Lemma lower_has_upper c :
  Text.is_lower c = true →
  Str.lookup (String c EmptyString) Str.upper_table ≠ None.
Proof. by_cases c. Qed.

Lemma unmapped_no_lower ch :
  is_char ch = true →
  Str.lookup ch Str.upper_table = None →
  Text.forallb (λ c, negb (Text.is_lower c)) ch = true.
Proof.
  intros Hch Hnone.
  assert (∀ c, ch = String c EmptyString → Text.is_lower c = false) as Hlow.
  { intros c ->. destruct (Text.is_lower c) eqn:Hc; [|done].
    by apply lower_has_upper in Hc. }
  clear Hnone. destruct ch as [|c rest]; [done|].
  cbn [is_char] in Hch. cbn [Text.forallb].
  apply andb_true_iff in Hch as [Hcont Hlen%Nat.leb_le].
  apply andb_true_iff. split.
  - apply negb_true_iff. destruct (Text.is_lower c) eqn:Hc; [|done].
    rewrite (lower_width c Hc) in Hlen.
    destruct rest; [|cbn in Hlen; lia].
    rewrite (Hlow c eq_refl) in Hc. done.
  - clear -Hcont. induction rest as [|x rest IH]; [done|].
    cbn [Text.forallb] in *.
    apply andb_true_iff in Hcont as [Hx Hrest].
    by rewrite (cont_not_lower x Hx), IH.
Qed.

(** The upper case holds no lower-case ASCII letter. *)
Lemma upper_no_lower s :
  Text.forallb (λ c, negb (Text.is_lower c)) (Str.upper s) = true.
Proof.
  unfold Str.upper. apply forallb_concat, Forall_forall.
  intros u (ch & -> & Hch)%list_elem_of_fmap.
  pose proof (chars_is_char s) as Hall.
  eapply Forall_forall in Hall; [|exact Hch].
  destruct (upper_char_cases ch) as [[Hnone ->]|Hgood].
  - by apply unmapped_no_lower.
  - by apply good_entry_spec in Hgood as (_ & _ & _ & _ & _ & _ & _ & _ & _ & ?).
Qed.

(** A stripped text neither begins nor ends with a white space
    character. *)
Lemma strip_no_space s sp rest :
  sp ∈ Str.spaces →
  Str.strip s ≠ sp +:+ rest ∧ Str.strip s ≠ rest +:+ sp.
Proof.
  intros Hsp.
  assert (Str.isspace sp = true) as Hs.
  { unfold Str.isspace. apply existsb_exists. exists sp.
    split; [by apply list_elem_of_In|apply String.eqb_refl]. }
  pose proof (strip_trimmed (Str.chars s)) as [Hfirst Hlast].
  rewrite <-chars_strip in Hfirst, Hlast.
  split; intros E; rewrite E in Hfirst, Hlast.
  - rewrite chars_char in Hfirst.
    + simpl in Hfirst. congruence.
    + by apply complete_is_char, space_complete.
    + left. by apply space_complete.
  - rewrite chars_app_fresh in Hlast by by apply space_fresh.
    rewrite (chars_one sp) in Hlast by by apply complete_is_char, space_complete.
    unfold last_char in Hlast. rewrite reverse_app in Hlast. simpl in Hlast.
    congruence.
Qed.

End CaseFacts.

Module DictFacts.

Lemma get_set_eq d k v : dict_get (dict_set d k v) k = Some v.
Proof.
  induction d as [|[k' v'] d IH]; simpl.
  - by rewrite String.eqb_refl.
  - destruct (String.eqb k' k) eqn:E; simpl; by rewrite E.
Qed.

Lemma get_set_ne d k v k' : k ≠ k' → dict_get (dict_set d k v) k' = dict_get d k'.
Proof.
  intros Hne. induction d as [|[k0 v0] d IH]; simpl.
  - destruct (String.eqb k k') eqn:E; [|done]. by apply String.eqb_eq in E.
  - destruct (String.eqb k0 k) eqn:E; simpl.
    + apply String.eqb_eq in E as ->.
      destruct (String.eqb k k') eqn:E'; [|done]. by apply String.eqb_eq in E'.
    + by rewrite IH.
Qed.

Lemma get_none d k : dict_get d k = None ↔ k ∉ dict_keys d.
Proof.
  unfold dict_keys. induction d as [|[k0 v0] d IH]; simpl.
  - split; [|done]. intros _. apply not_elem_of_nil.
  - rewrite not_elem_of_cons. destruct (String.eqb k0 k) eqn:E.
    + apply String.eqb_eq in E as ->. split; [done|]. by intros [].
    + apply String.eqb_neq in E. rewrite IH. split; [|by intros []].
      intros H. split; [congruence|done].
Qed.

Lemma set_fresh d k v : k ∉ dict_keys d → dict_set d k v = d ++ [(k, v)].
Proof.
  unfold dict_keys. induction d as [|[k0 v0] d IH]; simpl; [done|].
  rewrite not_elem_of_cons. intros [Hne Hnin].
  destruct (String.eqb k0 k) eqn:E.
  - by apply String.eqb_eq in E as ->.
  - by rewrite IH.
Qed.

Lemma keys_set_present d k v : k ∈ dict_keys d → dict_keys (dict_set d k v) = dict_keys d.
Proof.
  unfold dict_keys. induction d as [|[k0 v0] d IH]; simpl.
  - by intros ?%elem_of_nil.
  - destruct (String.eqb k0 k) eqn:E; simpl; [done|].
    apply String.eqb_neq in E. rewrite elem_of_cons. intros [->|Hin]; [done|].
    f_equal. by apply IH.
Qed.

Lemma keys_set d k v :
  dict_keys (dict_set d k v) =
  if decide (k ∈ dict_keys d) then dict_keys d else dict_keys d ++ [k].
Proof.
  case_decide as Hin.
  - by apply keys_set_present.
  - rewrite set_fresh by done. unfold dict_keys. by rewrite fmap_app.
Qed.

Lemma wf_set d k v : dict_wf d → dict_wf (dict_set d k v).
Proof.
  unfold dict_wf. rewrite keys_set. case_decide as Hin; [done|].
  intros Hwf. apply NoDup_app. split_and!; [done| |apply NoDup_singleton].
  intros x Hx ->%list_elem_of_singleton. done.
Qed.

End DictFacts.

Module NormalizeFacts.
Import TextFacts DictFacts CaseFacts.

Lemma normalize_fold d :
  normalize_field_names d = fold_left normalize_step d [].
Proof.
  unfold normalize_field_names. generalize (@nil (string * json)).
  induction d as [|[k v] d IH]; intros acc; simpl; [done|]. apply IH.
Qed.

Lemma mapping_get_cases u :
  mapping_get field_name_mapping u u = u ∨
  (mapping_get field_name_mapping u u ∈ canonical_fields ∧
   u ∈ field_name_mapping.*1).
Proof.
  unfold field_name_mapping at 1 2. cbn [mapping_get].
  repeat match goal with
         | |- context [String.eqb ?a u] =>
             destruct (String.eqb a u) eqn:E;
             [apply String.eqb_eq in E; subst u; right;
              split; apply (bool_decide_unpack _); vm_compute; exact I
             |clear E]
         end.
  by left.
Qed.

Lemma canonical_stable k : k ∈ canonical_fields → stable_key k.
Proof.
  unfold canonical_fields. simpl. rewrite !elem_of_cons, elem_of_nil.
  intros H. repeat (destruct H as [->|H]; [by vm_compute|]). done.
Qed.

Lemma normalize_key_idem k : stable_key (normalize_key k).
Proof.
  unfold stable_key, normalize_key at 2.
  destruct (mapping_get_cases (Str.upper (Str.strip k))) as [E|[Hc _]].
  - rewrite E. unfold normalize_key. by rewrite upper_strip_idem, E.
  - by apply canonical_stable.
Qed.

Lemma fold_stable d : ∀ acc,
  NoDup (dict_keys acc ++ dict_keys d) →
  Forall stable_key (dict_keys d) →
  fold_left normalize_step d acc = acc ++ d.
Proof.
  unfold dict_keys.
  induction d as [|[k v] d IH]; intros acc Hnd Hst; simpl.
  - by rewrite app_nil_r.
  - inversion_clear Hst as [|?? Hk Hd]. unfold normalize_step at 2. simpl. rewrite Hk.
    simpl in Hnd. apply NoDup_app in Hnd as (Hacc & Hdisj & Hkd).
    rewrite set_fresh.
    + rewrite IH; [by rewrite <-app_assoc| |done].
      rewrite fmap_app. simpl. rewrite <-app_assoc. simpl.
      apply NoDup_app. split_and!; [done| |done].
      intros x Hx. by apply Hdisj.
    + intros Hin. apply (Hdisj _ Hin). left.
Qed.

Lemma fold_wf d : ∀ acc, dict_wf acc → dict_wf (fold_left normalize_step d acc).
Proof.
  induction d as [|[k v] d IH]; intros acc Hwf; simpl; [done|].
  apply IH. by apply wf_set.
Qed.

Lemma fold_keys d : ∀ acc k',
  k' ∈ dict_keys (fold_left normalize_step d acc) ↔
  k' ∈ dict_keys acc ∨ ∃ k, k ∈ dict_keys d ∧ normalize_key k = k'.
Proof.
  induction d as [|[k v] d IH]; intros acc k'; simpl.
  - split; [by left|]. intros [H|(k & Hk%elem_of_nil & _)]; done.
  - rewrite IH. unfold normalize_step. simpl. rewrite keys_set.
    unfold dict_keys. simpl. setoid_rewrite elem_of_cons.
    case_decide as Hin.
    + split.
      * intros [H|(k0 & Hk0 & <-)]; [by left|]. right. eauto.
      * intros [H|(k0 & [->|Hk0] & <-)]; [by left|by left|]. right. eauto.
    + rewrite elem_of_app, list_elem_of_singleton. split.
      * intros [[H| ->]|(k0 & Hk0 & <-)]; [by left|right; eauto|right; eauto].
      * intros [H|(k0 & [->|Hk0] & <-)]; [by left; left|left; by right|].
        right. eauto.
Qed.

Lemma fold_keys_stable d : ∀ acc,
  Forall stable_key (dict_keys acc) →
  Forall stable_key (dict_keys (fold_left normalize_step d acc)).
Proof.
  intros acc Hacc. apply Forall_forall. intros k' Hk'.
  apply fold_keys in Hk' as [H|(k & _ & <-)].
  - by eapply Forall_forall in Hacc.
  - apply normalize_key_idem.
Qed.

Lemma get_snoc (l : dict) a v k' :
  dict_get (l ++ [(a, v)]) k' =
  match dict_get l k' with
  | Some x => Some x
  | None => if String.eqb a k' then Some v else None
  end.
Proof.
  induction l as [|[k0 v0] l IH]; simpl; [done|].
  by destruct (String.eqb k0 k').
Qed.

Lemma fold_get d : ∀ acc k',
  dict_get (fold_left normalize_step d acc) k' =
  match dict_get (reverse (renamed d)) k' with
  | Some v => Some v
  | None => dict_get acc k'
  end.
Proof.
  induction d as [|[k v] d IH]; intros acc k'; simpl; [done|].
  rewrite IH, reverse_cons, get_snoc. unfold normalize_step. simpl.
  destruct (dict_get (reverse (renamed d)) k'); [done|].
  destruct (String.eqb (normalize_key k) k') eqn:E.
  - apply String.eqb_eq in E as <-. apply get_set_eq.
  - apply String.eqb_neq in E. by apply get_set_ne.
Qed.

Lemma upper_one_ascii c :
  (Text.code c <? 128)%N = true →
  Str.upper_char (String c EmptyString) = String (ascii_upper c) EmptyString.
Proof. by_cases c. Qed.

Lemma ascii_width c : (Text.code c <? 128)%N = true → Str.width c = 1.
Proof. by_cases c. Qed.

(** On ASCII text the upper case is taken byte by byte. *)
Lemma upper_ascii s : is_ascii s = true → Str.upper s = ascii_upper_text s.
Proof.
  unfold Str.upper. induction s as [|c s IH]; [done|]. cbn [is_ascii Text.forallb].
  intros [Hc Hs]%andb_true_iff. cbn [Str.chars].
  rewrite (ascii_width c Hc). cbn [Nat.sub].
  rewrite StrFacts.chars_from_fresh by by left.
  cbn [map Str.concat foldr]. rewrite upper_one_ascii by done.
  cbn [ascii_upper_text String.append]. f_equal. by apply IH.
Qed.

Lemma white_chars l :
  Forall (λ sp, sp ∈ Str.spaces) l →
  chunked l ∧ Forall (λ ch, complete ch = true) l
  ∧ forallb Str.isspace l = true.
Proof.
  assert (∀ sp, sp ∈ Str.spaces → Str.isspace sp = true) as Hin.
  { intros sp Hsp. unfold Str.isspace. apply existsb_exists. exists sp.
    split; [by apply list_elem_of_In|apply String.eqb_refl]. }
  induction 1 as [|sp l Hsp _ (IH1 & IH2 & IH3)]; [done|].
  pose proof (UpperFacts.space_complete sp (Hin sp Hsp)) as Hc.
  split_and!.
  - split_and!; [by apply StrFacts.complete_is_char|by left|done].
  - by constructor.
  - simpl. by rewrite (Hin sp Hsp).
Qed.

(** What [strip] removes is white space, and it leaves none at the
    ends. *)
Lemma strip_spec key :
  ∃ pre post, white pre ∧ white post
    ∧ key = pre +:+ Str.strip key +:+ post
    ∧ no_space_around (Str.strip key).
Proof.
  pose proof (StrFacts.chunked_chars key) as Hk.
  destruct (StripFacts.lstrip_split (Str.chars key)) as (lp & E1 & Hp).
  destruct (StripFacts.rstrip_split (Str.lstrip_chars (Str.chars key)))
    as (lq & E2 & Hq).
  assert (∀ l, forallb Str.isspace l = true →
               Forall (λ sp, sp ∈ Str.spaces) l) as Hall.
  { intros l H. apply Forall_forall. intros sp Hsp%list_elem_of_In.
    eapply forallb_forall in H; [|exact Hsp]. by apply UpperFacts.isspace_in. }
  exists (Str.concat lp), (Str.concat lq). split_and!.
  - exists lp. split; [by apply Hall|done].
  - exists lq. split; [by apply Hall|done].
  - rewrite <-(StrFacts.concat_chars key) at 1. rewrite E1, E2.
    by rewrite !StrFacts.concat_app.
  - intros sp rest. apply strip_no_space.
Qed.

Lemma strip_white pre key post :
  white pre → white post →
  Str.strip (pre +:+ key +:+ post) = Str.strip key.
Proof.
  intros (lp & Hlp & ->) (lq & Hlq & ->).
  destruct (white_chars lp Hlp) as (Hc1 & Ha1 & Hs1).
  destruct (white_chars lq Hlq) as (Hc2 & Ha2 & Hs2).
  apply strip_blank; unfold blank; by rewrite StrFacts.chars_concat.
Qed.

Lemma no_lower_canonical k : k ∈ canonical_fields → no_lower k = true.
Proof.
  unfold canonical_fields. simpl. rewrite !elem_of_cons, elem_of_nil.
  intros H. repeat (destruct H as [->|H]; [by vm_compute|]). done.
Qed.

Lemma strip_canonical k : k ∈ canonical_fields → Str.strip k = k.
Proof.
  unfold canonical_fields. simpl. rewrite !elem_of_cons, elem_of_nil.
  intros H. repeat (destruct H as [->|H]; [by vm_compute|]). done.
Qed.

(** The normal form of a key holds no lower-case ASCII letter and no
    white space at its ends. *)
Lemma normalize_key_shape k :
  no_lower (normalize_key k) = true ∧ no_space_around (normalize_key k).
Proof.
  unfold normalize_key.
  destruct (mapping_get_cases (Str.upper (Str.strip k))) as [->|[Hc _]].
  - split; [apply upper_no_lower|].
    rewrite <-strip_upper. intros sp rest. apply strip_no_space.
  - split; [by apply no_lower_canonical|].
    rewrite <-(strip_canonical _ Hc). intros sp rest. apply strip_no_space.
Qed.

End NormalizeFacts.

(** C9: a dictionary whose keys are canonical is returned unchanged, and
    normalising twice is normalising once; the keys of the result are
    the normal forms of the keys of the input, a key that occurs again
    taking the later value; the normal form of a key is the alias-table
    entry of its stripped upper-case form if there is one, and that form
    itself otherwise.  Stripping removes white space characters from
    both ends and leaves none there; the upper case holds no lower-case
    letter of ASCII and on ASCII text it is taken letter by letter; four
    labels are evaluated.  [normalize_field_names] is a total function:
    no key makes it fail. *)
Theorem C9_normalize_field_names (d : dict) (Hwf : dict_wf d) :
  (Forall (λ k, k ∈ canonical_fields) (dict_keys d) →
   normalize_field_names d = d)
  ∧ normalize_field_names (normalize_field_names d) = normalize_field_names d
  ∧ (∀ k', k' ∈ dict_keys (normalize_field_names d) ↔
           ∃ k, k ∈ dict_keys d ∧ normalize_key k = k')
  ∧ (∀ k', dict_get (normalize_field_names d) k' =
           dict_get (reverse (renamed d)) k')
  ∧ (∀ key alias,
       (Str.upper (Str.strip key), alias) ∈ field_name_mapping →
       normalize_key key = alias)
  ∧ (∀ key,
       Str.upper (Str.strip key) ∉ field_name_mapping.*1 →
       normalize_key key = Str.upper (Str.strip key))
  ∧ (∀ key, ∃ pre post,
       white pre ∧ white post ∧ key = pre +:+ Str.strip key +:+ post
       ∧ no_space_around (Str.strip key))
  ∧ (∀ key, no_lower (Str.upper key) = true
            ∧ (is_ascii key = true → Str.upper key = ascii_upper_text key))
  ∧ normalize_key " Invoice Date" = "INVOICE_DATE"
  ∧ normalize_key (nbsp +:+ "total: ") = "TOTAL"
  ∧ normalize_key "Straße" = "STRASSE"
  ∧ normalize_key "é" = normalize_key "É".
Proof.
  rewrite !NormalizeFacts.normalize_fold. split_and!.
  - intros Hc. rewrite NormalizeFacts.fold_stable; [done|done|].
    eapply Forall_impl; [exact Hc|]. apply NormalizeFacts.canonical_stable.
  - rewrite NormalizeFacts.fold_stable; [done| |].
    + simpl. by apply NormalizeFacts.fold_wf, NoDup_nil.
    + by apply NormalizeFacts.fold_keys_stable.
  - intros k'. rewrite NormalizeFacts.fold_keys. simpl.
    split; [intros [H%elem_of_nil|H]; done|by right].
  - intros k'. rewrite NormalizeFacts.fold_get. simpl.
    by destruct (dict_get _ k').
  - intros key alias. unfold normalize_key.
    generalize (Str.upper (Str.strip key)). intros u.
    unfold field_name_mapping. rewrite !elem_of_cons, elem_of_nil.
    intros H. repeat (destruct H as [[= -> ->]|H]; [by vm_compute|]). done.
  - intros key. unfold normalize_key.
    destruct (NormalizeFacts.mapping_get_cases (Str.upper (Str.strip key)))
      as [E|[_ Hin]]; done.
  - apply NormalizeFacts.strip_spec.
  - intros key. split; [apply CaseFacts.upper_no_lower|].
    apply NormalizeFacts.upper_ascii.
  - by vm_compute.
  - by vm_compute.
  - by vm_compute.
  - by vm_compute.
Qed.

(** The hypothesis of C9 holds of the labels of a reply; they are
    normalised, the later of two entries for one field is kept. *)
Lemma C9_normalize_field_names_witness :
  dict_wf sample_labels
  ∧ normalize_field_names (normalize_field_names sample_labels)
    = normalize_field_names sample_labels
  ∧ normalize_field_names sample_labels
    = [("INVOICE_DATE", JStr "01/02/2024"); ("TOTAL", JStr "12.60");
       ("STRASSE", JStr "Hauptstr. 1")].
Proof.
  assert (dict_wf sample_labels) as Hwf.
  { apply (bool_decide_unpack _). vm_compute. exact I. }
  split; [exact Hwf|]. split.
  - exact (proj1 (proj2 (C9_normalize_field_names sample_labels Hwf))).
  - by vm_compute.
Defined.
Module TrackingFacts.
Import ReFacts.

Lemma match_tracking s m :
  Re.match_here tracking_pattern s = Some m ↔
  tracking_shape m ∧ ∃ rest, s = m +:+ rest.
Proof.
  unfold tracking_pattern, Re.lit, tracking_shape. cbn [Re.match_here].
  split.
  - destruct s as [|c1 s]; [done|].
    destruct (Ascii.eqb "1" c1) eqn:E1; [|done].
    apply Ascii.eqb_eq in E1 as <-.
    destruct s as [|c2 s]; [done|].
    destruct (Ascii.eqb "Z" c2) eqn:E2; [|done].
    apply Ascii.eqb_eq in E2 as <-.
    destruct (Re.times _ _ _ s) as [m1|] eqn:E; [|done].
    intros [= <-].
    apply times_some in E as (t & rest & m' & -> & Hl & Hall & [= <-] & ->).
    rewrite append_nil_r. split; [by exists t|by exists rest].
  - intros [(t & -> & Hl & Hall) [rest ->]]. cbn -[Re.times].
    assert (Re.times upper_or_digit (λ _, Some EmptyString) 16 (t +:+ rest)
            = Some t) as ->; [|done].
    apply times_some. exists t, rest, EmptyString. by rewrite append_nil_r.
Qed.

Lemma shape_length m : tracking_shape m → String.length m = 18.
Proof. intros (t & -> & Hl & _). simpl. by rewrite Hl. Qed.

Lemma sentinel_not_shape : ¬ tracking_shape no_tracking.
Proof. by intros ?%shape_length. Qed.

(** The result of [extract_tracking_number]: the leftmost span of the
    right shape, or the sentinel when there is none. *)
Lemma extract_spec text :
  (∃ pre m post,
      text = pre +:+ m +:+ post ∧ tracking_shape m ∧
      extract_tracking_number text = m ∧
      ∀ pre' m' post',
        text = pre' +:+ m' +:+ post' → tracking_shape m' →
        String.length pre ≤ String.length pre')
  ∨ (extract_tracking_number text = no_tracking ∧
     ∀ pre' m' post', text = pre' +:+ m' +:+ post' → ¬ tracking_shape m').
Proof.
  unfold extract_tracking_number.
  destruct (Re.search tracking_pattern text) as [m|] eqn:E.
  - left. apply search_some in E as (pre & rest & -> & Hm & Hleft).
    apply match_tracking in Hm as [Hshape [post ->]].
    exists pre, m, post. split_and!; [done..|].
    intros pre' m' post' Heq Hshape'.
    destruct (decide (String.length pre ≤ String.length pre')); [done|].
    specialize (Hleft pre' (m' +:+ post') Heq ltac:(lia)).
    assert (Re.match_here tracking_pattern (m' +:+ post') = Some m') as E'.
    { apply match_tracking. split; [done|by exists post']. }
    congruence.
  - right. split; [done|]. intros pre' m' post' Heq Hshape'.
    assert (Re.match_here tracking_pattern (m' +:+ post') = Some m') as E'.
    { apply match_tracking. split; [done|by exists post']. }
    rewrite search_none in E. specialize (E _ _ Heq). congruence.
Qed.

Lemma extract_cases text :
  extract_tracking_number text = no_tracking ∨
  tracking_shape (extract_tracking_number text).
Proof.
  destruct (extract_spec text) as [(pre & m & post & _ & Hs & -> & _)|[-> _]];
    [by right|by left].
Qed.

End TrackingFacts.

(** C1, as stated, fails: the code of the example has 19 characters and
    the pattern matches 18, so the extractor does not return it, neither
    on the text of the example nor with any other text around the code. *)
Lemma C1_spec_example_fails :
  extract_tracking_number "...1Z12345D68905487401..." ≠ "1Z12345D68905487401"
  ∧ ∀ pre post,
      extract_tracking_number (pre +:+ "1Z12345D68905487401" +:+ post)
      ≠ "1Z12345D68905487401".
Proof.
  split; [by vm_compute|]. intros pre post Heq.
  destruct (TrackingFacts.extract_cases
              (pre +:+ "1Z12345D68905487401" +:+ post)) as [H|H].
  - rewrite Heq in H. discriminate.
  - rewrite Heq in H. apply TrackingFacts.shape_length in H. discriminate.
Qed.

(** C1 (amended): on the text of the example the extractor returns the
    first 18 characters of the code, on a text without a code it returns
    the sentinel, and in general it returns the leftmost span made of
    ["1Z"] and 16 upper-case letters or digits, or the sentinel when the
    text has no such span. *)
Theorem C1_extract_tracking_number :
  extract_tracking_number "...1Z12345D68905487401..." = "1Z12345D6890548740"
  ∧ extract_tracking_number "no such code here" = "No Tracking Number Found"
  ∧ ∀ text,
      (∃ pre m post,
          text = pre +:+ m +:+ post ∧ tracking_shape m ∧
          extract_tracking_number text = m ∧
          ∀ pre' m' post',
            text = pre' +:+ m' +:+ post' → tracking_shape m' →
            String.length pre ≤ String.length pre')
      ∨ (extract_tracking_number text = "No Tracking Number Found" ∧
         ∀ pre' m' post', text = pre' +:+ m' +:+ post' → ¬ tracking_shape m').
Proof.
  split_and!; [by vm_compute..|]. apply TrackingFacts.extract_spec.
Qed.

Lemma build_record_tracking extracted_data response_text pdf_file :
  dict_get (build_record extracted_data response_text pdf_file) "TRACKING_NUMBER"
  = Some (JStr (extract_tracking_number response_text)).
Proof.
  unfold build_record. rewrite DictFacts.get_set_ne by done.
  apply DictFacts.get_set_eq.
Qed.

(** C2: whatever the normalised mapping holds, the [TRACKING_NUMBER] of
    the record is the result of [extract_tracking_number] on the raw
    reply: the match of the pattern, or the sentinel when there is none. *)
Theorem C2_tracking_number_overwritten
    (extracted_data : dict) (response_text pdf_file : string) :
  dict_get (build_record extracted_data response_text pdf_file) "TRACKING_NUMBER"
  = Some (JStr (extract_tracking_number response_text))
  ∧ dict_get (build_record extracted_data response_text pdf_file) "TRACKING_NUMBER"
    = Some (JStr (default "No Tracking Number Found"
                    (Re.search tracking_pattern response_text))).
Proof.
  rewrite build_record_tracking. split; [done|].
  unfold extract_tracking_number. by destruct (Re.search _ _).
Qed.
Module JsonSpanFacts.
Import ReFacts.

Lemma closing_eq s :
  closing s =
  match s with
  | String c _ => if Ascii.eqb c "}" then Some "}" else None
  | EmptyString => None
  end.
Proof.
  destruct s as [|c s]; [done|]. unfold closing, Re.lit.
  cbn [Re.match_here]. rewrite (Ascii.eqb_sym "}" c). destruct (Ascii.eqb c "}") eqn:E; [|done].
  by apply Ascii.eqb_eq in E as ->.
Qed.

Lemma star_none s :
  Text.occurs "}" s = false → Re.star Re.any closing s = None.
Proof.
  induction s as [|c s IH]; [done|]. rewrite occurs_cons.
  intros [Hc Hs]%orb_false_elim. cbn [Re.star Re.any].
  rewrite IH by done. rewrite closing_eq. by rewrite Hc.
Qed.

(** The greedy star gives back characters up to the last ["}"]. *)
Lemma star_last mid post :
  Text.occurs "}" post = false →
  Re.star Re.any closing (mid +:+ "}" +:+ post) = Some (mid +:+ "}").
Proof.
  intros Hpost. induction mid as [|c mid IH].
  - cbn -[closing]. rewrite star_none by done. by rewrite closing_eq.
  - cbn -[closing]. cbn -[closing] in IH. by rewrite IH.
Qed.

Lemma split_last c s :
  Text.occurs c s = true →
  ∃ mid post, s = mid +:+ String c post ∧ Text.occurs c post = false.
Proof.
  induction s as [|x s IH]; [done|]. rewrite occurs_cons.
  destruct (Text.occurs c s) eqn:Hs.
  - intros _. destruct (IH eq_refl) as (mid & post & -> & Hpost).
    by exists (String x mid), post.
  - rewrite orb_false_r. intros ->%Ascii.eqb_eq. by exists EmptyString, s.
Qed.

Lemma match_json_brace s :
  Re.match_here json_pattern (String "{" s) = String "{" <$> Re.star Re.any closing s.
Proof. done. Qed.

Lemma match_json_other c s :
  c ≠ "{"%char → Re.match_here json_pattern (String c s) = None.
Proof.
  intros Hc. unfold json_pattern, Re.lit. cbn [Re.match_here].
  destruct (Ascii.eqb "{" c) eqn:E; [|done]. by apply Ascii.eqb_eq in E.
Qed.

(** [re.search] on the pattern of the script: from the first ["{"] to
    the last ["}"]. *)
Lemma search_json pre mid post :
  Text.occurs "{" pre = false → Text.occurs "}" post = false →
  Re.search json_pattern (pre +:+ "{" +:+ mid +:+ "}" +:+ post)
  = Some ("{" +:+ mid +:+ "}").
Proof.
  intros Hpre Hpost. induction pre as [|c pre IH].
  - change (EmptyString +:+ "{" +:+ mid +:+ "}" +:+ post)
      with (String "{" (mid +:+ "}" +:+ post)).
    cbn [Re.search]. rewrite match_json_brace, star_last by done. done.
  - rewrite occurs_cons in Hpre. apply orb_false_elim in Hpre as [Hc Hpre].
    change (String c pre +:+ "{" +:+ mid +:+ "}" +:+ post)
      with (String c (pre +:+ "{" +:+ mid +:+ "}" +:+ post)).
    cbn [Re.search]. rewrite match_json_other; [by apply IH|].
    intros ->. done.
Qed.

Lemma search_json_no_close s :
  Text.occurs "}" s = false → Re.search json_pattern s = None.
Proof.
  induction s as [|c s IH]; [done|]. rewrite occurs_cons.
  intros [Hc Hs]%orb_false_elim. cbn [Re.search].
  rewrite IH by done. destruct (decide (c = "{"%char)) as [->|Hne].
  - by rewrite match_json_brace, star_none.
  - by rewrite match_json_other.
Qed.

Lemma search_json_none raw :
  Re.search json_pattern raw = None ↔ ¬ brace_span raw.
Proof.
  split.
  - intros Hnone (a & b & c & ->).
    (* cut [a] at its first brace, and [b "}" c] at its last *)
    assert (∃ pre mid post,
               a +:+ "{" +:+ b +:+ "}" +:+ c
               = pre +:+ "{" +:+ mid +:+ "}" +:+ post ∧
               Text.occurs "{" pre = false ∧ Text.occurs "}" post = false)
      as (pre & mid & post & Heq & Hpre & Hpost).
    { destruct (split_last "}" (b +:+ "}" +:+ c)) as (mid0 & post & Hbc & Hpost).
      { rewrite occurs_append. simpl. by rewrite orb_true_r. }
      rewrite Hbc. clear Hbc Hnone.
      induction a as [|x a IH].
      - exists EmptyString, mid0, post. done.
      - destruct (decide (x = "{"%char)) as [->|Hne].
        + destruct (split_last "}" (a +:+ "{" +:+ mid0 +:+ String "}" post))
            as (mid1 & post1 & Heq1 & Hpost1).
          { rewrite !occurs_append, occurs_cons. simpl.
            by rewrite !orb_true_r. }
          exists EmptyString, mid1, post1. split_and!; [|done..].
          simpl. f_equal. exact Heq1.
        + destruct IH as (pre & mid & post' & Heq & Hpre & Hpost').
          exists (String x pre), mid, post'.
          split_and!; [simpl; f_equal; exact Heq| |done].
          rewrite occurs_cons, Hpre.
          destruct (Ascii.eqb x "{") eqn:E; [|done].
          by apply Ascii.eqb_eq in E. }
    rewrite Heq, search_json in Hnone by done. done.
  - intros Hno. destruct (Re.search json_pattern raw) as [m|] eqn:E; [|done].
    exfalso. apply Hno.
    apply search_some in E as (pre & rest & -> & Hm & _).
    destruct rest as [|c rest]; [done|].
    destruct (decide (c = "{"%char)) as [->|Hne];
      [|by rewrite match_json_other in Hm].
    rewrite match_json_brace in Hm.
    destruct (Text.occurs "}" rest) eqn:Hocc;
      [|by rewrite star_none in Hm].
    apply split_last in Hocc as (mid & post & -> & _).
    by exists pre, mid, post.
Qed.

End JsonSpanFacts.

Lemma substring_prefix t post :
  String.substring 0 (String.length t) (t +:+ post) = t.
Proof. induction t as [|c t IH]; simpl; [by destruct post|]. by rewrite IH. Qed.

Lemma substring_skip pre n rest :
  String.substring (String.length pre) n (pre +:+ rest)
  = String.substring 0 n rest.
Proof. induction pre as [|c pre IH]; simpl; [done|]. apply IH. Qed.

(** Every span of a text that is an object is listed by [objects_in]. *)
Lemma objects_in_complete s pre t post :
  s = pre +:+ t +:+ post → is_object_text t = true → t ∈ objects_in s.
Proof.
  intros -> Ht. unfold objects_in, substrings.
  apply list_elem_of_In, filter_In. split; [|done].
  apply in_flat_map. exists (String.length pre).
  assert (0 < String.length t) by (destruct t; [done|simpl; lia]).
  rewrite !append_length. split.
  - apply in_seq. lia.
  - apply in_map_iff. exists (String.length t). split.
    + by rewrite substring_skip, substring_prefix.
    + apply in_seq. lia.
Qed.

(** C3, as stated, fails: this reply contains exactly one well-formed
    JSON object, which decodes on its own, but the closing brace in the
    text after it widens the span that the search takes, and the parser
    fails. *)
Lemma C3_prose_with_braces :
  q "{'TOTAL': '5'} Invoice text: due {USD} 5"
  = q "{'TOTAL': '5'}" +:+ " Invoice text: due {USD} 5"
  ∧ decode_directly (q "{'TOTAL': '5'}") = inr (JObj [("TOTAL", JStr "5")])
  ∧ objects_in (q "{'TOTAL': '5'} Invoice text: due {USD} 5") = [q "{'TOTAL': '5'}"]
  ∧ (∀ pre t post,
        q "{'TOTAL': '5'} Invoice text: due {USD} 5" = pre +:+ t +:+ post →
        is_object_text t = true → t = q "{'TOTAL': '5'}")
  ∧ parse_response (q "{'TOTAL': '5'} Invoice text: due {USD} 5")
    = inl JsonDecodeError.
Proof.
  assert (objects_in (q "{'TOTAL': '5'} Invoice text: due {USD} 5")
          = [q "{'TOTAL': '5'}"]) as Hlist by (vm_compute; reflexivity).
  split; [vm_compute; reflexivity|]. split; [vm_compute; reflexivity|].
  split; [exact Hlist|]. split; [|vm_compute; reflexivity].
  intros pre t post Heq Ht.
  pose proof (objects_in_complete _ pre t post Heq Ht) as Hin.
  rewrite Hlist in Hin. by apply list_elem_of_singleton in Hin.
Qed.

(** C3 (amended): when no opening brace precedes the object and no
    closing brace follows it, the parser gives what decoding the object
    directly gives; the parser fails exactly when the search finds no
    span or the span does not decode; and the search finds no span
    exactly when the text has no opening brace with a closing brace
    after it. *)
Theorem C3_parse_response :
  (∀ pre mid post,
      Text.occurs "{" pre = false → Text.occurs "}" post = false →
      parse_response (pre +:+ ("{" +:+ mid +:+ "}") +:+ post)
      = decode_directly ("{" +:+ mid +:+ "}"))
  ∧ (∀ raw,
        (∃ e, parse_response raw = inl e) ↔
        (Re.search json_pattern raw = None
         ∨ ∃ json_str, Re.search json_pattern raw = Some json_str ∧
                       Json.loads json_str = None))
  ∧ (∀ raw, Re.search json_pattern raw = None ↔ ¬ brace_span raw).
Proof.
  split_and!.
  - intros pre mid post Hpre Hpost. unfold parse_response, decode_directly.
    replace (pre +:+ ("{" +:+ mid +:+ "}") +:+ post)
      with (pre +:+ "{" +:+ mid +:+ "}" +:+ post).
    + by rewrite JsonSpanFacts.search_json.
    + simpl. f_equal. f_equal. by rewrite append_assoc.
  - intros raw. unfold parse_response.
    destruct (Re.search json_pattern raw) as [json_str|].
    + destruct (Json.loads json_str) eqn:E; split.
      * by intros [e ?].
      * intros [?|(s & [= <-] & ?)]; [done|congruence].
      * intros _. right. by exists json_str.
      * intros _. by exists JsonDecodeError.
    + split; [by left|]. intros _. by exists NoJsonFound.
  - apply JsonSpanFacts.search_json_none.
Qed.

(** A reply with prose and fence markup around the object. *)
Lemma C3_parse_response_witness :
  parse_response (q "Sure! ```json {'TOTAL': '5', 'x': {'y': []}} ``` done")
  = inr (JObj [("TOTAL", JStr "5"); ("x", JObj [("y", JArr [])])]).
Proof.
  exact (proj1 C3_parse_response "Sure! ```json "
           (q "'TOTAL': '5', 'x': {'y': []}") " ``` done" eq_refl eq_refl).
Defined.

Module JsonObjectFacts.
Import Json.

Lemma rooted_push f stack : rooted stack = true → rooted (f :: stack) = true.
Proof. by destruct stack. Qed.

Lemma rooted_pop f stack :
  rooted (f :: stack) = true → stack ≠ [] → rooted stack = true.
Proof. by destruct stack. Qed.

Lemma rooted_top f g stack :
  rooted (f :: stack) = true →
  (match f, g with
   | FObj _ _, FObj _ _ | FArr _, FArr _ => true
   | _, _ => false
   end = true) →
  rooted (g :: stack) = true.
Proof. destruct stack; [|done]. by destruct f, g. Qed.

Lemma complete_rooted stack v st' :
  rooted stack = true → complete stack v = Some st' → object_rooted st'.
Proof.
  intros Hr. destruct stack as [|[items|members [k|]] stack]; [done| | |done];
    simpl; intros [= <-]; left; cbn [fst]; by eapply rooted_top.
Qed.

Lemma close_rooted stack v st' :
  (rooted stack = true ∨ (stack = [] ∧ ∃ members, v = JObj members)) →
  complete stack v = Some st' → object_rooted st'.
Proof.
  intros [Hr|[-> [members ->]]]; [by apply complete_rooted|].
  intros [= <-]. right. simpl. eauto.
Qed.

Lemma open_value_rooted stack t st' :
  rooted stack = true → open_value stack t = Some st' → object_rooted st'.
Proof.
  intros Hr. destruct t; simpl; try done.
  - intros [= <-]. left. by apply rooted_push.
  - intros [= <-]. left. by apply rooted_push.
  - by apply complete_rooted.
Qed.

Lemma close_array_rooted stack st' :
  rooted stack = true → close_array stack = Some st' → object_rooted st'.
Proof.
  intros Hr. destruct stack as [|[items|] stack]; [done| |done]. simpl.
  apply complete_rooted. apply (rooted_pop _ _ Hr). by intros ->.
Qed.

Lemma close_object_rooted stack st' :
  rooted stack = true → close_object stack = Some st' → object_rooted st'.
Proof.
  intros Hr. destruct stack as [|[|members [k|]] stack]; try done. simpl.
  apply close_rooted. destruct stack as [|f stack].
  - right. eauto.
  - left. by apply (rooted_pop _ _ Hr).
Qed.

Lemma member_name_rooted stack t st' :
  rooted stack = true → member_name stack t = Some st' → object_rooted st'.
Proof.
  intros Hr. destruct t as [| | | | | |[]]; try done.
  destruct stack as [|[|members [k|]] stack]; try done. simpl.
  intros [= <-]. left. cbn [fst]. by eapply rooted_top.
Qed.

Lemma parse_token_rooted st t st' :
  object_rooted st → parse_token st t = Some st' → object_rooted st'.
Proof.
  destruct st as [stack e]. intros [Hr|[Hs [members He]]]; simpl in *.
  - destruct e; simpl.
    + by apply open_value_rooted.
    + destruct t; try (by apply open_value_rooted).
      by apply close_array_rooted.
    + destruct t; try (by apply member_name_rooted).
      by apply close_object_rooted.
    + by apply member_name_rooted.
    + destruct t; try done. intros [= <-]. by left.
    + destruct t; try done.
      * by apply close_object_rooted.
      * by apply close_array_rooted.
      * destruct stack as [|[] stack]; try done; intros [= <-]; by left.
    + done.
  - by subst.
Qed.

Lemma parse_from_rooted ts : ∀ st v,
  object_rooted st → parse_from st ts = Some v → ∃ members, v = JObj members.
Proof.
  induction ts as [|t ts IH]; intros [stack e] v Hr; cbn [parse_from].
  - destruct stack; [|done]. destruct e; try done. intros [= <-].
    unfold object_rooted in Hr. cbn in Hr.
    destruct Hr as [Hr|[_ [members Heq]]]; [discriminate|].
    injection Heq as ->. eauto.
  - destruct (parse_token (stack, e) t) as [st'|] eqn:E; simpl; [|done].
    apply IH. by eapply parse_token_rooted.
Qed.

(** A JSON text that starts with a brace decodes to an object. *)
Lemma loads_brace_object s v :
  loads (String "{" s) = Some v → ∃ members, v = JObj members.
Proof.
  unfold loads, lex. cbn [lex_from].
  change (lex_char LDefault "{") with (Some (LDefault, [TLBrace])).
  simpl. destruct (lex_from LDefault s) as [ts|]; [|done]. simpl.
  apply parse_from_rooted. by left.
Qed.

End JsonObjectFacts.

(** What [parse_response] decodes is an object: the branch of
    [attempt_body] for other values is never taken. *)
Lemma parse_response_object response_text v :
  parse_response response_text = inr v → ∃ members, v = JObj members.
Proof.
  unfold parse_response.
  destruct (Re.search json_pattern response_text) as [json_str|] eqn:E; [|done].
  destruct (Json.loads json_str) as [v'|] eqn:Hl; [|done]. intros [= <-].
  apply ReFacts.search_some in E as (pre & rest & _ & Hm & _).
  destruct rest as [|c rest]; [done|].
  destruct (decide (c = "{"%char)) as [->|Hne];
    [|by rewrite JsonSpanFacts.match_json_other in Hm].
  rewrite JsonSpanFacts.match_json_brace in Hm.
  destruct (Re.star _ _ rest); [|done]. injection Hm as <-.
  by eapply JsonObjectFacts.loads_brace_object.
Qed.

Section PipelineFacts.

Variable temp_dir : string.

Lemma attempts_in_app t1 t2 :
  attempts_in (t1 ++ t2) = attempts_in t1 + attempts_in t2.
Proof. unfold attempts_in. by rewrite List.filter_app, length_app. Qed.

Lemma removals_app t1 t2 : removals (t1 ++ t2) = removals t1 ++ removals t2.
Proof. apply omap_app. Qed.

Lemma announced_app t1 t2 : announced (t1 ++ t2) = announced t1 ++ announced t2.
Proof. apply omap_app. Qed.

Lemma errors_app t1 t2 : errors (t1 ++ t2) = errors t1 ++ errors t2.
Proof. apply omap_app. Qed.

(** The [except] clause removes the image whose path [image_path]
    holds, if the file exists, and decides between retry and failure. *)
Lemma on_exception_spec pdf_file attempt max_retries retry_delay e m :
  ∃ t,
    on_exception pdf_file attempt max_retries retry_delay e m
    = (inr (if attempt <? max_retries - 1 then None else Some None),
       {| files := match image_path m with
                   | Some path => files m ∖ {[path]}
                   | None => files m
                   end;
          image_path := image_path m |}, t)
    ∧ attempts_in t = 0
    ∧ announced t = []
    ∧ errors t = (if attempt <? max_retries - 1 then []
                  else [failure_message pdf_file])
    ∧ removals t = match image_path m with
                   | Some path => if bool_decide (path ∈ files m) then [path] else []
                   | None => []
                   end.
Proof.
  destruct m as [fs [path|]]; unfold on_exception; run; simpl.
  - case_bool_decide as Hin.
    + rewrite decide_True by done. simpl.
      destruct (attempt <? max_retries - 1); eexists; split_and!; done.
    + replace (fs ∖ {[path]}) with fs by set_solver.
      destruct (attempt <? max_retries - 1); eexists; split_and!; done.
  - destruct (attempt <? max_retries - 1); eexists; split_and!; done.
Qed.

(** The body of the [try]: on success the image has been removed; on
    failure either [image_path] is the image of this attempt, or the
    attempt stopped at the rasterizer. *)
Lemma attempt_body_spec w pdf_file attempt m :
  ∃ r m' t,
    attempt_body temp_dir w pdf_file attempt m = (r, m', t)
    ∧ attempts_in t = 1 ∧ announced t = [] ∧ errors t = []
    ∧ match attempt_record w pdf_file with
      | Some record =>
          r = inr record
          ∧ files m' = (files m ∪ list_to_set (rasterizer_files w))
                       ∖ {[image_path_of temp_dir pdf_file attempt]}
          ∧ removals t = [image_path_of temp_dir pdf_file attempt]
      | None =>
          (∃ e, r = inl e) ∧ removals t = []
          ∧ ((image_path m' = Some (image_path_of temp_dir pdf_file attempt)
              ∧ files m' ∖ {[image_path_of temp_dir pdf_file attempt]}
                = (files m ∪ list_to_set (rasterizer_files w))
                  ∖ {[image_path_of temp_dir pdf_file attempt]}
              ∧ (image_saved w = true →
                 image_path_of temp_dir pdf_file attempt ∈ files m'))
             ∨ (image_path m' = image_path m
                ∧ files m' = files m ∪ list_to_set (rasterizer_files w)
                ∧ image_saved w = false))
      end.
Proof.
  destruct w as [rf re sv rd rp], m as [fs ip].
  unfold attempt_body, attempt_record, image_saved.
  generalize (image_path_of temp_dir pdf_file attempt). intros path.
  cbn [rasterizer_files rasterizer_error image_save read_error reply].
  destruct re as [e|].
  { run. simpl. eexists _, _, _. split_and!; try done; [by eexists|].
    by right. }
  destruct sv as [|created e].
  2:{ run. simpl. destruct created; simpl.
      all: eexists _, _, _; split_and!; try done; [by eexists|].
      all: left; simpl; split_and!; [done|set_solver|done]. }
  destruct rd as [e|].
  { run. simpl. eexists _, _, _. split_and!; try done; [by eexists|].
    left. simpl. split_and!; [done|set_solver|set_solver]. }
  destruct rp as [e|response_text].
  { run. simpl. eexists _, _, _. split_and!; try done; [by eexists|].
    left. simpl. split_and!; [done|set_solver|set_solver]. }
  run. simpl.
  destruct (parse_response response_text) as [[]|[]]; simpl.
  all: try (eexists _, _, _; split_and!; try done; [by eexists|];
            left; simpl; split_and!; [done|set_solver|set_solver]).
  rewrite decide_True by set_solver. simpl.
  eexists _, _, _. split_and!; try done. set_solver.
Qed.

(** An attempt raises exactly when [attempt_record] has no record. *)
Lemma attempt_body_result w pdf_file attempt m :
  match attempt_record w pdf_file with
  | Some record =>
      ∃ m' t, attempt_body temp_dir w pdf_file attempt m = (inr record, m', t)
  | None =>
      ∃ e m' t, attempt_body temp_dir w pdf_file attempt m = (inl e, m', t)
  end.
Proof.
  destruct (attempt_body_spec w pdf_file attempt m)
    as (r & m' & t & E & _ & _ & _ & Hcase).
  destruct (attempt_record w pdf_file).
  - destruct Hcase as (-> & _). eauto.
  - destruct Hcase as ([e ->] & _). eauto.
Qed.

(** One iteration of the retry loop. *)
Lemma iteration_spec w pdf_file attempt max_retries retry_delay m :
  ∃ m' t,
    iteration temp_dir w pdf_file attempt max_retries retry_delay m
    = (inr (iteration_result w pdf_file attempt max_retries), m', t)
    ∧ files m' ⊆ files m ∪ list_to_set (rasterizer_files w)
    ∧ attempts_in t = 1
    ∧ announced t = []
    ∧ errors t =
        match iteration_result w pdf_file attempt max_retries with
        | Some None => [failure_message pdf_file]
        | _ => []
        end
    ∧ (image_saved w = true →
       removals t = [image_path_of temp_dir pdf_file attempt]).
Proof.
  destruct (attempt_body_spec w pdf_file attempt m)
    as (r & m1 & t1 & E & Hatt & Hann & Herr & Hcase).
  unfold iteration, iteration_result. cbv [try_except mbind M_bind bind].
  rewrite E. destruct (attempt_record w pdf_file) as [record|].
  - destruct Hcase as (-> & Hfiles & Hrem). cbv [mret M_ret ret].
    eexists _, _. split; [done|]. rewrite app_nil_r.
    split_and!; [set_solver|done..].
  - destruct Hcase as ([e ->] & Hrem & Hcase).
    destruct (on_exception_spec pdf_file attempt max_retries retry_delay e m1)
      as (t2 & -> & Hatt2 & Hann2 & Herr2 & Hrem2).
    eexists _, _. split; [done|].
    rewrite attempts_in_app, announced_app, errors_app, removals_app.
    rewrite Hatt, Hatt2, Hann, Hann2, Herr, Herr2, Hrem, Hrem2. simpl.
    split_and!; [|done|done|by destruct (attempt <? max_retries - 1)|].
    + destruct Hcase as [(-> & Hfiles & _)|(-> & -> & _)].
      * rewrite Hfiles. set_solver.
      * destruct (image_path m); set_solver.
    + intros Hsaved.
      destruct Hcase as [(-> & _ & Hin)|(_ & _ & Hno)]; [|congruence].
      by rewrite bool_decide_eq_true_2 by auto.
Qed.

Lemma for_attempts_spec world pdf_file max_retries retry_delay :
  ∀ todo attempt m,
    attempt + todo = max_retries →
    ∃ m' t,
      for_attempts temp_dir world pdf_file max_retries retry_delay
        todo attempt m
      = (inr (first_success world pdf_file todo attempt), m', t)
      ∧ files m' ⊆ files m ∪ rasterizer_leftovers world todo attempt
      ∧ attempts_in t = attempts_needed world pdf_file todo attempt
      ∧ announced t = []
      ∧ errors t =
          match first_success world pdf_file todo attempt, todo with
          | None, S _ => [failure_message pdf_file]
          | _, _ => []
          end
      ∧ ((∀ k, attempt ≤ k <
               attempt + attempts_needed world pdf_file todo attempt →
               image_saved (world k) = true) →
         removals t =
         map (image_path_of temp_dir pdf_file)
             (seq attempt (attempts_needed world pdf_file todo attempt))).
Proof.
  induction todo as [|todo IH]; intros attempt m Hsum.
  - eexists _, _. split; [done|]. split_and!; [set_solver|done..].
  - cbn [for_attempts first_success attempts_needed rasterizer_leftovers].
    destruct (iteration_spec (world attempt) pdf_file attempt max_retries
                retry_delay m)
      as (m1 & t1 & E & Hfiles & Hatt & Hann & Herr & Hrem).
    cbv [mbind M_bind bind]. rewrite E. unfold iteration_result in *.
    destruct (attempt_record (world attempt) pdf_file) as [record|] eqn:Hrec.
    + cbv [mret M_ret ret]. eexists _, _. split; [done|].
      rewrite app_nil_r. split_and!; [clear -Hfiles; set_solver|done..|].
      intros Hsaved. simpl. apply Hrem, Hsaved. lia.
    + destruct (attempt <? max_retries - 1) eqn:Hlt.
      * apply Nat.ltb_lt in Hlt.
        destruct (IH (S attempt) m1 ltac:(lia))
          as (m2 & t2 & -> & Hfiles2 & Hatt2 & Hann2 & Herr2 & Hrem2).
        eexists _, _. split; [done|].
        rewrite attempts_in_app, announced_app, errors_app, removals_app.
        rewrite Hatt, Hatt2, Hann, Hann2, Herr, Herr2. simpl.
        split_and!; [clear -Hfiles Hfiles2; set_solver|done|done| |].
        -- destruct todo; [lia|done].
        -- intros Hsaved. rewrite Hrem, Hrem2; [done| |].
           ++ intros k Hk. apply Hsaved. lia.
           ++ apply Hsaved. lia.
      * apply Nat.ltb_ge in Hlt. assert (todo = 0) as -> by lia.
        cbv [mret M_ret ret]. eexists _, _. split; [done|].
        rewrite app_nil_r. simpl.
        split_and!; [clear -Hfiles; set_solver|by rewrite Hatt|done|done|].
        intros Hsaved. apply Hrem, Hsaved. lia.
Qed.

Lemma process_pdf_spec world pdf_file max_retries retry_delay m :
  ∃ m' t,
    process_pdf temp_dir world pdf_file max_retries retry_delay m
    = (inr (first_success world pdf_file max_retries 0), m', t)
    ∧ files m' ⊆ files m ∪ rasterizer_leftovers world max_retries 0
    ∧ attempts_in t = attempts_needed world pdf_file max_retries 0
    ∧ announced t = []
    ∧ errors t =
        match first_success world pdf_file max_retries 0, max_retries with
        | None, S _ => [failure_message pdf_file]
        | _, _ => []
        end
    ∧ ((∀ k, k < attempts_needed world pdf_file max_retries 0 →
             image_saved (world k) = true) →
       removals t =
       map (image_path_of temp_dir pdf_file)
           (seq 0 (attempts_needed world pdf_file max_retries 0))).
Proof.
  unfold process_pdf. cbv [mbind M_bind bind clear_locals].
  destruct (for_attempts_spec world pdf_file max_retries retry_delay
              max_retries 0 {| files := files m; image_path := None |}
              eq_refl)
    as (m' & t & -> & Hfiles & Hatt & Hann & Herr & Hrem).
  eexists _, _. split; [done|]. split_and!; [done..|].
  intros Hsaved. apply Hrem. intros k Hk. apply Hsaved. lia.
Qed.

(** The removals, exactly.  No file exists at the path of an image, the
    rasterizer writes none there, and [image_path] holds the path of an
    image if it is set: then an iteration removes the image of its
    attempt if the attempt created it, and nothing else, and it leaves
    the machine as it requires it. *)
Lemma iteration_removals w pdf_file attempt max_retries retry_delay m r m' t :
  iteration temp_dir w pdf_file attempt max_retries retry_delay m = (r, m', t) →
  (∀ k, image_path_of temp_dir pdf_file k ∉ files m) →
  (∀ k, image_path_of temp_dir pdf_file k ∉ rasterizer_files w) →
  (∀ path, image_path m = Some path →
           ∃ j, path = image_path_of temp_dir pdf_file j) →
  removals t = (if image_created w
                then [image_path_of temp_dir pdf_file attempt] else [])
  ∧ (∀ k, image_path_of temp_dir pdf_file k ∉ files m')
  ∧ (∀ path, image_path m' = Some path →
             ∃ j, path = image_path_of temp_dir pdf_file j).
Proof.
  intros E Hfiles Hrast Hpath.
  assert (∀ k, image_path_of temp_dir pdf_file k
               ∉ files m ∪ list_to_set (rasterizer_files w)) as Hnone.
  { intros k [H|H%elem_of_list_to_set]%elem_of_union;
      [by apply (Hfiles k)|by apply (Hrast k)]. }
  assert (∀ path, image_path m = Some path →
                  path ∉ files m ∪ list_to_set (rasterizer_files w)) as Hstale.
  { intros path (j & ->)%Hpath. apply Hnone. }
  revert E. clear Hfiles Hrast.
  destruct w as [rf re sv rd rp], m as [fs ip].
  unfold iteration, attempt_body, on_exception, image_created.
  cbn [rasterizer_files rasterizer_error image_save read_error reply
       files image_path] in *.
  set (p := image_path_of temp_dir pdf_file attempt).
  assert (p ∉ fs ∪ list_to_set rf) as Hp by apply Hnone.
  destruct re as [e|].
  { run. simpl. destruct ip as [path|]; simpl.
    - rewrite bool_decide_eq_false_2 by by apply Hstale. simpl.
      destruct (attempt <? max_retries - 1); intros [= <- <- <-];
        split_and!; simpl; done.
    - destruct (attempt <? max_retries - 1); intros [= <- <- <-];
        split_and!; simpl; done. }
  assert (∀ k, image_path_of temp_dir pdf_file k
               ∉ (fs ∪ list_to_set rf ∪ list_to_set [p]) ∖ {[p]}) as Hgone.
  { intros k Hk. apply (Hnone k). clear -Hk. set_solver. }
  assert (∀ path, Some p = Some path →
                  ∃ j, path = image_path_of temp_dir pdf_file j) as Hnew.
  { intros path [= <-]. by exists attempt. }
  destruct sv as [|created e].
  2:{ run. simpl. destruct created; simpl.
      - rewrite bool_decide_eq_true_2 by (clear; set_solver).
        rewrite decide_True by (clear; set_solver). simpl.
        destruct (attempt <? max_retries - 1); intros [= <- <- <-];
          split_and!; simpl; done.
      - rewrite bool_decide_eq_false_2 by done. simpl.
        destruct (attempt <? max_retries - 1); intros [= <- <- <-];
          split_and!; simpl; done. }
  destruct rd as [e|].
  { run. simpl.
    rewrite bool_decide_eq_true_2 by (clear; set_solver).
    rewrite decide_True by (clear; set_solver). simpl.
    destruct (attempt <? max_retries - 1); intros [= <- <- <-];
      split_and!; simpl; done. }
  destruct rp as [e|response_text].
  { run. simpl.
    rewrite bool_decide_eq_true_2 by (clear; set_solver).
    rewrite decide_True by (clear; set_solver). simpl.
    destruct (attempt <? max_retries - 1); intros [= <- <- <-];
      split_and!; simpl; done. }
  run. simpl.
  destruct (parse_response response_text) as [[]|[]]; simpl;
    rewrite ?bool_decide_eq_true_2 by (clear; set_solver);
    rewrite ?decide_True by (clear; set_solver); simpl;
    try (destruct (attempt <? max_retries - 1)); intros [= <- <- <-];
    split_and!; simpl; done.
Qed.

Lemma for_attempts_removals world pdf_file max_retries retry_delay :
  ∀ todo attempt m r m' t,
    for_attempts temp_dir world pdf_file max_retries retry_delay todo attempt m
    = (r, m', t) →
    attempt + todo = max_retries →
    (∀ k, image_path_of temp_dir pdf_file k ∉ files m) →
    (∀ j k, image_path_of temp_dir pdf_file k ∉ rasterizer_files (world j)) →
    (∀ path, image_path m = Some path →
             ∃ j, path = image_path_of temp_dir pdf_file j) →
    removals t
    = map (image_path_of temp_dir pdf_file)
        (List.filter (λ k, image_created (world k))
           (seq attempt (attempts_needed world pdf_file todo attempt)))
    ∧ ∀ k, image_path_of temp_dir pdf_file k ∉ files m'.
Proof.
  induction todo as [|todo IH]; intros attempt m r m' t E Hsum Hfiles Hrast Hpath.
  - injection E as <- <- <-. done.
  - revert E. cbn [for_attempts attempts_needed]. cbv [mbind M_bind bind].
    destruct (iteration temp_dir (world attempt) pdf_file attempt max_retries
                retry_delay m) as [[r1 m1] t1] eqn:E1.
    destruct (iteration_spec (world attempt) pdf_file attempt max_retries
                retry_delay m) as (m1' & t1' & E1' & _).
    rewrite E1 in E1'. injection E1' as -> _ _.
    destruct (iteration_removals _ _ _ _ _ _ _ _ _ E1 Hfiles (Hrast attempt)
                Hpath) as (Hrem1 & Hfiles1 & Hpath1).
    unfold iteration_result.
    destruct (attempt_record (world attempt) pdf_file) as [record|] eqn:Hrec.
    + cbv [mret M_ret ret]. intros [= <- <- <-]. rewrite app_nil_r.
      cbn [seq List.filter]. rewrite Hrem1.
      by destruct (image_created (world attempt)).
    + destruct (attempt <? max_retries - 1) eqn:Hlt.
      * apply Nat.ltb_lt in Hlt.
        destruct (for_attempts temp_dir world pdf_file max_retries retry_delay
                    todo (S attempt) m1) as [[r2 m2] t2] eqn:E2.
        destruct (IH _ _ _ _ _ E2 ltac:(lia) Hfiles1 Hrast Hpath1)
          as (Hrem2 & Hfiles2).
        intros [= <- <- <-]. rewrite removals_app, Hrem1, Hrem2.
        cbn [seq List.filter].
        by destruct (image_created (world attempt)).
      * apply Nat.ltb_ge in Hlt. assert (todo = 0) as -> by lia.
        cbv [mret M_ret ret]. intros [= <- <- <-]. rewrite app_nil_r.
        cbn [attempts_needed seq List.filter]. rewrite Hrem1.
        by destruct (image_created (world attempt)).
Qed.

Lemma process_pdf_removals world pdf_file max_retries retry_delay m :
  (∀ k, image_path_of temp_dir pdf_file k ∉ files m) →
  (∀ j k, image_path_of temp_dir pdf_file k ∉ rasterizer_files (world j)) →
  ∃ m' t,
    process_pdf temp_dir world pdf_file max_retries retry_delay m
    = (inr (first_success world pdf_file max_retries 0), m', t)
    ∧ removals t
      = map (image_path_of temp_dir pdf_file)
          (List.filter (λ k, image_created (world k))
             (seq 0 (attempts_needed world pdf_file max_retries 0)))
    ∧ ∀ k, image_path_of temp_dir pdf_file k ∉ files m'.
Proof.
  intros Hfiles Hrast.
  destruct (process_pdf_spec world pdf_file max_retries retry_delay m)
    as (m' & t & E & _).
  exists m', t. split; [done|].
  revert E. unfold process_pdf. cbv [mbind M_bind bind clear_locals].
  destruct (for_attempts temp_dir world pdf_file max_retries retry_delay
              max_retries 0 {| files := files m; image_path := None |})
    as [[r1 m1] t1] eqn:E1.
  destruct (for_attempts_removals _ _ _ _ _ _ _ _ _ _ E1 eq_refl Hfiles Hrast)
    as (Hrem & Hgone); [done|].
  destruct r1 as [e|[result|]]; cbv [mret M_ret ret];
    intros [= <- <-] || intros [= _ <- <-]; cbn [app];
    by rewrite ?app_nil_r.
Qed.

Lemma first_success_record world pdf_file : ∀ todo attempt record,
  first_success world pdf_file todo attempt = Some record →
  ∃ k, attempt ≤ k < attempt + todo ∧
       attempt_record (world k) pdf_file = Some record.
Proof.
  induction todo as [|todo IH]; intros attempt record; simpl; [done|].
  destruct (attempt_record (world attempt) pdf_file) as [r|] eqn:E.
  - intros [= <-]. exists attempt. split; [lia|done].
  - intros (k & Hk & Hrec)%IH. exists k. split; [lia|done].
Qed.

Lemma first_success_none world pdf_file : ∀ todo attempt,
  (∀ k, attempt ≤ k < attempt + todo →
        attempt_record (world k) pdf_file = None) →
  first_success world pdf_file todo attempt = None
  ∧ attempts_needed world pdf_file todo attempt = todo.
Proof.
  induction todo as [|todo IH]; intros attempt Hall; simpl; [done|].
  rewrite Hall by lia. destruct (IH (S attempt)) as [-> ->]; [|done].
  intros k Hk. apply Hall. lia.
Qed.

Lemma attempt_record_build w pdf_file record :
  attempt_record w pdf_file = Some record →
  ∃ extracted_data response_text,
    reply w = inr response_text ∧
    parse_response response_text = inr (JObj extracted_data) ∧
    record = build_record extracted_data response_text pdf_file.
Proof.
  unfold attempt_record. repeat case_match; try done.
  intros [= <-]. eauto.
Qed.

(** The batch loop. *)
Lemma batch_loop_spec world total_files : ∀ pdf_files idx data m,
  ∃ m' t,
    batch_loop temp_dir world total_files idx pdf_files data m
    = (inr (data ++ expected_data world idx pdf_files), m', t)
    ∧ announced t = map processing_message pdf_files
    ∧ errors t = map failure_message (failed world idx pdf_files).
Proof.
  induction pdf_files as [|pdf_file rest IH]; intros idx data m.
  - eexists _, _. split; [cbn; by rewrite app_nil_r|done].
  - cbn [batch_loop expected_data failed].
    destruct (process_pdf_spec (world idx) pdf_file 3 5 m)
      as (m1 & t1 & E & _ & _ & Hann & Herr & _).
    cbv [mbind M_bind bind emit]. rewrite E.
    destruct (first_success (world idx) pdf_file 3 0) as [record|].
    + cbv [mret M_ret ret].
      destruct (IH (S idx) (data ++ [record]) m1) as (m2 & t2 & -> & Hann2 & Herr2).
      eexists _, _. split; [by rewrite <-app_assoc|].
      rewrite !announced_app, !errors_app, Hann, Herr, Hann2, Herr2. done.
    + cbv [mret M_ret ret].
      destruct (IH (S idx) data m1) as (m2 & t2 & -> & Hann2 & Herr2).
      eexists _, _. split; [done|].
      rewrite !announced_app, !errors_app, Hann, Herr, Hann2, Herr2. done.
Qed.

End PipelineFacts.
(** * The claims about the pipeline *)

Section BatchFacts.

Lemma expected_data_names world : ∀ pdf_files idx,
  map (λ record, dict_get record "pdf_file") (expected_data world idx pdf_files)
  = map (λ pdf_file, Some (JStr pdf_file)) (succeeded world idx pdf_files).
Proof.
  induction pdf_files as [|pdf_file rest IH]; intros idx; [done|].
  cbn [expected_data succeeded].
  destruct (first_success (world idx) pdf_file 3 0) as [record|] eqn:E;
    [|apply IH].
  cbn [map]. rewrite IH. f_equal.
  apply first_success_record in E as (k & _ & Hrec).
  apply attempt_record_build in Hrec as (d & text & _ & _ & ->).
  unfold build_record. apply DictFacts.get_set_eq.
Qed.

Lemma succeeded_sublist world : ∀ pdf_files idx,
  sublist (succeeded world idx pdf_files) pdf_files.
Proof.
  induction pdf_files as [|pdf_file rest IH]; intros idx; [done|].
  cbn [succeeded]. destruct (first_success (world idx) pdf_file 3 0).
  - by apply sublist_skip.
  - by apply sublist_cons.
Qed.

Lemma succeeded_failed_length world : ∀ pdf_files idx,
  length (expected_data world idx pdf_files)
  + length (failed world idx pdf_files) = length pdf_files.
Proof.
  induction pdf_files as [|pdf_file rest IH]; intros idx; [done|].
  cbn [expected_data failed].
  destruct (first_success (world idx) pdf_file 3 0); cbn [length];
    specialize (IH (S idx)); lia.
Qed.

Lemma expected_data_app world : ∀ l1 l2 idx,
  expected_data world idx (l1 ++ l2)
  = expected_data world idx l1 ++ expected_data world (idx + length l1) l2.
Proof.
  induction l1 as [|pdf_file l1 IH]; intros l2 idx.
  - cbn. by rewrite Nat.add_0_r.
  - cbn [app expected_data length].
    rewrite IH. replace (S idx + length l1) with (idx + S (length l1)) by lia.
    by destruct (first_success (world idx) pdf_file 3 0).
Qed.

Lemma first_success_none_iff (w : nat → attempt_world) pdf_file :
  first_success w pdf_file 3 0 = None ↔
  ∀ attempt, attempt < 3 → attempt_record (w attempt) pdf_file = None.
Proof.
  split.
  - cbn [first_success]. intros H attempt Ha.
    destruct (attempt_record (w 0) pdf_file) eqn:E0; [done|].
    destruct (attempt_record (w 1) pdf_file) eqn:E1; [done|].
    destruct (attempt_record (w 2) pdf_file) eqn:E2; [done|].
    destruct attempt as [|[|[|]]]; [done..|lia].
  - intros H. apply first_success_none. intros k Hk. apply H. lia.
Qed.

(** The documents that fail are those whose three attempts all fail. *)
Lemma failed_from world : ∀ pdf_files idx pdf_file,
  pdf_file ∈ failed world idx pdf_files ↔
  ∃ j, pdf_files !! j = Some pdf_file
       ∧ ∀ attempt, attempt < 3 →
           attempt_record (world (idx + j) attempt) pdf_file = None.
Proof.
  induction pdf_files as [|pdf rest IH]; intros idx pdf_file.
  - split; [by intros ?%elem_of_nil|by intros (j & ? & _)].
  - cbn [failed].
    assert ((∃ j, (pdf :: rest) !! j = Some pdf_file
                  ∧ ∀ attempt, attempt < 3 →
                      attempt_record (world (idx + j) attempt) pdf_file = None)
            ↔ (pdf = pdf_file ∧ first_success (world idx) pdf 3 0 = None)
              ∨ pdf_file ∈ failed world (S idx) rest) as ->.
    { rewrite IH, first_success_none_iff. split.
      - intros ([|j] & Hj & Hall).
        + injection Hj as ->. left. split; [done|].
          intros attempt Ha. specialize (Hall attempt Ha).
          by rewrite Nat.add_0_r in Hall.
        + right. exists j. split; [done|]. intros attempt Ha.
          replace (S idx + j) with (idx + S j) by lia. by apply Hall.
      - intros [[-> Hall]|(j & Hj & Hall)].
        + exists 0. split; [done|]. intros attempt Ha.
          rewrite Nat.add_0_r. by apply Hall.
        + exists (S j). split; [done|]. intros attempt Ha.
          replace (idx + S j) with (S idx + j) by lia. by apply Hall. }
    destruct (first_success (world idx) pdf 3 0) eqn:E.
    + split; [by right|]. by intros [[_ ?]|].
    + rewrite elem_of_cons. split.
      * intros [->|H]; [by left|by right].
      * intros [[-> _]|H]; [by left|by right].
Qed.

Lemma failed_spec world pdf_files pdf_file :
  pdf_file ∈ failed world 0 pdf_files ↔
  ∃ idx, pdf_files !! idx = Some pdf_file
         ∧ ∀ attempt, attempt < 3 →
             attempt_record (world idx attempt) pdf_file = None.
Proof. apply failed_from. Qed.

End BatchFacts.

Lemma process_all_spec temp_dir show world pdf_files m :
  ∃ m' t,
    process_all temp_dir show world pdf_files m
    = (match export_csv show (expected_data world 0 pdf_files) with
       | EncodingError => inl encode_error_message
       | NothingToExport => inr (expected_data world 0 pdf_files, None)
       | Exported _ =>
           inr (expected_data world 0 pdf_files,
                Some (expected_data world 0 pdf_files))
       end, m', t)
    ∧ announced t = map processing_message pdf_files
    ∧ errors t = map failure_message (failed world 0 pdf_files)
                 ++ match expected_data world 0 pdf_files with
                    | [] => [no_data_message]
                    | _ => []
                    end.
Proof.
  unfold process_all.
  destruct (batch_loop_spec temp_dir world (length pdf_files) pdf_files 0 [] m)
    as (m1 & t1 & E & Hann & Herr).
  cbv [mbind M_bind bind emit]. rewrite E. cbn [app].
  assert (export_csv show (expected_data world 0 pdf_files) = NothingToExport
          ↔ expected_data world 0 pdf_files = []) as Hempty.
  { unfold export_csv. destruct (expected_data world 0 pdf_files); [done|].
    by destruct (encode_utf8 _). }
  destruct (export_csv show (expected_data world 0 pdf_files)) eqn:Hexp.
  - rewrite (proj1 Hempty eq_refl). cbv [mret M_ret ret].
    eexists _, _. split; [done|].
    rewrite !announced_app, !errors_app, Hann, Herr. cbn.
    by rewrite ?app_nil_r.
  - destruct (expected_data world 0 pdf_files) as [|record data];
      [by destruct Hempty as [_ H]; specialize (H eq_refl)|].
    cbv [raise]. eexists _, _. split; [done|].
    rewrite !announced_app, !errors_app, Hann, Herr. cbn.
    by rewrite ?app_nil_r.
  - destruct (expected_data world 0 pdf_files) as [|record data];
      [by destruct Hempty as [_ H]; specialize (H eq_refl)|].
    cbv [mret M_ret ret]. eexists _, _. split; [done|].
    rewrite !announced_app, !errors_app, Hann, Herr. cbn.
    by rewrite ?app_nil_r.
Qed.

(** C4: a document whose attempts all fail is tried exactly three times,
    is then reported as failed, and leaves no record in the result: the
    batch holds the records of the documents before and after it only. *)
Theorem C4_three_attempts_then_failed
    (temp_dir : string) (world : nat → nat → attempt_world)
    (pdf_files : list string) (idx : nat) (pdf_file : string) (m : machine)
    (Hdoc : pdf_files !! idx = Some pdf_file)
    (Hfails : ∀ attempt, attempt < 3 →
                attempt_record (world idx attempt) pdf_file = None) :
  (∃ m' t,
      process_pdf temp_dir (world idx) pdf_file 3 5 m = (inr None, m', t)
      ∧ attempts_in t = 3
      ∧ errors t = [failure_message pdf_file])
  ∧ (∃ m' t,
        batch_loop temp_dir world (length pdf_files) 0 pdf_files [] m
        = (inr (expected_data world 0 (take idx pdf_files)
                ++ expected_data world (S idx) (drop (S idx) pdf_files)),
           m', t)).
Proof.
  destruct (first_success_none (world idx) pdf_file 3 0) as [Hnone Hneed].
  { intros k Hk. apply Hfails. lia. }
  split.
  - destruct (process_pdf_spec temp_dir (world idx) pdf_file 3 5 m)
      as (m' & t & E & _ & Hatt & _ & Herr & _).
    rewrite Hnone in E, Herr. rewrite Hneed in Hatt. by exists m', t.
  - destruct (batch_loop_spec temp_dir world (length pdf_files) pdf_files 0 [] m)
      as (m' & t & E & _).
    exists m', t. rewrite E. do 2 f_equal. cbn [app].
    rewrite <-(take_drop_middle pdf_files idx pdf_file Hdoc) at 1.
    rewrite expected_data_app. f_equal.
    rewrite length_take_le by (apply lookup_lt_Some in Hdoc; lia).
    cbn [expected_data]. by rewrite Nat.add_0_l, Hnone.
Qed.

(** The hypotheses of C4 hold of the second of three documents when its
    requests always fail. *)
Lemma C4_three_attempts_then_failed_witness :
  ["a.pdf"; "b.pdf"; "c.pdf"] !! 1 = Some "b.pdf"
  ∧ (∀ attempt, attempt < 3 → attempt_record request_fails "b.pdf" = None)
  ∧ (∃ m' t,
        process_pdf "/tmp/work" (λ _, request_fails) "b.pdf" 3 5 empty_machine
        = (inr None, m', t)
        ∧ attempts_in t = 3
        ∧ errors t = [failure_message "b.pdf"]).
Proof.
  split; [reflexivity|]. split; [intros attempt _; reflexivity|].
  refine (proj1 (C4_three_attempts_then_failed "/tmp/work"
                   (λ idx _, if idx =? 1 then request_fails
                             else delivers sample_reply)
                   ["a.pdf"; "b.pdf"; "c.pdf"] 1 "b.pdf" empty_machine
                   eq_refl _)).
  intros attempt _. reflexivity.
Defined.

(** C6: the batch returns exactly the records of the documents that
    succeed, in input order, whatever happens in the attempts; with three
    documents of which the second always fails, the records are those of
    the first and the third, and the second is reported as failed. *)
Theorem C6_records_in_input_order
    (temp_dir : string) (world : nat → nat → attempt_world)
    (pdf_files : list string) (m : machine) :
  (∃ m' t data,
      batch_loop temp_dir world (length pdf_files) 0 pdf_files [] m
      = (inr data, m', t)
      ∧ data = expected_data world 0 pdf_files
      ∧ map (λ record, dict_get record "pdf_file") data
        = map (λ pdf_file, Some (JStr pdf_file)) (succeeded world 0 pdf_files)
      ∧ sublist (succeeded world 0 pdf_files) pdf_files
      ∧ length data + length (failed world 0 pdf_files) = length pdf_files
      ∧ errors t = map failure_message (failed world 0 pdf_files))
  ∧ (∃ m' t record1 record3,
        batch_loop temp_dir
          (λ idx _, if idx =? 1 then request_fails else delivers sample_reply)
          3 0 ["doc1.pdf"; "doc2.pdf"; "doc3.pdf"] [] m
        = (inr [record1; record3], m', t)
        ∧ dict_get record1 "pdf_file" = Some (JStr "doc1.pdf")
        ∧ dict_get record3 "pdf_file" = Some (JStr "doc3.pdf")
        ∧ errors t = [failure_message "doc2.pdf"]).
Proof.
  split.
  - destruct (batch_loop_spec temp_dir world (length pdf_files) pdf_files 0 [] m)
      as (m' & t & E & _ & Herr).
    exists m', t, (expected_data world 0 pdf_files).
    split_and!; [done|done| | | |done].
    + apply expected_data_names.
    + apply succeeded_sublist.
    + apply succeeded_failed_length.
  - destruct (batch_loop_spec temp_dir
                (λ idx _, if idx =? 1 then request_fails
                          else delivers sample_reply)
                3 ["doc1.pdf"; "doc2.pdf"; "doc3.pdf"] 0 [] m)
      as (m' & t & E & _ & Herr).
    eexists m', t, _, _. split; [exact E|]. by vm_compute.
Qed.

(** C7: the batch loop runs to its end for every batch: each document is
    announced and processed, whatever happened to the documents before
    it; each document that fails is named in an error message, which is
    ["All retries failed for "] followed by its name; and the message
    that no data was extracted appears exactly when no document
    succeeds, and differs from every per-document message.  (After the
    loop the script stops only if the CSV text cannot be encoded.) *)
Theorem C7_batch_never_aborts
    (temp_dir : string) (show : list (option json) → json → string)
    (world : nat → nat → attempt_world) (pdf_files : list string)
    (m : machine) :
  (∃ m' t,
      batch_loop temp_dir world (length pdf_files) 0 pdf_files [] m
      = (inr (expected_data world 0 pdf_files), m', t)
      ∧ announced t = map processing_message pdf_files
      ∧ errors t = map (λ pdf_file, "All retries failed for " +:+ pdf_file)
                     (failed world 0 pdf_files))
  ∧ (∃ r m' t,
        process_all temp_dir show world pdf_files m = (r, m', t)
        ∧ r = match export_csv show (expected_data world 0 pdf_files) with
              | EncodingError => inl encode_error_message
              | NothingToExport => inr (expected_data world 0 pdf_files, None)
              | Exported _ =>
                  inr (expected_data world 0 pdf_files,
                       Some (expected_data world 0 pdf_files))
              end
        ∧ announced t = map processing_message pdf_files
        ∧ errors t = map (λ pdf_file, "All retries failed for " +:+ pdf_file)
                       (failed world 0 pdf_files)
                     ++ match expected_data world 0 pdf_files with
                        | [] => ["No data was extracted from the uploaded PDFs."]
                        | _ => []
                        end)
  ∧ (∀ pdf_file,
       "All retries failed for " +:+ pdf_file
       ≠ "No data was extracted from the uploaded PDFs.")
  ∧ (∀ pdf_file,
       pdf_file ∈ failed world 0 pdf_files ↔
       ∃ idx, pdf_files !! idx = Some pdf_file
              ∧ ∀ attempt, attempt < 3 →
                  attempt_record (world idx attempt) pdf_file = None).
Proof.
  split_and!.
  - destruct (batch_loop_spec temp_dir world (length pdf_files) pdf_files 0 [] m)
      as (m' & t & E & Hann & Herr).
    by exists m', t.
  - destruct (process_all_spec temp_dir show world pdf_files m)
      as (m' & t & E & Hann & Herr).
    by eexists _, m', t.
  - intros pdf_file. discriminate.
  - intros pdf_file. apply failed_spec.
Qed.

(** C10: the tracking number of a record that [process_pdf] returns is
    the sentinel or has 18 characters, ["1Z"] and then 16 upper-case
    letters or digits; a lower-case letter is not in the class. *)
Theorem C10_tracking_number_domain
    (temp_dir : string) (world : nat → attempt_world) (pdf_file : string)
    (max_retries retry_delay : nat) (m m' : machine) (t : list event)
    (record : dict)
    (Hrun : process_pdf temp_dir world pdf_file max_retries retry_delay m
            = (inr (Some record), m', t)) :
  (∃ v, dict_get record "TRACKING_NUMBER" = Some (JStr v)
        ∧ (v = "No Tracking Number Found"
           ∨ (String.length v = 18 ∧ tracking_shape v)))
  ∧ (∀ c, Text.is_lower c = true → upper_or_digit c = false)
  ∧ ¬ tracking_shape "No Tracking Number Found".
Proof.
  split_and!.
  - destruct (process_pdf_spec temp_dir world pdf_file max_retries retry_delay m)
      as (m1 & t1 & E & _).
    rewrite Hrun in E. injection E as E _ _.
    symmetry in E. apply first_success_record in E as (k & _ & Hrec).
    apply attempt_record_build in Hrec as (d & text & _ & _ & ->).
    exists (extract_tracking_number text). split.
    + apply build_record_tracking.
    + destruct (TrackingFacts.extract_cases text) as [H|H]; [by left|right].
      split; [by apply TrackingFacts.shape_length|done].
  - apply TextFacts.lower_not_upper_or_digit.
  - apply TrackingFacts.sentinel_not_shape.
Qed.

(** The hypothesis of C10 holds of a document whose first attempt
    succeeds. *)
Lemma C10_tracking_number_domain_witness :
  ∃ m' t record,
    process_pdf "/tmp/work" (λ _, delivers sample_reply) "a.pdf" 3 5
      empty_machine = (inr (Some record), m', t)
    ∧ ∃ v, dict_get record "TRACKING_NUMBER" = Some (JStr v)
           ∧ (v = "No Tracking Number Found"
              ∨ (String.length v = 18 ∧ tracking_shape v)).
Proof.
  destruct (process_pdf_spec "/tmp/work" (λ _, delivers sample_reply) "a.pdf"
              3 5 empty_machine) as (m' & t & E & _).
  eexists m', t, _. split; [exact E|].
  exact (proj1 (C10_tracking_number_domain _ _ _ _ _ _ _ _ _ E)).
Defined.

(** C8, as stated, fails.  When the rasterizer fails twice and the third
    attempt succeeds, no image exists in the first two attempts and
    nothing is removed for them: the only removal is that of the third
    attempt.  And a file that the rasterizer itself leaves in the output
    folder is still there when [process_pdf] returns. *)
Lemma C8_cleanups_depend_on_the_stage :
  (∃ record,
      run_on_empty
        (process_pdf "/tmp/work"
           (λ attempt, if attempt <? 2 then rasterizer_fails
                       else delivers sample_reply) "a.pdf" 3 5)
      = (inr (Some record), [],
         [Convert "/tmp/work/a.pdf";
          StWarning (attempt_error_message "a.pdf" 0 "Unable to get page count.");
          StInfo (retry_message "a.pdf" 5); Sleep 5;
          Convert "/tmp/work/a.pdf";
          StWarning (attempt_error_message "a.pdf" 1 "Unable to get page count.");
          StInfo (retry_message "a.pdf" 5); Sleep 5;
          Convert "/tmp/work/a.pdf"; Save "/tmp/work/temp_a.pdf_2.png"; Request;
          Remove "/tmp/work/temp_a.pdf_2.png"]))
  ∧ (∃ record t,
        run_on_empty
          (process_pdf "/tmp/work" (λ _, leaves_page sample_reply) "a.pdf" 3 5)
        = (inr (Some record), ["/tmp/work/page.png"], t)).
Proof. split; eexists; [|eexists]; vm_compute; reflexivity. Qed.

(** C8 (amended): an attempt leaves behind no file of its own.  After
    each iteration of the retry loop, hence before the next attempt and
    before [process_pdf] returns, on the success path and on the failure
    path, every existing file existed before or was left by the
    rasterizer; in particular the image saved as [image_path] is gone.
    When two attempts fail after their image was saved and the third
    succeeds, the images of all three are removed, two of them before the
    last attempt.  In general, when no file exists at the path of an
    image beforehand and the rasterizer writes none there, the removals
    are exactly the images of the attempts that created their image
    file, in the order of the attempts: an attempt that fails in the
    rasterizer, or whose image was not created, removes nothing. *)
Theorem C8_temp_image_removed
    (temp_dir : string) (world : nat → attempt_world) (pdf_file : string)
    (m : machine) :
  (∀ attempt max_retries retry_delay,
      ∃ r m' t,
        iteration temp_dir (world attempt) pdf_file attempt max_retries
          retry_delay m = (r, m', t)
        ∧ files m' ⊆ files m ∪ list_to_set (rasterizer_files (world attempt))
        ∧ (image_path_of temp_dir pdf_file attempt ∉ files m →
           image_path_of temp_dir pdf_file attempt
             ∉ rasterizer_files (world attempt) →
           image_path_of temp_dir pdf_file attempt ∉ files m'))
  ∧ (∀ max_retries retry_delay,
        ∃ r m' t,
          process_pdf temp_dir world pdf_file max_retries retry_delay m
          = (inr r, m', t)
          ∧ files m' ⊆ files m ∪ rasterizer_leftovers world max_retries 0)
  ∧ (∀ record,
        attempt_record (world 0) pdf_file = None → image_saved (world 0) = true →
        attempt_record (world 1) pdf_file = None → image_saved (world 1) = true →
        attempt_record (world 2) pdf_file = Some record →
        ∃ m' t,
          process_pdf temp_dir world pdf_file 3 5 m = (inr (Some record), m', t)
          ∧ removals t = [image_path_of temp_dir pdf_file 0;
                          image_path_of temp_dir pdf_file 1;
                          image_path_of temp_dir pdf_file 2])
  ∧ (∀ max_retries retry_delay,
        (∀ k, image_path_of temp_dir pdf_file k ∉ files m) →
        (∀ j k, image_path_of temp_dir pdf_file k
                  ∉ rasterizer_files (world j)) →
        ∃ r m' t,
          process_pdf temp_dir world pdf_file max_retries retry_delay m
          = (inr r, m', t)
          ∧ removals t
            = map (image_path_of temp_dir pdf_file)
                (List.filter
                   (λ k, match rasterizer_error (world k),
                               image_save (world k) with
                         | None, Saved => true
                         | None, SaveRaised created _ => created
                         | Some _, _ => false
                         end)
                   (seq 0 (attempts_in t)))
          ∧ attempts_in t ≤ max_retries
          ∧ ∀ k, image_path_of temp_dir pdf_file k ∉ files m').
Proof.
  split_and!.
  - intros attempt max_retries retry_delay.
    destruct (iteration_spec temp_dir (world attempt) pdf_file attempt
                max_retries retry_delay m) as (m' & t & E & Hfiles & _).
    eexists _, m', t. split; [exact E|]. split; [done|].
    intros Hm Hr Hin. apply Hfiles in Hin.
    apply elem_of_union in Hin as [Hin|Hin]; [done|].
    by apply elem_of_list_to_set in Hin.
  - intros max_retries retry_delay.
    destruct (process_pdf_spec temp_dir world pdf_file max_retries retry_delay m)
      as (m' & t & E & Hfiles & _).
    by eexists _, m', t.
  - intros record H0 S0 H1 S1 H2.
    destruct (process_pdf_spec temp_dir world pdf_file 3 5 m)
      as (m' & t & E & _ & _ & _ & _ & Hrem).
    cbn [first_success attempts_needed] in E, Hrem.
    rewrite H0, H1, H2 in E, Hrem. exists m', t. split; [done|].
    apply Hrem. intros k Hk.
    destruct k as [|[|[|k]]]; [done|done| |lia].
    unfold image_saved. unfold attempt_record in H2.
    by repeat case_match.
  - intros max_retries retry_delay Hfiles Hrast.
    destruct (process_pdf_removals temp_dir world pdf_file max_retries
                retry_delay m Hfiles Hrast) as (m' & t & E & Hrem & Hgone).
    destruct (process_pdf_spec temp_dir world pdf_file max_retries retry_delay m)
      as (m1 & t1 & E1 & _ & Hatt & _).
    rewrite E in E1. injection E1 as _ <-.
    eexists _, m', t. split; [exact E|]. rewrite Hatt.
    split; [exact Hrem|]. split; [|done].
    clear. generalize 0.
    induction max_retries as [|n IH]; intros attempt; simpl; [done|].
    destruct (attempt_record _ _); [lia|]. specialize (IH (S attempt)). lia.
Qed.

(** Two requests fail, the third is answered; and when it is the
    rasterizer that fails twice, only the third image is removed. *)
Lemma C8_temp_image_removed_witness :
  attempt_record request_fails "a.pdf" = None
  ∧ image_saved request_fails = true
  ∧ (∃ record m' t,
      process_pdf "/tmp/work"
        (λ attempt, if attempt <? 2 then request_fails
                    else delivers sample_reply) "a.pdf" 3 5 empty_machine
      = (inr (Some record), m', t)
      ∧ removals t = ["/tmp/work/temp_a.pdf_0.png";
                      "/tmp/work/temp_a.pdf_1.png";
                      "/tmp/work/temp_a.pdf_2.png"])
  ∧ (∃ r m' t,
      process_pdf "/tmp/work"
        (λ attempt, if attempt <? 2 then rasterizer_fails
                    else delivers sample_reply) "a.pdf" 3 5 empty_machine
      = (inr r, m', t)
      ∧ removals t = ["/tmp/work/temp_a.pdf_2.png"]).
Proof.
  split; [reflexivity|]. split; [reflexivity|]. split.
  - eexists.
    refine (proj1 (proj2 (proj2 (C8_temp_image_removed "/tmp/work"
                            (λ attempt, if attempt <? 2 then request_fails
                                        else delivers sample_reply)
                            "a.pdf" empty_machine)))
              _ eq_refl eq_refl eq_refl eq_refl _).
    vm_compute. reflexivity.
  - destruct (proj2 (proj2 (proj2 (C8_temp_image_removed "/tmp/work"
                 (λ attempt, if attempt <? 2 then rasterizer_fails
                             else delivers sample_reply)
                 "a.pdf" empty_machine))) 3 5)
      as (r & m' & t & E & Hrem & _).
    + intros k. apply not_elem_of_empty.
    + intros j k. destruct (j <? 2); apply not_elem_of_nil.
    + exists r, m', t. split; [exact E|]. rewrite Hrem.
      assert (attempts_in t = 3) as ->; [|reflexivity].
      vm_compute in E. by injection E as _ _ <-.
Defined.
(** * The export *)

Module ExportFacts.

Lemma add_column_spec cols k x :
  x ∈ add_column cols k ↔ x ∈ cols ∨ x = k.
Proof.
  unfold add_column. destruct (existsb (String.eqb k) cols) eqn:E.
  - apply existsb_exists in E as (y & Hy & ->%String.eqb_eq).
    apply list_elem_of_In in Hy. naive_solver.
  - rewrite elem_of_app, list_elem_of_singleton. done.
Qed.

Lemma add_columns_spec keys : ∀ cols x,
  x ∈ fold_left add_column keys cols ↔ x ∈ cols ∨ x ∈ keys.
Proof.
  induction keys as [|k keys IH]; intros cols x; simpl.
  - rewrite elem_of_nil. naive_solver.
  - rewrite IH, add_column_spec, elem_of_cons. naive_solver.
Qed.

Lemma frame_columns data : ∀ cols x,
  x ∈ fold_left (λ cols record, fold_left add_column (dict_keys record) cols)
        data cols
  ↔ x ∈ cols ∨ ∃ record, record ∈ data ∧ x ∈ dict_keys record.
Proof.
  induction data as [|r data IH]; intros cols x; simpl.
  - split; [by left|]. intros [H|(r & Hr%elem_of_nil & _)]; done.
  - rewrite IH, add_columns_spec. setoid_rewrite elem_of_cons. naive_solver.
Qed.

Lemma index_of_some k cols i :
  index_of k cols = Some i → cols !! i = Some k.
Proof.
  revert i. induction cols as [|c cols IH]; intros i; simpl; [done|].
  destruct (String.eqb c k) eqn:E.
  - apply String.eqb_eq in E as ->. by intros [= <-].
  - destruct (index_of k cols) as [j|]; [|done]. intros [= <-]. by apply IH.
Qed.

Lemma index_of_none k cols : index_of k cols = None → k ∉ cols.
Proof.
  induction cols as [|c cols IH]; simpl; [intros _; apply not_elem_of_nil|].
  destruct (String.eqb c k) eqn:E; [done|]. apply String.eqb_neq in E.
  destruct (index_of k cols); [done|]. intros _.
  apply not_elem_of_cons. split; [done|by apply IH].
Qed.

(** After [DataFrame] and [reindex] a cell is the entry of the record,
    or missing. *)
Lemma cell_of_frame data record k :
  record ∈ data →
  cell_of (columns (DataFrame data))
    (map (dict_get record) (columns (DataFrame data))) k
  = dict_get record k.
Proof.
  intros Hin. unfold cell_of.
  assert (∀ x, (∃ record, record ∈ data ∧ x ∈ dict_keys record) →
               x ∈ columns (DataFrame data)) as Hcols.
  { intros x H. apply (frame_columns data []). by right. }
  revert Hcols. generalize (columns (DataFrame data)). intros cols Hcols.
  destruct (index_of k cols) as [i|] eqn:E; simpl.
  - apply index_of_some in E. rewrite list_lookup_fmap, E. done.
  - apply index_of_none in E. symmetry. apply DictFacts.get_none.
    intros Hk. apply E, Hcols. by exists record.
Qed.

Lemma reindex_rows cols data :
  rows (reindex cols (DataFrame data))
  = map (λ record, map (dict_get record) cols) data.
Proof.
  unfold reindex. cbn [rows]. unfold DataFrame at 2. cbn [rows].
  rewrite map_map. apply map_ext_in. intros record Hin%list_elem_of_In.
  apply map_ext. intros k. by apply cell_of_frame.
Qed.

Lemma column_at_reindexed df cols data j column :
  rows df = map (λ record, map (dict_get record) cols) data →
  cols !! j = Some column →
  column_at df j = map (λ record, dict_get record column) data.
Proof.
  intros Hrows Hj. unfold column_at. rewrite Hrows, map_map.
  apply map_ext. intros record. by rewrite list_lookup_fmap, Hj.
Qed.

Lemma row_fields_reindexed show df cols data record :
  rows df = map (λ record, map (dict_get record) cols) data →
  row_fields show df (map (dict_get record) cols)
  = map (λ column,
           cell_text show (map (λ r, dict_get r column) data)
             (dict_get record column)) cols.
Proof.
  intros Hrows. unfold row_fields. apply list_eq. intros j.
  rewrite list_lookup_imap.
  change (map (dict_get record) cols) with (dict_get record <$> cols).
  change (map ?f cols) with (f <$> cols).
  rewrite !list_lookup_fmap. destruct (cols !! j) as [column|] eqn:Hj; [|done].
  simpl. by erewrite column_at_reindexed.
Qed.

Lemma join_concat sep l : Text.join sep l = String.concat sep l.
Proof.
  induction l as [|x l IH]; [done|]. destruct l as [|y l]; [done|].
  cbn [Text.join String.concat] in *. by rewrite IH.
Qed.

Lemma concat_cons a l :
  String.concat EmptyString (a :: l) = a +:+ String.concat EmptyString l.
Proof. destruct l; [by rewrite append_nil_r|reflexivity]. Qed.

Lemma csv_lines_concat l :
  csv_lines l
  = String.concat EmptyString
      (map (λ line, line +:+ String "010" EmptyString) l).
Proof.
  induction l as [|x l IH]; [done|]. cbn [csv_lines map].
  rewrite concat_cons, IH, append_assoc. reflexivity.
Qed.

(** The text the export encodes. *)
Lemma to_csv_reindexed show cols data :
  to_csv show (reindex cols (DataFrame data))
  = csv_lines
      (csv_record (map csv_field cols)
       :: map (λ record,
            csv_record
              (map (λ column,
                      cell_text show (map (λ r, dict_get r column) data)
                        (dict_get record column)) cols))
          data).
Proof.
  unfold to_csv. f_equal.
  set (df := reindex cols (DataFrame data)).
  assert (rows df = map (λ record, map (dict_get record) cols) data)
    as Hrows by apply reindex_rows.
  rewrite Hrows, map_map. apply (f_equal2 cons); [done|].
  apply map_ext. intros record.
  by rewrite (row_fields_reindexed show df cols data record).
Qed.

Lemma surrogate_bytes u :
  (55296 ≤ u ≤ 57343)%N →
  ∃ c2 c3, Json.utf8 u = String (ascii_of_N 237) (String c2 (String c3 EmptyString))
           ∧ Text.in_range 160 191 c2 = true.
Proof.
  intros Hu. unfold Json.utf8.
  destruct (N.ltb_spec u 128); [lia|].
  destruct (N.ltb_spec u 2048); [lia|].
  destruct (N.ltb_spec u 65536); [|lia].
  assert (u / 4096 = 13)%N as ->.
  { symmetry. apply (N.div_unique u 4096 13 (u - 53248)); lia. }
  eexists _, _. split; [reflexivity|].
  assert (∃ k, (u / 64) mod 64 = k ∧ 32 ≤ k ≤ 63)%N as (k & -> & Hk).
  { exists (u / 64 - 832)%N.
    assert (864 ≤ u / 64 ≤ 895)%N as Hq.
    { split.
      - apply N.div_le_lower_bound; lia.
      - assert (u / 64 < 896)%N; [|lia]. apply N.Div0.div_lt_upper_bound; lia. }
    split; [|lia]. symmetry.
    apply (N.mod_unique (u / 64) 64 13); lia. }
  unfold Json.byte, Text.in_range, Text.code.
  rewrite N_ascii_embedding by lia.
  apply andb_true_iff. split; apply N.leb_le; lia.
Qed.

Lemma has_surrogate_found pre u post :
  (55296 ≤ u ≤ 57343)%N →
  has_surrogate (pre +:+ Json.utf8 u +:+ post) = true.
Proof.
  intros Hu. destruct (surrogate_bytes u Hu) as (c2 & c3 & -> & Hc2).
  induction pre as [|c pre IH].
  - cbn [String.append has_surrogate]. by rewrite Hc2.
  - change (String c pre +:+ ?x) with (String c (pre +:+ x)).
    cbn [has_surrogate]. rewrite IH. apply orb_true_r.
Qed.

Lemma has_surrogate_ascii s : is_ascii s = true → has_surrogate s = false.
Proof.
  induction s as [|c s IH]; [done|]. cbn [is_ascii Text.forallb has_surrogate].
  intros [Hc Hs]%andb_true_iff. rewrite (IH Hs).
  assert (Text.in_range 237 237 c = false) as ->; [|done].
  revert Hc. clear. by_cases c.
Qed.

End ExportFacts.

(** C5: whatever keys the records hold and in whatever order, the export
    of a non-empty result is the header line with the eight column names,
    then one line per record with its eight fields in that order,
    separated by commas, a missing field being empty; every line ends
    with a line feed and there is no index column; the bytes are the
    UTF-8 encoding of that text.  Nothing is exported for an empty
    result, nor when the text cannot be encoded, which is the case
    whenever it holds a surrogate and never for ASCII text. *)
Theorem C5_export_shape
    (show : list (option json) → json → string) (data : list dict) :
  export_csv show data
  = match data with
    | [] => NothingToExport
    | _ =>
        let row (record : dict) :=
          String.concat ","
            (map (λ column,
                    match dict_get record column with
                    | None => EmptyString
                    | Some v => show (map (λ r, dict_get r column) data) v
                    end)
                 ["INVOICE_DATE"; "INVOICE_NUMBER"; "CUSTOMER_PO"; "SUB_TOTAL";
                  "FREIGHT"; "TOTAL"; "TRACKING_NUMBER"; "pdf_file"]) in
        let text :=
          String.concat EmptyString
            (map (λ line, line +:+ String "010" EmptyString)
               ("INVOICE_DATE,INVOICE_NUMBER,CUSTOMER_PO,SUB_TOTAL,FREIGHT,TOTAL,TRACKING_NUMBER,pdf_file"
                :: map row data)) in
        if has_surrogate text then EncodingError else Exported text
    end
  ∧ (∀ pre u post, (55296 ≤ u ≤ 57343)%N →
       has_surrogate (pre +:+ Json.utf8 u +:+ post) = true)
  ∧ (∀ s, is_ascii s = true → has_surrogate s = false).
Proof.
  split; [|split; [apply ExportFacts.has_surrogate_found
                  |apply ExportFacts.has_surrogate_ascii]].
  destruct data as [|record0 data0]; [done|].
  unfold export_csv. cbv beta iota zeta.
  generalize (record0 :: data0). intros data.
  rewrite ExportFacts.to_csv_reindexed, ExportFacts.csv_lines_concat.
  assert (∀ a b : string, a = b →
            match encode_utf8 a with
            | Some csv_buffer => Exported csv_buffer
            | None => EncodingError
            end
            = (if has_surrogate b then EncodingError else Exported b)) as Henc.
  { intros a b <-. unfold encode_utf8. by destruct (has_surrogate a). }
  apply Henc. by f_equal.
Qed.

(** C5, as stated, fails.  A document succeeds with a value that holds
    a lone surrogate, which the JSON escape brings in: the encoding
    raises and no CSV is exported. *)
Lemma C5_lone_surrogate_no_csv :
  expected_data (λ _ _, delivers surrogate_reply) 0 ["a.pdf"]
  = [[("TOTAL", JStr (Json.utf8 55357));
      ("TRACKING_NUMBER", JStr "No Tracking Number Found");
      ("pdf_file", JStr "a.pdf")]]
  ∧ export_csv sample_show
      (expected_data (λ _ _, delivers surrogate_reply) 0 ["a.pdf"])
    = EncodingError
  ∧ (process_all "/tmp/work" sample_show (λ _ _, delivers surrogate_reply)
       ["a.pdf"] empty_machine).1.1
    = inl encode_error_message.
Proof. by vm_compute. Qed.
(** * Further properties of the code *)

(** ** [extract_tracking_number] *)

Module ExtractFacts.
Import ReFacts TrackingFacts.

Lemma search_here pat s m :
  Re.match_here pat s = Some m → Re.search pat s = Some m.
Proof. intros H. destruct s; simpl; by rewrite H. Qed.

Lemma extract_shape m : tracking_shape m → extract_tracking_number m = m.
Proof.
  intros Hm. unfold extract_tracking_number.
  rewrite (search_here _ _ m); [done|].
  apply match_tracking. split; [done|]. exists EmptyString.
  by rewrite append_nil_r.
Qed.

Lemma shape_found text pre m post :
  text = pre +:+ m +:+ post → tracking_shape m →
  extract_tracking_number text ≠ no_tracking.
Proof.
  intros Heq Hm. destruct (extract_spec text)
    as [(pre' & m' & post' & _ & Hs & -> & _)|[_ Hno]].
  - intros ->. by apply sentinel_not_shape.
  - by destruct (Hno pre m post).
Qed.

(** A prefix of a text that is no longer than another prefix of it is a
    prefix of that one. *)
Lemma append_split (a b c d : string) :
  a +:+ b = c +:+ d → String.length c ≤ String.length a →
  ∃ e, a = c +:+ e ∧ d = e +:+ b.
Proof.
  revert a. induction c as [|x c IH]; intros a Heq Hlen; simpl in *.
  - exists a. by rewrite Heq.
  - destruct a as [|y a]; simpl in *; [lia|]. injection Heq as -> Heq.
    destruct (IH a Heq ltac:(lia)) as (e & -> & ->). by exists e.
Qed.

Lemma search_suffix pat s m suffix :
  (∀ s' m', Re.match_here pat s' = Some m' →
            Re.match_here pat (s' +:+ suffix) = Some m') →
  (∀ s' m', Re.search pat s' = Some m → Re.match_here pat s' = None →
            Re.match_here pat (s' +:+ suffix) = Some m' → False) →
  Re.search pat s = Some m → Re.search pat (s +:+ suffix) = Some m.
Proof.
  intros Hkeep Hnone. induction s as [|c s IH]; intros Hs.
  - simpl in Hs. destruct (Re.match_here pat EmptyString) eqn:E; [|done].
    apply search_here. rewrite <-Hs. by apply (Hkeep EmptyString).
  - simpl in Hs. destruct (Re.match_here pat (String c s)) as [m0|] eqn:E.
    + apply search_here. rewrite <-Hs. by apply Hkeep.
    + change (String c s +:+ suffix) with (String c (s +:+ suffix)).
      cbn [Re.search].
      change (String c (s +:+ suffix)) with (String c s +:+ suffix).
      destruct (Re.match_here pat (String c s +:+ suffix)) as [m'|] eqn:E'.
      * exfalso. eapply (Hnone (String c s)); [|done..]. simpl. by rewrite E.
      * by apply IH.
Qed.

End ExtractFacts.

(** X1: the extractor applied to its own result gives that result back:
    a tracking number is found in itself, and the sentinel contains no
    tracking number. *)
Theorem X1_extract_idempotent (text : string) :
  extract_tracking_number (extract_tracking_number text)
  = extract_tracking_number text.
Proof.
  destruct (TrackingFacts.extract_cases text) as [->|H].
  - by vm_compute.
  - by apply ExtractFacts.extract_shape.
Qed.

(** X2: a text of fewer than 18 characters has no tracking number: the
    result is the sentinel. *)
Theorem X2_extract_short_text (text : string)
    (Hshort : String.length text < 18) :
  extract_tracking_number text = "No Tracking Number Found".
Proof.
  destruct (TrackingFacts.extract_spec text)
    as [(pre & m & post & -> & Hs & _)|[H _]]; [|done].
  apply TrackingFacts.shape_length in Hs.
  rewrite !append_length in Hshort. lia.
Qed.

Lemma X2_extract_short_text_witness :
  String.length "1ZABCDEFGH1234567" < 18
  ∧ extract_tracking_number "1ZABCDEFGH1234567" = "No Tracking Number Found".
Proof.
  assert (String.length "1ZABCDEFGH1234567" < 18) as H by (simpl; lia).
  split; [exact H|]. exact (X2_extract_short_text _ H).
Defined.

(** X3: once a tracking number is found, text added at the end does not
    change the result. *)
Theorem X3_extract_stable_under_append (text suffix : string)
    (Hfound : extract_tracking_number text ≠ "No Tracking Number Found") :
  extract_tracking_number (text +:+ suffix) = extract_tracking_number text.
Proof.
  unfold extract_tracking_number in *.
  destruct (Re.search tracking_pattern text) as [m|] eqn:E; [|done].
  rewrite (ExtractFacts.search_suffix _ _ m); [done| | |done].
  - intros s' m' [Hs [rest ->]]%TrackingFacts.match_tracking.
    apply TrackingFacts.match_tracking. split; [done|].
    exists (rest +:+ suffix). by rewrite append_assoc.
  - intros s' m' Hsearch Hnone [Hs' [rest' Heq]]%TrackingFacts.match_tracking.
    apply ReFacts.search_some in Hsearch as (pre & rest & -> & Hm & _).
    apply TrackingFacts.match_tracking in Hm as [Hs [post ->]].
    apply TrackingFacts.shape_length in Hs as Hl.
    apply TrackingFacts.shape_length in Hs' as Hl'.
    destruct (ExtractFacts.append_split _ _ _ _ Heq) as (e & He & _).
    { rewrite !append_length. lia. }
    assert (Re.match_here tracking_pattern (pre +:+ m +:+ post) = Some m')
      as Hm'; [|congruence].
    apply TrackingFacts.match_tracking. split; [done|]. by exists e.
Qed.

Lemma X3_extract_stable_under_append_witness :
  extract_tracking_number "ref 1ZABCDEFGH12345678" ≠ "No Tracking Number Found"
  ∧ extract_tracking_number ("ref 1ZABCDEFGH12345678" +:+ "9 and 1Z0000000000000000")
    = extract_tracking_number "ref 1ZABCDEFGH12345678".
Proof.
  assert (extract_tracking_number "ref 1ZABCDEFGH12345678"
          ≠ "No Tracking Number Found") as H by (vm_compute; discriminate).
  split; [exact H|]. exact (X3_extract_stable_under_append _ _ H).
Defined.

(** ** [normalize_field_names] and the record *)

Module NormalizeMore.
Import TextFacts DictFacts NormalizeFacts.

Lemma set_length d k v : length (dict_set d k v) ≤ S (length d).
Proof.
  induction d as [|[k' v'] d IH]; simpl; [lia|].
  destruct (String.eqb k' k); simpl; lia.
Qed.

Lemma fold_length d : ∀ acc,
  length (fold_left normalize_step d acc) ≤ length acc + length d.
Proof.
  induction d as [|kv d IH]; intros acc; simpl; [lia|].
  etrans; [apply IH|]. unfold normalize_step.
  pose proof (set_length acc (normalize_key kv.1) kv.2). lia.
Qed.

Lemma fold_renamed d : ∀ acc,
  NoDup (dict_keys acc ++ (normalize_key <$> dict_keys d)) →
  fold_left normalize_step d acc = acc ++ renamed d.
Proof.
  unfold dict_keys.
  induction d as [|[k v] d IH]; intros acc Hnd; simpl.
  - by rewrite app_nil_r.
  - unfold normalize_step at 2. simpl. simpl in Hnd.
    apply NoDup_app in Hnd as Hnd'. destruct Hnd' as (Hacc & Hdisj & Hkd).
    rewrite set_fresh.
    + rewrite IH; [by rewrite <-app_assoc|].
      rewrite fmap_app. simpl. by rewrite <-app_assoc.
    + intros Hin. apply (Hdisj _ Hin). left.
Qed.

End NormalizeMore.

(** X4: the result of [normalize_field_names] is a dictionary without
    repeated keys, has at most as many entries as the input, and each of
    its keys is in normal form: a further normalisation leaves it alone,
    it holds no lower-case ASCII letter and no white space at its
    ends. *)
Theorem X4_normalize_well_formed (data_dict : dict) :
  dict_wf (normalize_field_names data_dict)
  ∧ length (normalize_field_names data_dict) ≤ length data_dict
  ∧ Forall (λ key, stable_key key ∧ no_lower key = true
                   ∧ no_space_around key)
      (dict_keys (normalize_field_names data_dict)).
Proof.
  rewrite NormalizeFacts.normalize_fold. split_and!.
  - apply NormalizeFacts.fold_wf, NoDup_nil_2.
  - apply (NormalizeMore.fold_length data_dict []).
  - apply Forall_forall. intros key Hkey.
    apply NormalizeFacts.fold_keys in Hkey as [H%elem_of_nil|(k & _ & <-)];
      [done|].
    split; [apply NormalizeFacts.normalize_key_idem|].
    apply NormalizeFacts.normalize_key_shape.
Qed.

(** X5: when no two keys of the input have the same normal form, no
    entry is lost: the result holds the entries of the input in their
    order, each under its normalised key. *)
Theorem X5_normalize_keeps_entries (data_dict : dict)
    (Hdistinct : NoDup (normalize_key <$> dict_keys data_dict)) :
  normalize_field_names data_dict = renamed data_dict.
Proof.
  rewrite NormalizeFacts.normalize_fold.
  by rewrite NormalizeMore.fold_renamed.
Qed.

Lemma X5_normalize_keeps_entries_witness :
  NoDup (normalize_key <$> dict_keys
           [("Invoice Date", JStr "01/02/2024");
            (nbsp +:+ "total:", JStr "12.50"); ("Größe", JStr "A4")])
  ∧ normalize_field_names
      [("Invoice Date", JStr "01/02/2024");
       (nbsp +:+ "total:", JStr "12.50"); ("Größe", JStr "A4")]
    = [("INVOICE_DATE", JStr "01/02/2024"); ("TOTAL", JStr "12.50");
       ("GRÖSSE", JStr "A4")].
Proof.
  assert (NoDup (normalize_key <$> dict_keys
            [("Invoice Date", JStr "01/02/2024");
             (nbsp +:+ "total:", JStr "12.50"); ("Größe", JStr "A4")]))
    as H by (apply (bool_decide_unpack _); vm_compute; exact I).
  split; [exact H|]. rewrite (X5_normalize_keeps_entries _ H). by vm_compute.
Defined.

(** X6: the normal form of a key does not depend on white space around
    it nor on the case of its letters: a key and its upper case have the
    same normal form, and so have two ASCII keys that differ in the case
    of their letters only. *)
Theorem X6_normalize_key_insensitive (key pre post : string)
    (Hpre : white pre) (Hpost : white post) :
  normalize_key (pre +:+ key +:+ post) = normalize_key key
  ∧ normalize_key (Str.upper key) = normalize_key key
  ∧ ∀ key', is_ascii key = true → is_ascii key' = true →
            ascii_upper_text key = ascii_upper_text key' →
            normalize_key key = normalize_key key'.
Proof.
  assert (∀ k, normalize_key (Str.upper k) = normalize_key k) as Hupper.
  { intros k. unfold normalize_key.
    by rewrite CaseFacts.strip_upper, CaseFacts.upper_idem. }
  split_and!.
  - unfold normalize_key. by rewrite NormalizeFacts.strip_white.
  - apply Hupper.
  - intros key' Hk Hk' Hsame.
    rewrite <-(Hupper key), <-(Hupper key').
    by rewrite !NormalizeFacts.upper_ascii, Hsame.
Qed.

Lemma X6_normalize_key_insensitive_witness :
  normalize_key ((nbsp +:+ " ") +:+ "Cust. PO#" +:+ " ")
  = normalize_key "Cust. PO#"
  ∧ normalize_key "Cust. PO#" = normalize_key "cUST. po#".
Proof.
  assert (white (nbsp +:+ " ")) as Hpre.
  { exists [nbsp; " "]. split; [|reflexivity].
    repeat constructor; apply (bool_decide_unpack _); vm_compute; exact I. }
  assert (white " ") as Hpost.
  { exists [" "]. split; [|reflexivity].
    repeat constructor; apply (bool_decide_unpack _); vm_compute; exact I. }
  destruct (X6_normalize_key_insensitive "Cust. PO#" _ _ Hpre Hpost)
    as (Hpad & _ & Hcase).
  split; [exact Hpad|]. by apply Hcase.
Defined.

(** X7: in the record built from a reply, [pdf_file] is the name of the
    document whatever the reply holds, every other key but
    [TRACKING_NUMBER] has the value of the normalised mapping, and no key
    occurs twice. *)
Theorem X7_build_record_fields
    (extracted_data : dict) (response_text pdf_file : string) :
  dict_get (build_record extracted_data response_text pdf_file) "pdf_file"
  = Some (JStr pdf_file)
  ∧ (∀ key, key ≠ "TRACKING_NUMBER" → key ≠ "pdf_file" →
            dict_get (build_record extracted_data response_text pdf_file) key
            = dict_get (normalize_field_names extracted_data) key)
  ∧ dict_wf (build_record extracted_data response_text pdf_file).
Proof.
  unfold build_record. split_and!.
  - apply DictFacts.get_set_eq.
  - intros key H1 H2. by rewrite !DictFacts.get_set_ne.
  - do 2 apply DictFacts.wf_set. rewrite NormalizeFacts.normalize_fold.
    apply NormalizeFacts.fold_wf, NoDup_nil_2.
Qed.

(** X8: what [parse_response] decodes is always a JSON object, since the
    span it takes starts with a brace: [normalize_field_names] is never
    called on another value. *)
Theorem X8_parsed_reply_is_object (response_text : string) :
  match parse_response response_text with
  | inr v => ∃ members, v = JObj members
  | inl _ => True
  end.
Proof.
  destruct (parse_response response_text) as [e|v] eqn:E; [done|].
  unfold parse_response in E.
  destruct (Re.search json_pattern response_text) as [json_str|] eqn:Hs;
    [|done].
  destruct (Json.loads json_str) as [v'|] eqn:Hl; [|done]. injection E as <-.
  apply ReFacts.search_some in Hs as (pre & rest & _ & Hm & _).
  destruct rest as [|c rest]; [done|].
  destruct (decide (c = "{"%char)) as [->|Hne];
    [|by rewrite JsonSpanFacts.match_json_other in Hm].
  rewrite JsonSpanFacts.match_json_brace in Hm.
  destruct (Re.star _ _ rest); [|done]. injection Hm as <-.
  by eapply JsonObjectFacts.loads_brace_object.
Qed.

(** ** The retry loop *)

Section RetryFacts.

Variable temp_dir : string.

Lemma sleeps_app t1 t2 : sleeps (t1 ++ t2) = sleeps t1 ++ sleeps t2.
Proof. apply omap_app. Qed.

Lemma requests_app t1 t2 : requests (t1 ++ t2) = requests t1 + requests t2.
Proof. unfold requests. by rewrite List.filter_app, length_app. Qed.

Lemma progress_updates_app t1 t2 :
  progress_updates (t1 ++ t2) = progress_updates t1 ++ progress_updates t2.
Proof. apply omap_app. Qed.

Lemma status_slots_app t1 t2 :
  status_slots (t1 ++ t2) = status_slots t1 ++ status_slots t2.
Proof. apply omap_app. Qed.

Lemma attempt_body_extra w pdf_file attempt m r m' t :
  attempt_body temp_dir w pdf_file attempt m = (r, m', t) →
  sleeps t = [] ∧ requests t ≤ 1 ∧ progress_updates t = []
  ∧ status_slots t = [].
Proof.
  destruct w as [rf re sv rd rp], m as [fs ip]. unfold attempt_body.
  generalize (image_path_of temp_dir pdf_file attempt). intros path.
  cbn [rasterizer_files rasterizer_error image_save read_error reply].
  destruct re as [e|]; [run; simpl; intros [= <- <- <-]; cbn; auto|].
  destruct sv as [|[] e]; try (run; simpl; intros [= <- <- <-]; cbn; by auto).
  destruct rd as [e|]; [run; simpl; intros [= <- <- <-]; cbn; auto|].
  destruct rp as [e|response_text];
    [run; simpl; intros [= <- <- <-]; cbn; auto|].
  run. simpl.
  destruct (parse_response response_text) as [[]|[]]; simpl;
    try (intros [= <- <- <-]; cbn; by auto).
  case_decide; simpl; intros [= <- <- <-]; cbn; auto.
Qed.

Lemma on_exception_extra pdf_file attempt max_retries retry_delay e m r m' t :
  on_exception pdf_file attempt max_retries retry_delay e m = (r, m', t) →
  sleeps t = match r with inr None => [retry_delay] | _ => [] end
  ∧ requests t = 0 ∧ progress_updates t = [] ∧ status_slots t = [].
Proof.
  destruct m as [fs [path|]]; unfold on_exception; run; simpl.
  - case_bool_decide as Hin; [case_decide; [|done]|]; simpl;
      destruct (attempt <? max_retries - 1);
      intros [= <- <- <-]; cbn; auto.
  - destruct (attempt <? max_retries - 1); intros [= <- <- <-]; cbn; auto.
Qed.

Lemma iteration_extra w pdf_file attempt max_retries retry_delay m r m' t :
  iteration temp_dir w pdf_file attempt max_retries retry_delay m = (r, m', t) →
  sleeps t = match r with inr None => [retry_delay] | _ => [] end
  ∧ requests t ≤ 1 ∧ progress_updates t = [] ∧ status_slots t = [].
Proof.
  unfold iteration. cbv [try_except mbind M_bind bind].
  destruct (attempt_body temp_dir w pdf_file attempt m) as [[r1 m1] t1] eqn:E1.
  apply attempt_body_extra in E1 as (Hs1 & Hr1 & Hp1 & Hst1).
  destruct r1 as [e|record].
  - destruct (on_exception pdf_file attempt max_retries retry_delay e m1)
      as [[r2 m2] t2] eqn:E2.
    apply on_exception_extra in E2 as (Hs2 & Hr2 & Hp2 & Hst2).
    intros [= <- <- <-].
    rewrite sleeps_app, requests_app, progress_updates_app, status_slots_app.
    rewrite Hs1, Hs2, Hp1, Hp2, Hst1, Hst2, Hr2. split_and!; [done|lia|done..].
  - cbv [mret M_ret ret]. intros [= <- <- <-]. rewrite app_nil_r. done.
Qed.

Lemma attempts_needed_pos world pdf_file todo attempt :
  todo ≠ 0 → 1 ≤ attempts_needed world pdf_file todo attempt.
Proof.
  destruct todo; [done|]. intros _. simpl.
  destruct (attempt_record _ _); lia.
Qed.

Lemma attempts_needed_le world pdf_file : ∀ todo attempt,
  attempts_needed world pdf_file todo attempt ≤ todo.
Proof.
  induction todo as [|todo IH]; intros attempt; simpl; [done|].
  destruct (attempt_record _ _); [lia|]. specialize (IH (S attempt)). lia.
Qed.

Lemma for_attempts_extra world pdf_file max_retries retry_delay :
  ∀ todo attempt m r m' t,
    attempt + todo = max_retries →
    for_attempts temp_dir world pdf_file max_retries retry_delay todo attempt m
    = (r, m', t) →
    sleeps t = repeat retry_delay (attempts_in t - 1)
    ∧ requests t ≤ attempts_in t
    ∧ progress_updates t = [] ∧ status_slots t = [].
Proof.
  induction todo as [|todo IH]; intros attempt m r m' t Hsum.
  - intros [= <- <- <-]. done.
  - cbn [for_attempts]. cbv [mbind M_bind bind].
    destruct (iteration_spec temp_dir (world attempt) pdf_file attempt
                max_retries retry_delay m)
      as (m1 & t1 & E & _ & Hatt & _).
    pose proof (iteration_extra _ _ _ _ _ _ _ _ _ E) as (Hs1 & Hr1 & Hp1 & Hst1).
    rewrite E. unfold iteration_result in *.
    destruct (attempt_record (world attempt) pdf_file) as [record|].
    + cbv [mret M_ret ret]. intros [= <- <- <-]. rewrite app_nil_r, Hatt.
      split_and!; [done|lia|done..].
    + destruct (attempt <? max_retries - 1) eqn:Hlt.
      * apply Nat.ltb_lt in Hlt.
        destruct (for_attempts temp_dir world pdf_file max_retries retry_delay
                    todo (S attempt) m1) as [[r2 m2] t2] eqn:E2.
        destruct (for_attempts_spec temp_dir world pdf_file max_retries
                    retry_delay todo (S attempt) m1 ltac:(lia))
          as (m2' & t2' & E2' & _ & Hatt2 & _).
        rewrite E2 in E2'. injection E2' as _ _ <-.
        pose proof (attempts_needed_pos world pdf_file todo (S attempt)
                      ltac:(lia)) as Hpos.
        apply IH in E2 as (Hs2 & Hr2 & Hp2 & Hst2); [|lia].
        intros [= <- <- <-].
        rewrite sleeps_app, requests_app, progress_updates_app,
          status_slots_app, attempts_in_app.
        rewrite Hs1, Hs2, Hp1, Hp2, Hst1, Hst2, Hatt, Hatt2.
        split_and!; [|lia|done..].
        destruct (attempts_needed world pdf_file todo (S attempt)) as [|n];
          [lia|]. simpl. by rewrite Nat.sub_0_r.
      * cbv [mret M_ret ret]. intros [= <- <- <-]. rewrite app_nil_r, Hatt.
        split_and!; [done|lia|done..].
Qed.

Lemma process_pdf_extra world pdf_file max_retries retry_delay m :
  ∃ m' t,
    process_pdf temp_dir world pdf_file max_retries retry_delay m
    = (inr (first_success world pdf_file max_retries 0), m', t)
    ∧ attempts_in t = attempts_needed world pdf_file max_retries 0
    ∧ sleeps t = repeat retry_delay (attempts_in t - 1)
    ∧ requests t ≤ attempts_in t
    ∧ progress_updates t = [] ∧ status_slots t = [].
Proof.
  destruct (process_pdf_spec temp_dir world pdf_file max_retries retry_delay m)
    as (m' & t & E & _ & Hatt & _).
  exists m', t. split; [done|]. split; [done|].
  unfold process_pdf in E. cbv [mbind M_bind bind clear_locals] in E.
  destruct (for_attempts temp_dir world pdf_file max_retries retry_delay
              max_retries 0 {| files := files m; image_path := None |})
    as [[r1 m1] t1] eqn:E1.
  injection E as _ _ <-.
  by apply for_attempts_extra in E1.
Qed.

Lemma conversions_app t1 t2 :
  conversions (t1 ++ t2) = conversions t1 ++ conversions t2.
Proof. apply omap_app. Qed.

Lemma attempts_in_conversions t : attempts_in t = length (conversions t).
Proof.
  unfold attempts_in, conversions. induction t as [|e t IH]; [done|].
  destruct e; simpl; by rewrite ?IH.
Qed.

Lemma attempt_body_conv w pdf_file attempt m r m' t :
  attempt_body temp_dir w pdf_file attempt m = (r, m', t) →
  conversions t = [path_join temp_dir pdf_file].
Proof.
  destruct w as [rf re sv rd rp], m as [fs ip]. unfold attempt_body.
  generalize (image_path_of temp_dir pdf_file attempt). intros path.
  cbn [rasterizer_files rasterizer_error image_save read_error reply].
  destruct re as [e|]; [run; simpl; by intros [= <- <- <-]|].
  destruct sv as [|[] e]; try (run; simpl; by intros [= <- <- <-]).
  destruct rd as [e|]; [run; simpl; by intros [= <- <- <-]|].
  destruct rp as [e|response_text]; [run; simpl; by intros [= <- <- <-]|].
  run. simpl.
  destruct (parse_response response_text) as [[]|[]]; simpl;
    try by intros [= <- <- <-].
  case_decide; simpl; by intros [= <- <- <-].
Qed.

Lemma on_exception_conv pdf_file attempt max_retries retry_delay e m r m' t :
  on_exception pdf_file attempt max_retries retry_delay e m = (r, m', t) →
  conversions t = [].
Proof.
  destruct m as [fs [path|]]; unfold on_exception; run; simpl.
  - case_bool_decide as Hin; [case_decide; [|done]|]; simpl;
      destruct (attempt <? max_retries - 1); by intros [= <- <- <-].
  - destruct (attempt <? max_retries - 1); by intros [= <- <- <-].
Qed.

Lemma iteration_conv w pdf_file attempt max_retries retry_delay m r m' t :
  iteration temp_dir w pdf_file attempt max_retries retry_delay m = (r, m', t) →
  conversions t = [path_join temp_dir pdf_file].
Proof.
  unfold iteration. cbv [try_except mbind M_bind bind].
  destruct (attempt_body temp_dir w pdf_file attempt m) as [[r1 m1] t1] eqn:E1.
  apply attempt_body_conv in E1. destruct r1 as [e|record].
  - destruct (on_exception pdf_file attempt max_retries retry_delay e m1)
      as [[r2 m2] t2] eqn:E2.
    apply on_exception_conv in E2. intros [= <- <- <-].
    by rewrite conversions_app, E1, E2.
  - cbv [mret M_ret ret]. intros [= <- <- <-]. by rewrite app_nil_r.
Qed.

Lemma for_attempts_conv world pdf_file max_retries retry_delay :
  ∀ todo attempt m r m' t,
    for_attempts temp_dir world pdf_file max_retries retry_delay todo attempt m
    = (r, m', t) →
    Forall (eq (path_join temp_dir pdf_file)) (conversions t).
Proof.
  induction todo as [|todo IH]; intros attempt m r m' t.
  - by intros [= <- <- <-].
  - cbn [for_attempts]. cbv [mbind M_bind bind].
    destruct (iteration temp_dir (world attempt) pdf_file attempt max_retries
                retry_delay m) as [[r1 m1] t1] eqn:E1.
    apply iteration_conv in E1. destruct r1 as [e|[result|]].
    + intros [= <- <- <-]. rewrite E1. by repeat constructor.
    + cbv [mret M_ret ret]. intros [= <- <- <-].
      rewrite app_nil_r, E1. by repeat constructor.
    + destruct (for_attempts temp_dir world pdf_file max_retries retry_delay
                  todo (S attempt) m1) as [[r2 m2] t2] eqn:E2.
      apply IH in E2. intros [= <- <- <-].
      rewrite conversions_app, E1. by constructor.
Qed.

Lemma process_pdf_conv world pdf_file max_retries retry_delay m r m' t :
  process_pdf temp_dir world pdf_file max_retries retry_delay m = (r, m', t) →
  conversions t
  = repeat (path_join temp_dir pdf_file) (attempts_in t).
Proof.
  unfold process_pdf. cbv [mbind M_bind bind clear_locals].
  destruct (for_attempts temp_dir world pdf_file max_retries retry_delay
              max_retries 0 {| files := files m; image_path := None |})
    as [[r1 m1] t1] eqn:E1.
  apply for_attempts_conv in E1.
  assert (conversions t1
          = repeat (path_join temp_dir pdf_file) (attempts_in t1)) as Hconv.
  { rewrite attempts_in_conversions. clear -E1.
    induction E1 as [|p l <- _ IH]; [done|]. simpl. by f_equal. }
  destruct r1 as [e|[result|]]; cbv [mret M_ret ret];
    intros [= <- <- <-]; cbn [app]; by rewrite ?app_nil_r.
Qed.

Lemma first_success_at world pdf_file record : ∀ todo attempt k,
  k < todo →
  attempt_record (world (attempt + k)) pdf_file = Some record →
  (∀ j, j < k → attempt_record (world (attempt + j)) pdf_file = None) →
  first_success world pdf_file todo attempt = Some record
  ∧ attempts_needed world pdf_file todo attempt = S k.
Proof.
  induction todo as [|todo IH]; intros attempt k Hk Hrec Hnone; [lia|].
  simpl. destruct k as [|k].
  - rewrite Nat.add_0_r in Hrec. by rewrite Hrec.
  - pose proof (Hnone 0 ltac:(lia)) as H0. rewrite Nat.add_0_r in H0.
    rewrite H0.
    destruct (IH (S attempt) k) as [-> ->]; [lia| | |done].
    + by replace (S attempt + k) with (attempt + S k) by lia.
    + intros j Hj. replace (S attempt + j) with (attempt + S j) by lia.
      apply Hnone. lia.
Qed.

(** The loop does not look at the worlds of the attempts it does not
    make. *)
Lemma for_attempts_ext world world' pdf_file max_retries retry_delay :
  ∀ todo attempt m,
    attempt + todo = max_retries →
    (∀ j, attempt ≤ j < attempt + attempts_needed world pdf_file todo attempt →
          world' j = world j) →
    for_attempts temp_dir world' pdf_file max_retries retry_delay todo attempt m
    = for_attempts temp_dir world pdf_file max_retries retry_delay todo attempt m.
Proof.
  induction todo as [|todo IH]; intros attempt m Hsum Hsame; [done|].
  cbn [for_attempts attempts_needed] in *. cbv [mbind M_bind bind].
  rewrite Hsame by (destruct (attempt_record _ _); lia).
  destruct (iteration_spec temp_dir (world attempt) pdf_file attempt
              max_retries retry_delay m) as (m1 & t1 & -> & _).
  unfold iteration_result.
  destruct (attempt_record (world attempt) pdf_file); [done|].
  destruct (attempt <? max_retries - 1) eqn:Hlt; [|done].
  rewrite IH; [done|lia|]. intros j Hj. apply Hsame. lia.
Qed.

End RetryFacts.

(** X9: [process_pdf] returns the record of the first attempt that
    succeeds and makes no attempt after it: the result and the effects
    are the same whatever the later attempts would have met. *)
Theorem X9_stops_at_first_success
    (temp_dir : string) (world : nat → attempt_world) (pdf_file : string)
    (max_retries retry_delay k : nat) (record : dict) (m : machine)
    (Hk : k < max_retries)
    (Hsuccess : attempt_record (world k) pdf_file = Some record)
    (Hbefore : ∀ j, j < k → attempt_record (world j) pdf_file = None) :
  ∃ m' t,
    process_pdf temp_dir world pdf_file max_retries retry_delay m
    = (inr (Some record), m', t)
    ∧ attempts_in t = S k
    ∧ ∀ world', (∀ j, j ≤ k → world' j = world j) →
        process_pdf temp_dir world' pdf_file max_retries retry_delay m
        = (inr (Some record), m', t).
Proof.
  destruct (first_success_at world pdf_file record max_retries 0 k)
    as [Hfirst Hneed]; [done..|].
  destruct (process_pdf_spec temp_dir world pdf_file max_retries retry_delay m)
    as (m' & t & E & _ & Hatt & _).
  rewrite Hfirst in E. rewrite Hneed in Hatt.
  exists m', t. split_and!; [done..|].
  intros world' Hsame. rewrite <-E. unfold process_pdf.
  cbv [mbind M_bind bind clear_locals].
  rewrite (for_attempts_ext temp_dir world world'); [done..|].
  intros j Hj. apply Hsame. rewrite Hneed in Hj. lia.
Qed.

Lemma X9_stops_at_first_success_witness :
  process_pdf "/tmp/work"
    (λ attempt, if attempt <? 1 then request_fails
                else delivers sample_reply) "a.pdf" 3 5 empty_machine
  = process_pdf "/tmp/work"
      (λ attempt, match attempt with
                  | 0 => request_fails
                  | 1 => delivers sample_reply
                  | _ => rasterizer_fails
                  end) "a.pdf" 3 5 empty_machine.
Proof.
  destruct (X9_stops_at_first_success "/tmp/work"
              (λ attempt, if attempt <? 1 then request_fails
                          else delivers sample_reply)
              "a.pdf" 3 5 1 _ empty_machine ltac:(lia) eq_refl)
    as (m' & t & E & Hatt & Hext).
  { intros [|j] Hj; [reflexivity|lia]. }
  rewrite E. symmetry. apply Hext.
  intros [|[|j]] Hj; [reflexivity|reflexivity|lia].
Defined.

(** X10: [process_pdf] makes at most [max_retries] attempts, calls the
    API at most once per attempt, and pauses for [retry_delay] between
    two attempts only: there is no pause before the first attempt nor
    after the last one. *)
Theorem X10_retry_accounting
    (temp_dir : string) (world : nat → attempt_world) (pdf_file : string)
    (max_retries retry_delay : nat) (m : machine) :
  ∃ r m' t,
    process_pdf temp_dir world pdf_file max_retries retry_delay m
    = (inr r, m', t)
    ∧ attempts_in t ≤ max_retries
    ∧ requests t ≤ attempts_in t
    ∧ sleeps t = repeat retry_delay (attempts_in t - 1).
Proof.
  destruct (process_pdf_extra temp_dir world pdf_file max_retries retry_delay m)
    as (m' & t & E & Hatt & Hs & Hr & _).
  eexists _, m', t. split; [exact E|]. split_and!; [|done..].
  rewrite Hatt. apply attempts_needed_le.
Qed.

(** X11: [process_pdf] never raises.  When it returns [None] after at
    least one attempt it has displayed the failure message for the
    document, and it displays no error otherwise; with [max_retries = 0]
    it returns [None] without any attempt and without any message. *)
Theorem X11_failure_is_reported
    (temp_dir : string) (world : nat → attempt_world) (pdf_file : string)
    (max_retries retry_delay : nat) (m : machine) :
  ∃ r m' t,
    process_pdf temp_dir world pdf_file max_retries retry_delay m
    = (inr r, m', t)
    ∧ errors t = match r, max_retries with
                 | None, S _ => [failure_message pdf_file]
                 | _, _ => []
                 end
    ∧ (max_retries = 0 → r = None ∧ t = [] ∧ files m' = files m).
Proof.
  destruct (process_pdf_spec temp_dir world pdf_file max_retries retry_delay m)
    as (m' & t & E & _ & _ & _ & Herr & _).
  eexists _, m', t. split; [exact E|]. split; [done|].
  intros ->. cbv in E. by injection E as <- <-.
Qed.

(** ** The batch *)

Section BatchFacts.

Variable temp_dir : string.

Lemma batch_attempts_bounds world : ∀ pdf_files idx,
  length pdf_files ≤ batch_attempts world idx pdf_files ≤ 3 * length pdf_files.
Proof.
  induction pdf_files as [|pdf_file rest IH]; intros idx; cbn [batch_attempts length];
    [lia|].
  pose proof (attempts_needed_le (world idx) pdf_file 3 0).
  pose proof (attempts_needed_pos (world idx) pdf_file 3 0 ltac:(done)).
  specialize (IH (S idx)). lia.
Qed.

Lemma batch_loop_extra world total_files : ∀ pdf_files idx data m,
  ∃ m' t,
    batch_loop temp_dir world total_files idx pdf_files data m
    = (inr (data ++ expected_data world idx pdf_files), m', t)
    ∧ progress_updates t
      = (λ done, (done, total_files)) <$> seq (idx + 1) (length pdf_files)
    ∧ status_slots t
      = repeat 0 (length pdf_files + length (failed world idx pdf_files))
    ∧ attempts_in t = batch_attempts world idx pdf_files
    ∧ requests t ≤ attempts_in t
    ∧ sleeps t = repeat 5 (attempts_in t - length pdf_files).
Proof.
  induction pdf_files as [|pdf_file rest IH]; intros idx data m.
  - eexists _, _. split; [cbn; by rewrite app_nil_r|]. cbn. split_and!; done.
  - cbn [batch_loop expected_data failed batch_attempts].
    destruct (process_pdf_extra temp_dir (world idx) pdf_file 3 5 m)
      as (m1 & t1 & E & Hatt & Hs & Hr & Hp & Hst).
    pose proof (attempts_needed_pos (world idx) pdf_file 3 0 ltac:(done))
      as Hpos.
    pose proof (batch_attempts_bounds world rest (S idx)) as Hrest.
    rewrite <-Hatt in Hpos |- *.
    cbv [mbind M_bind bind emit]. rewrite E.
    destruct (first_success (world idx) pdf_file 3 0) as [record|].
    + cbv [mret M_ret ret].
      destruct (IH (S idx) (data ++ [record]) m1)
        as (m2 & t2 & -> & Hp2 & Hst2 & Hatt2 & Hr2 & Hs2).
      rewrite <-Hatt2 in Hrest |- *.
      eexists _, _. split; [by rewrite <-app_assoc|].
      rewrite !progress_updates_app, !status_slots_app, !attempts_in_app,
        !requests_app, !sleeps_app, Hp, Hst, Hs, Hp2, Hst2, Hs2.
      cbn [progress_updates status_slots attempts_in requests sleeps omap
             list_omap List.filter length app].
      rewrite <-repeat_app. cbn [length seq fmap list_fmap].
      replace (S idx + 1) with (S (idx + 1)) in * by lia.
      split_and!; [done|done|lia|lia|].
      f_equal. lia.
    + cbv [mret M_ret ret].
      destruct (IH (S idx) data m1)
        as (m2 & t2 & -> & Hp2 & Hst2 & Hatt2 & Hr2 & Hs2).
      rewrite <-Hatt2 in Hrest |- *.
      eexists _, _. split; [done|].
      rewrite !progress_updates_app, !status_slots_app, !attempts_in_app,
        !requests_app, !sleeps_app, Hp, Hst, Hs, Hp2, Hst2, Hs2.
      cbn [progress_updates status_slots attempts_in requests sleeps omap
             list_omap List.filter length app].
      rewrite <-repeat_app. cbn [length seq fmap list_fmap].
      replace (S idx + 1) with (S (idx + 1)) in * by lia.
      split_and!; [done| |lia|lia|].
      * rewrite Nat.add_succ_r. done.
      * f_equal. lia.
Qed.

(** The messages after the loop add nothing to these projections. *)
Lemma process_all_extra show world pdf_files m :
  ∃ r m' t,
    process_all temp_dir show world pdf_files m = (r, m', t)
    ∧ progress_updates t
      = (λ done, (done, length pdf_files)) <$> seq 1 (length pdf_files)
    ∧ status_slots t
      = repeat 0 (length pdf_files + length (failed world 0 pdf_files))
    ∧ attempts_in t = batch_attempts world 0 pdf_files
    ∧ requests t ≤ attempts_in t
    ∧ sleeps t = repeat 5 (attempts_in t - length pdf_files).
Proof.
  unfold process_all. cbv [mbind M_bind bind emit].
  destruct (batch_loop_extra world (length pdf_files) pdf_files 0 [] m)
    as (m1 & t1 & -> & Hp & Hst & Hatt & Hr & Hs).
  destruct (export_csv show _); cbv [mret M_ret ret raise];
    eexists _, _, _; (split; [reflexivity|]);
    rewrite ?progress_updates_app, ?status_slots_app, ?attempts_in_app,
      ?requests_app, ?sleeps_app, Hp, Hst, Hs;
    cbn [progress_updates status_slots attempts_in requests sleeps omap
           list_omap List.filter length app];
    rewrite ?app_nil_r, ?Nat.add_0_r; split_and!; done || lia.
Qed.

(** The trace of the loop, document by document. *)
Lemma batch_loop_parts world total_files : ∀ pdf_files idx data m,
  ∃ r m' parts,
    batch_loop temp_dir world total_files idx pdf_files data m
    = (r, m', concat parts)
    ∧ Forall2 (document_cost temp_dir) pdf_files parts.
Proof.
  induction pdf_files as [|pdf_file rest IH]; intros idx data m.
  - by exists (inr data), m, [].
  - cbn [batch_loop].
    destruct (process_pdf_extra temp_dir (world idx) pdf_file 3 5 m)
      as (m1 & t1 & E & Hatt & Hs & Hr & _).
    pose proof (process_pdf_conv temp_dir _ _ _ _ _ _ _ _ E) as Hconv.
    pose proof (attempts_needed_pos (world idx) pdf_file 3 0 ltac:(done))
      as Hpos.
    pose proof (attempts_needed_le (world idx) pdf_file 3 0) as Hle.
    rewrite <-Hatt in Hpos, Hle.
    cbv [mbind M_bind bind emit]. rewrite E.
    destruct (first_success (world idx) pdf_file 3 0) as [record|].
    + cbv [mret M_ret ret].
      destruct (IH (S idx) (data ++ [record]) m1) as (r & m2 & parts & -> & Hparts).
      exists r, m2,
        (([StatusMarkdown 0 (processing_message pdf_file)] ++ t1
          ++ [Progress (idx + 1) total_files]) :: parts).
      split.
      * f_equal. cbn [concat app]. by rewrite <-!app_assoc.
      * constructor; [|done]. unfold document_cost.
        rewrite (attempts_in_app [_]), attempts_in_app, (conversions_app [_]),
          conversions_app, (requests_app [_]), requests_app,
          (sleeps_app [_]), sleeps_app.
        cbn [attempts_in conversions requests sleeps omap list_omap
               List.filter length app].
        rewrite !app_nil_r, !Nat.add_0_r. done.
    + cbv [mret M_ret ret].
      destruct (IH (S idx) data m1) as (r & m2 & parts & -> & Hparts).
      exists r, m2,
        (([StatusMarkdown 0 (processing_message pdf_file)] ++ t1
          ++ [StatusError 0 "Failed"; Progress (idx + 1) total_files])
         :: parts).
      split.
      * f_equal. cbn [concat app]. by rewrite <-!app_assoc.
      * constructor; [|done]. unfold document_cost.
        rewrite (attempts_in_app [_]), attempts_in_app, (conversions_app [_]),
          conversions_app, (requests_app [_]), requests_app,
          (sleeps_app [_]), sleeps_app.
        cbn [attempts_in conversions requests sleeps omap list_omap
               List.filter length app].
        rewrite !app_nil_r, !Nat.add_0_r. done.
Qed.

Lemma process_all_parts show world pdf_files m :
  ∃ r m' parts rest,
    process_all temp_dir show world pdf_files m
    = (r, m', concat parts ++ rest)
    ∧ Forall2 (document_cost temp_dir) pdf_files parts
    ∧ Forall (λ e, ∃ msg, e = StWrite msg ∨ e = StError msg) rest.
Proof.
  unfold process_all. cbv [mbind M_bind bind emit].
  destruct (batch_loop_parts world (length pdf_files) pdf_files 0 [] m)
    as (r1 & m1 & parts & -> & Hparts).
  destruct r1 as [e|data].
  - exists (inl e), m1, parts, []. rewrite app_nil_r. by split.
  - destruct (export_csv show data); cbv [mret M_ret ret raise];
      eexists _, _, parts, _; (split; [reflexivity|]); (split; [done|]);
      repeat constructor; eauto.
Qed.

End BatchFacts.

(** X12: the batch moves the progress bar once per document, to
    [(idx + 1) / total_files] in order, so that it ends at
    [total_files / total_files]; and every status message, whatever the
    document, goes to the first placeholder: one per document and one
    more for each document that failed. *)
Theorem X12_progress_and_status
    (temp_dir : string) (show : list (option json) → json → string)
    (world : nat → nat → attempt_world) (pdf_files : list string)
    (m : machine) :
  ∃ r m' t,
    process_all temp_dir show world pdf_files m = (r, m', t)
    ∧ progress_updates t
      = (λ done, (done, length pdf_files)) <$> seq 1 (length pdf_files)
    ∧ status_slots t
      = repeat 0 (length pdf_files + length (failed world 0 pdf_files)).
Proof.
  destruct (process_all_extra temp_dir show world pdf_files m)
    as (r & m' & t & E & Hp & Hst & _).
  by exists r, m', t.
Qed.

(** X13: the cost of a batch, document by document.  The trace of the
    batch is made of one part per document, in order, followed by the
    closing messages; in the part of a document there are between one
    and three attempts, each a conversion of that document, at most one
    call of the API per attempt, hence at most three per document, and
    a pause of five seconds before each further attempt and nowhere
    else. *)
Theorem X13_batch_cost
    (temp_dir : string) (show : list (option json) → json → string)
    (world : nat → nat → attempt_world) (pdf_files : list string)
    (m : machine) :
  ∃ r m' parts rest,
    process_all temp_dir show world pdf_files m
    = (r, m', concat parts ++ rest)
    ∧ Forall2 (λ pdf_file part,
         conversions part
         = repeat (path_join temp_dir pdf_file) (attempts_in part)
         ∧ 1 ≤ attempts_in part ≤ 3
         ∧ requests part ≤ attempts_in part
         ∧ sleeps part = repeat 5 (attempts_in part - 1))
        pdf_files parts
    ∧ Forall (λ e, ∃ msg, e = StWrite msg ∨ e = StError msg) rest.
Proof.
  destruct (process_all_parts temp_dir show world pdf_files m)
    as (r & m' & parts & rest & E & Hparts & Hrest).
  by exists r, m', parts, rest.
Qed.

(** ** The export *)

Module ExportMore.

Lemma same_columns_column data data' column :
  same_columns data data' → column ∈ columns_order →
  map (λ r, dict_get r column) data = map (λ r, dict_get r column) data'.
Proof.
  intros Hsame Hin. induction Hsame as [|r r' data data' Hr _ IH]; [done|].
  cbn [map]. by rewrite IH, (Hr column Hin).
Qed.

Lemma same_columns_records show (column_of column_of' : string → list (option json))
    data data' :
  same_columns data data' →
  (∀ column, column ∈ columns_order → column_of column = column_of' column) →
  map (λ record,
         csv_record
           (map (λ column, cell_text show (column_of column)
                             (dict_get record column)) columns_order)) data
  = map (λ record,
           csv_record
             (map (λ column, cell_text show (column_of' column)
                               (dict_get record column)) columns_order)) data'.
Proof.
  intros Hsame Hcol. induction Hsame as [|r r' data data' Hr _ IH]; [done|].
  cbn [map]. rewrite IH. do 2 f_equal.
  apply map_ext_in. intros column Hin%list_elem_of_In.
  by rewrite (Hr column Hin), (Hcol column Hin).
Qed.

Lemma export_exported show data csv_buffer :
  export_csv show data = Exported csv_buffer → data ≠ [].
Proof. by destruct data. Qed.

End ExportMore.

(** X14: the export reads the records only through the eight columns:
    two results whose records agree on them give the same CSV, whatever
    other fields the records hold and in whatever order. *)
Theorem X14_export_reads_eight_columns
    (show : list (option json) → json → string) (data data' : list dict)
    (Hsame : same_columns data data') :
  export_csv show data = export_csv show data'.
Proof.
  unfold export_csv.
  destruct Hsame as [|r r' data data' Hr Hsame]; [done|].
  assert (same_columns (r :: data) (r' :: data')) as Hall
    by by constructor.
  rewrite !ExportFacts.to_csv_reindexed.
  rewrite (ExportMore.same_columns_records show
             (λ column, map (λ r, dict_get r column) (r :: data))
             (λ column, map (λ r, dict_get r column) (r' :: data'))
             (r :: data) (r' :: data')); [done|done|].
  intros column Hin. by apply ExportMore.same_columns_column.
Qed.

Lemma X14_export_reads_eight_columns_witness :
  export_csv sample_show
    [[("NOTE", JStr "paid"); ("TOTAL", JStr "5"); ("pdf_file", JStr "a.pdf")]]
  = export_csv sample_show
      [[("pdf_file", JStr "a.pdf"); ("TOTAL", JStr "5")]].
Proof.
  apply X14_export_reads_eight_columns.
  constructor; [|constructor].
  intros column Hin. unfold columns_order in Hin.
  repeat (apply elem_of_cons in Hin as [->|Hin]; [reflexivity|]).
  by apply elem_of_nil in Hin.
Defined.

(** ** The script around the batch *)

Section ScriptFacts.

Variable temp_dir : string.
Variable show : list (option json) → json → string.

Lemma sorted_perm names names' :
  names ≡ₚ names' → sorted names = sorted names'.
Proof.
  intros Hperm. unfold sorted.
  apply (Sorted_unique String.le); [apply Sorted_merge_sort, _..|].
  by rewrite !merge_sort_Permutation.
Qed.

Lemma sorted_nil names : sorted names = [] → names = [].
Proof.
  intros H. apply Permutation_nil_r. rewrite <-H. unfold sorted.
  by rewrite merge_sort_Permutation.
Qed.

Lemma download_cached data csv_buffer m :
  export_csv show data = Exported csv_buffer →
  download show (Some data) m
  = (inr (Some csv_buffer), m, offered data csv_buffer).
Proof.
  intros H. destruct data as [|record data]; [done|].
  unfold download. cbv zeta. rewrite H. destruct m. reflexivity.
Qed.

Lemma download_cases sd m :
  ∃ r t, download show sd m = (r, m, t)
    ∧ (no_pdf_message ∉ errors t)
    ∧ attempts_in t = 0 ∧ requests t = 0 ∧ infos t = []
    ∧ match r with
      | inr (Some csv_buffer) =>
          ∃ data, sd = Some data ∧ export_csv show data = Exported csv_buffer
      | inr None => sd = None ∨ sd = Some []
      | inl _ => ∃ data, sd = Some data ∧ export_csv show data = EncodingError
      end.
Proof.
  destruct m as [fs ip].
  destruct sd as [[|record data]|]; unfold download; cbv zeta.
  - eexists _, _. split; [reflexivity|]. split_and!; try done; [|by right].
    cbn. intros [H|H%elem_of_nil]%elem_of_cons; [discriminate H|done].
  - destruct (export_csv show (record :: data)) eqn:E.
    + unfold export_csv in E. by destruct (encode_utf8 _).
    + eexists _, _. split; [reflexivity|]. split_and!; try done.
      * apply not_elem_of_nil.
      * by eexists.
    + eexists _, _. split; [reflexivity|]. split_and!; try done.
      * apply not_elem_of_nil.
      * by eexists.
  - eexists _, _. split; [reflexivity|]. split_and!; try done; [|by left].
    cbn. intros [H|H%elem_of_nil]%elem_of_cons; [discriminate H|done].
Qed.

Lemma save_uploads_ok w : ∀ names idx pdf_files m,
  (∀ j, j < length names → write_error w (idx + j) = None) →
  ∃ m', save_uploads temp_dir w idx names pdf_files m
        = (inr (pdf_files ++ names), m', []).
Proof.
  induction names as [|name rest IH]; intros idx pdf_files m Hw.
  - eexists. cbn. by rewrite app_nil_r.
  - cbn [save_uploads]. pose proof (Hw 0 ltac:(cbn; lia)) as H0.
    rewrite Nat.add_0_r in H0. rewrite H0.
    cbv [raise_if mbind M_bind bind mret M_ret ret create_files]. cbn [app].
    destruct (IH (S idx) (pdf_files ++ [name])
                {| files := files m ∪ list_to_set [path_join temp_dir name];
                   image_path := image_path m |}) as (m' & ->).
    { intros j Hj. replace (S idx + j) with (idx + S j) by lia.
      apply Hw. cbn. lia. }
    eexists. by rewrite <-app_assoc.
Qed.

Lemma save_uploads_fails w e : ∀ names idx pdf_files m k,
  k < length names →
  write_error w (idx + k) = Some e →
  (∀ j, j < k → write_error w (idx + j) = None) →
  ∃ m', save_uploads temp_dir w idx names pdf_files m = (inl e, m', []).
Proof.
  induction names as [|name rest IH]; intros idx pdf_files m k Hk He Hw;
    [cbn in Hk; lia|].
  cbn [save_uploads]. destruct k as [|k].
  - rewrite Nat.add_0_r in He. rewrite He. by eexists.
  - pose proof (Hw 0 ltac:(lia)) as H0. rewrite Nat.add_0_r in H0. rewrite H0.
    cbv [raise_if mbind M_bind bind mret M_ret ret create_files]. cbn [app].
    destruct (IH (S idx) (pdf_files ++ [name])
                {| files := files m ∪ list_to_set [path_join temp_dir name];
                   image_path := image_path m |} k) as (m' & ->).
    + cbn in Hk. lia.
    + by replace (S idx + k) with (idx + S k) by lia.
    + intros j Hj. replace (S idx + j) with (idx + S j) by lia.
      apply Hw. lia.
    + by eexists.
Qed.

(** The uploads are written, or an exception ends the run without any
    event. *)
Lemma save_uploads_cases w : ∀ names idx pdf_files m,
  ∃ r m', save_uploads temp_dir w idx names pdf_files m = (r, m', [])
    ∧ match r with
      | inr l => l = pdf_files ++ names
      | inl _ => True
      end.
Proof.
  induction names as [|name rest IH]; intros idx pdf_files m.
  - eexists _, _. split; [reflexivity|]. by rewrite app_nil_r.
  - cbn [save_uploads]. destruct (write_error w idx) as [e|].
    + by eexists _, _.
    + cbv [raise_if mbind M_bind bind mret M_ret ret create_files]. cbn [app].
      destruct (IH (S idx) (pdf_files ++ [name])
                  {| files := files m ∪ list_to_set [path_join temp_dir name];
                     image_path := image_path m |}) as (r & m' & -> & Hr).
      eexists _, _. split; [reflexivity|].
      destruct r; [done|]. by rewrite <-app_assoc in Hr.
Qed.

Lemma failure_not_no_pdf l : no_pdf_message ∉ map failure_message l.
Proof.
  intros Hin. apply list_elem_of_In, in_map_iff in Hin as (x & H & _).
  discriminate H.
Qed.

Lemma failed_all world : ∀ pdf_files idx,
  expected_data world idx pdf_files = [] →
  failed world idx pdf_files = pdf_files
  ∧ batch_attempts world idx pdf_files = 3 * length pdf_files.
Proof.
  induction pdf_files as [|pdf_file rest IH]; intros idx; [done|].
  cbn [expected_data failed batch_attempts length].
  destruct (first_success (world idx) pdf_file 3 0) eqn:E; [done|].
  intros [-> ->]%IH. split; [done|].
  assert (attempts_needed (world idx) pdf_file 3 0 = 3) as ->; [|lia].
  revert E. cbn.
  repeat (destruct (attempt_record _ _); [done|]). done.
Qed.

(** The body of the branch that processes the uploads. *)
Lemma process_uploads_spec w names m :
  names ≠ [] →
  ∃ r m' t,
    process_uploads temp_dir show w names m = (r, m', t)
    ∧ (no_pdf_message ∉ errors t)
    ∧ match r with
      | inr (data, Some stored) =>
          stored = data ∧ ∃ csv_buffer, export_csv show data = Exported csv_buffer
      | inr (data, None) => data = []
      | inl _ => True
      end
    ∧ ((∀ j, j < length names → write_error w j = None) →
       r = match export_csv show (expected_data (attempts w) 0 names) with
           | EncodingError => inl encode_error_message
           | NothingToExport => inr (expected_data (attempts w) 0 names, None)
           | Exported _ =>
               inr (expected_data (attempts w) 0 names,
                    Some (expected_data (attempts w) 0 names))
           end
       ∧ errors t = map failure_message (failed (attempts w) 0 names)
                    ++ match expected_data (attempts w) 0 names with
                       | [] => [no_data_message]
                       | _ => []
                       end
       ∧ attempts_in t = batch_attempts (attempts w) 0 names).
Proof.
  intros Hnames. unfold process_uploads. cbv [mbind M_bind bind emit].
  destruct (save_uploads_cases w names 0 [] m) as (r0 & m0 & E0 & Hr0).
  rewrite E0. destruct r0 as [e|pdf_files].
  - eexists _, _, _. split; [reflexivity|]. split; [apply not_elem_of_nil|].
    split; [done|]. intros Hw.
    destruct (save_uploads_ok w names 0 [] m Hw) as (m1 & E1).
    rewrite E1 in E0. discriminate E0.
  - cbn [app] in Hr0. subst pdf_files.
    destruct names as [|name rest]; [done|]. cbv [mret M_ret ret]. cbn [app].
    destruct (process_all_spec temp_dir show (attempts w) (name :: rest) m0)
      as (m1 & t1 & E1 & _ & Herr).
    destruct (process_all_extra temp_dir show (attempts w) (name :: rest) m0)
      as (r2 & m2 & t2 & E2 & _ & _ & Hatt & _).
    rewrite E1 in E2. injection E2 as <- <- <-. rewrite E1.
    assert (no_pdf_message ∉ errors t1) as Hno.
    { rewrite Herr. intros [H|H]%elem_of_app.
      - by apply failure_not_no_pdf in H.
      - destruct (expected_data _ _ _); [|by apply elem_of_nil in H].
        apply elem_of_cons in H as [H|H%elem_of_nil]; [discriminate H|done]. }
    assert (errors (Spinner "Setting up..."
                    :: StWrite (found_message (length (name :: rest))) :: t1)
            = errors t1) as Herrs by reflexivity.
    assert (attempts_in (Spinner "Setting up..."
                         :: StWrite (found_message (length (name :: rest)))
                         :: t1)
            = attempts_in t1) as Hatts by reflexivity.
    destruct (export_csv show (expected_data (attempts w) 0 (name :: rest)))
      eqn:Hexp.
    + eexists _, _, _. split; [reflexivity|]. rewrite Herrs, Hatts.
      split; [done|]. split; [|done].
      unfold export_csv in Hexp.
      destruct (expected_data _ _ _); [done|]. by destruct (encode_utf8 _).
    + eexists _, _, _. split; [reflexivity|]. rewrite Herrs, Hatts. done.
    + eexists _, _, _. split; [reflexivity|]. rewrite Herrs, Hatts.
      split; [done|]. split; [|done]. split; [done|by eexists].
Qed.

Lemma check_uploads_names names s :
  uploaded_file_names (check_uploads names s) = sorted names.
Proof.
  unfold check_uploads. destruct (session_data s); [|done].
  by case_decide.
Qed.

Lemma check_uploads_hit names s data :
  session_data s = Some data → uploaded_file_names s = sorted names →
  check_uploads names s = s.
Proof.
  intros Hdata Hsame. unfold check_uploads. rewrite Hdata.
  by rewrite decide_True.
Qed.

Lemma check_uploads_data names s data :
  session_data (check_uploads names s) = Some data →
  check_uploads names s = s.
Proof.
  unfold check_uploads. destruct (session_data s); [|done].
  by case_decide.
Qed.

Lemma check_uploads_miss names s :
  session_data (check_uploads names s) = None →
  check_uploads names s
  = {| session_data := None; uploaded_file_names := sorted names |}.
Proof.
  unfold check_uploads. destruct (session_data s) eqn:E; [|done].
  case_decide; [|done]. intros Hnone. congruence.
Qed.

(** A run that finds cached data for the uploaded names. *)
Lemma run_script_hit w names s fs data :
  names ≠ [] →
  session_data s = Some data → uploaded_file_names s = sorted names →
  ∃ r t, download show (Some data) {| files := fs; image_path := None |}
         = (r, {| files := fs; image_path := None |}, t)
    ∧ run_script temp_dir show w names s fs
      = (s, r, StInfo cached_message :: t).
Proof.
  intros Hnames Hdata Hsame.
  destruct (download_cases (Some data) {| files := fs; image_path := None |})
    as (r & t & E & _).
  exists r, t. split; [done|].
  unfold run_script. destruct names as [|name rest]; [done|].
  rewrite (check_uploads_hit _ _ data) by done. rewrite Hdata.
  cbv [mbind M_bind bind emit]. by rewrite E.
Qed.

End ScriptFacts.

(** X15: the cache check does not depend on the order in which the files
    were uploaded: the names are compared as sorted lists. *)
Theorem X15_upload_order_irrelevant
    (names names' : list string) (s : session_state)
    (Hperm : names ≡ₚ names') :
  check_uploads names s = check_uploads names' s.
Proof.
  unfold check_uploads. by rewrite (sorted_perm names names').
Qed.

Lemma X15_upload_order_irrelevant_witness :
  check_uploads ["b.pdf"; "a.pdf"]
    {| session_data := Some []; uploaded_file_names := ["a.pdf"; "b.pdf"] |}
  = check_uploads ["a.pdf"; "b.pdf"]
      {| session_data := Some []; uploaded_file_names := ["a.pdf"; "b.pdf"] |}.
Proof.
  apply X15_upload_order_irrelevant. apply perm_swap.
Defined.

(** X16: a run that finds cached records for the uploaded names does no
    processing: no conversion, no request; it displays the cache notice,
    leaves the session as it is, and its outcome does not depend on the
    collaborators, the files or the temporary directory. *)
Theorem X16_cached_run_does_no_processing
    (temp_dir : string) (show : list (option json) → json → string)
    (w : script_world) (names : list string) (s : session_state)
    (fs : gset string) (data : list dict)
    (Hnames : names ≠ [])
    (Hdata : session_data s = Some data)
    (Hsame : uploaded_file_names s = sorted names) :
  ∃ r t,
    run_script temp_dir show w names s fs = (s, r, t)
    ∧ attempts_in t = 0 ∧ requests t = 0 ∧ infos t = [cached_message]
    ∧ ∀ temp_dir' w' fs',
        run_script temp_dir' show w' names s fs' = (s, r, t).
Proof.
  destruct (run_script_hit temp_dir show w names s fs data)
    as (r & t & E & Hrun); [done..|].
  destruct (download_cases show (Some data) {| files := fs; image_path := None |})
    as (r' & t' & E' & _ & Hatt & Hreq & Hinfo & _).
  rewrite E in E'. injection E' as <- <-.
  exists r, (StInfo cached_message :: t). split; [done|].
  split_and!; [done|done| |].
  { change (infos (StInfo cached_message :: t))
      with (cached_message :: infos t). by rewrite Hinfo. }
  intros temp_dir' w' fs'.
  destruct (run_script_hit temp_dir' show w' names s fs' data)
    as (r' & t' & E' & ->); [done..|].
  assert (∀ m, download show (Some data) m
               = ((download show (Some data) m).1.1, m,
                  (download show (Some data) {| files := ∅; image_path := None |}).2)
               ∧ (download show (Some data) m).1.1
                 = (download show (Some data)
                      {| files := ∅; image_path := None |}).1.1) as Hm.
  { intros m. unfold download. destruct data as [|record data]; [done|].
    by destruct (export_csv show (record :: data)). }
  destruct (Hm {| files := fs; image_path := None |}) as [H1 H1'].
  destruct (Hm {| files := fs'; image_path := None |}) as [H2 H2'].
  rewrite E in H1, H1'. rewrite E' in H2, H2'. cbn in *.
  injection H1 as ->. injection H2 as ->. by rewrite H1', H2'.
Qed.

Lemma X16_cached_run_does_no_processing_witness :
  ∃ r t,
    run_script "/tmp/work" sample_show failing_world ["a.pdf"]
      {| session_data := Some [[("pdf_file", JStr "a.pdf")]];
         uploaded_file_names := ["a.pdf"] |} ∅
    = ({| session_data := Some [[("pdf_file", JStr "a.pdf")]];
          uploaded_file_names := ["a.pdf"] |}, r, t)
    ∧ attempts_in t = 0.
Proof.
  destruct (X16_cached_run_does_no_processing "/tmp/work" sample_show
              failing_world ["a.pdf"]
              {| session_data := Some [[("pdf_file", JStr "a.pdf")]];
                 uploaded_file_names := ["a.pdf"] |} ∅
              [[("pdf_file", JStr "a.pdf")]] ltac:(done) eq_refl eq_refl)
    as (r & t & E & Hatt & _).
  by exists r, t.
Defined.

Section RunFacts.

Variable temp_dir : string.
Variable show : list (option json) → json → string.

(** What every run over some uploads leaves and offers. *)
Lemma run_script_cases w names s fs s' r t :
  names ≠ [] →
  run_script temp_dir show w names s fs = (s', r, t) →
  uploaded_file_names s' = sorted names
  ∧ (no_pdf_message ∉ errors t)
  ∧ match r with
    | inr (Some csv_buffer) =>
        ∃ data, session_data s' = Some data
                ∧ export_csv show data = Exported csv_buffer
    | inr None => session_data s' = None ∨ session_data s' = Some []
    | inl _ =>
        session_data s' = None
        ∨ ∃ data, session_data s' = Some data
                  ∧ export_csv show data = EncodingError
    end
  ∧ (s' = s ∨ session_ok show s').
Proof.
  intros Hnames. unfold run_script. destruct names as [|name rest]; [done|].
  set (names := name :: rest) in *.
  destruct (session_data (check_uploads names s)) as [data|] eqn:Hdata.
  - pose proof (check_uploads_data _ _ _ Hdata) as Hs.
    pose proof (check_uploads_names names s) as Hn. rewrite Hs in Hn, Hdata |- *.
    cbv [mbind M_bind bind emit].
    destruct (download_cases show (Some data)
                {| files := fs; image_path := None |})
      as (r1 & t1 & -> & Hno & _ & _ & _ & Hr).
    intros [= <- <- <-]. split; [done|]. split; [exact Hno|].
    split; [|by left]. rewrite Hdata.
    destruct r1 as [e|[csv_buffer|]]; [|done..].
    right. done.
  - rewrite (check_uploads_miss _ _ Hdata).
    destruct (process_uploads_spec temp_dir show w names
                {| files := fs; image_path := None |} Hnames)
      as (r1 & m1 & t1 & -> & Hno & Hr & _).
    destruct r1 as [e|[data [stored|]]].
    + intros [= <- <- <-]. split_and!; [done|done|by left|by right].
    + destruct Hr as [-> [csv_buffer Hexp]]. cbn [session_data].
      rewrite (download_cached show data csv_buffer m1 Hexp).
      intros [= <- <- <-]. cbn [uploaded_file_names session_data].
      split; [done|]. split.
      { rewrite errors_app. intros [H|H]%elem_of_app; [done|].
        by apply elem_of_nil in H. }
      split; [by exists data|]. right. unfold session_ok. cbn. by eexists.
    + subst data. cbn [session_data].
      destruct m1 as [fs1 ip1]. cbn.
      intros [= <- <- <-]. cbn [uploaded_file_names session_data].
      split; [done|]. split.
      { rewrite errors_app. intros [H|H]%elem_of_app; [done|].
        apply elem_of_cons in H as [H|H%elem_of_nil]; [discriminate H|done]. }
      split; [by left|by right].
Qed.

Lemma expected_data_none world : ∀ pdf_files idx,
  (∀ i pdf_file, pdf_files !! i = Some pdf_file →
     ∀ attempt, attempt < 3 →
       attempt_record (world (idx + i) attempt) pdf_file = None) →
  expected_data world idx pdf_files = [].
Proof.
  induction pdf_files as [|pdf_file rest IH]; intros idx Hfail; [done|].
  cbn [expected_data].
  assert (first_success (world idx) pdf_file 3 0 = None) as ->.
  { pose proof (Hfail 0 pdf_file eq_refl) as H. rewrite Nat.add_0_r in H.
    cbn. by rewrite !H by lia. }
  apply IH. intros i pdf Hi attempt Hattempt.
  replace (S idx + i) with (idx + S i) by lia. by apply Hfail.
Qed.

End RunFacts.

(** X17: after a run that offers a CSV, any further run over the same
    files, uploaded in any order, offers the same CSV from the session
    without processing anything, whatever the collaborators would do:
    from the uploader on it displays the cache notice, the spinner of
    the export, the success message, the download button with that CSV
    and the table of the records in the session, and nothing else. *)
Theorem X17_rerun_serves_the_cache
    (temp_dir temp_dir' : string) (show : list (option json) → json → string)
    (w w' : script_world) (names names' : list string) (s s' : session_state)
    (fs fs' : gset string) (csv_buffer : string) (t : list event)
    (Hrun : run_script temp_dir show w names s fs
            = (s', inr (Some csv_buffer), t))
    (Hperm : names' ≡ₚ names) :
  ∃ data,
    session_data s' = Some data
    ∧ run_script temp_dir' show w' names' s' fs'
      = (s', inr (Some csv_buffer),
         [StInfo "Using cached data."; Spinner "Preparing CSV...";
          StSuccess "Processing complete!";
          DownloadButton "data_label_invoices.csv" csv_buffer;
          Dataframe
            ["INVOICE_DATE"; "INVOICE_NUMBER"; "CUSTOMER_PO"; "SUB_TOTAL";
             "FREIGHT"; "TOTAL"; "TRACKING_NUMBER"; "pdf_file"]
            (rows (reindex columns_order (DataFrame data)))]).
Proof.
  assert (names ≠ []) as Hnames.
  { intros ->. cbn in Hrun. discriminate Hrun. }
  assert (names' ≠ []) as Hnames'.
  { intros ->. by apply Permutation_nil_l in Hperm. }
  destruct (run_script_cases temp_dir show w names s fs _ _ _ Hnames Hrun)
    as (Hsorted & _ & (data & Hdata & Hexp) & _).
  exists data. split; [done|].
  destruct (run_script_hit temp_dir' show w' names' s' fs' data)
    as (r1 & t1 & E & ->); [done|done|by rewrite (sorted_perm names' names)|].
  rewrite (download_cached show data csv_buffer _ Hexp) in E.
  by injection E as <- <-.
Qed.

Lemma X17_rerun_serves_the_cache_witness :
  ∃ s' csv_buffer t,
    run_script "/tmp/other" sample_show failing_world ["b.pdf"; "a.pdf"] s' ∅
    = (s', inr (Some csv_buffer), t)
    ∧ length t = 5.
Proof.
  destruct (run_script "/tmp/work" sample_show sample_world ["a.pdf"; "b.pdf"]
              initial_session ∅) as [[s' r] t] eqn:Hrun.
  assert (∃ csv_buffer, r = inr (Some csv_buffer)) as (csv_buffer & ->).
  { vm_compute in Hrun. injection Hrun as _ <- _. by eexists. }
  destruct (X17_rerun_serves_the_cache "/tmp/work" "/tmp/other" sample_show
              sample_world failing_world ["a.pdf"; "b.pdf"] ["b.pdf"; "a.pdf"]
              initial_session s' ∅ ∅ csv_buffer t Hrun (perm_swap _ _ _))
    as (data & _ & E).
  eexists s', csv_buffer, _. split; [exact E|reflexivity].
Defined.

(** X18: the session is kept well formed by every run: the records it
    holds have been exported, the names are the sorted names of the last
    uploads, and what a run offers for download is the CSV of the
    records in the session; a run that ends otherwise leaves no records,
    so that the next run processes the files again. *)
Theorem X18_session_invariant
    (temp_dir : string) (show : list (option json) → json → string)
    (w : script_world) (names : list string) (s : session_state)
    (fs : gset string)
    (Hok : session_ok show s) :
  let run := run_script temp_dir show w names s fs in
  session_ok show run.1.1
  ∧ (names = [] → run.1.1 = s)
  ∧ (names ≠ [] →
     uploaded_file_names run.1.1 = sorted names
     ∧ match run.1.2 with
       | inr (Some csv_buffer) =>
           ∃ data, session_data run.1.1 = Some data
                   ∧ export_csv show data = Exported csv_buffer
       | _ => session_data run.1.1 = None
       end).
Proof.
  cbv zeta.
  destruct (run_script temp_dir show w names s fs) as [[s' r] t] eqn:Hrun.
  cbn [fst snd].
  destruct names as [|name rest].
  - cbn in Hrun. injection Hrun as <- <- <-. done.
  - destruct (run_script_cases temp_dir show w (name :: rest) s fs _ _ _
                ltac:(done) Hrun) as (Hsorted & _ & Hr & Hs).
    assert (session_ok show s') as Hok' by (by destruct Hs as [->|]).
    split; [done|]. split; [done|]. intros _. split; [done|].
    unfold session_ok in Hok'.
    destruct r as [e|[csv_buffer|]]; [|done|].
    + destruct Hr as [|(data & Hdata & Hexp)]; [done|].
      rewrite Hdata in Hok'. destruct Hok' as [csv_buffer Hexp'].
      congruence.
    + destruct Hr as [|Hdata]; [done|].
      rewrite Hdata in Hok'. by destruct Hok'.
Qed.

Lemma X18_session_invariant_witness :
  session_ok sample_show
    (run_script "/tmp/work" sample_show sample_world ["a.pdf"]
       initial_session ∅).1.1.
Proof.
  pose proof (X18_session_invariant "/tmp/work" sample_show sample_world
                ["a.pdf"] initial_session ∅ I) as H.
  cbv zeta in H. exact (proj1 H).
Defined.

(** X19: when every attempt of every document fails, the run makes three
    attempts per document, displays the failure of each document and
    then the message that no data was extracted twice (once after the
    loop and once at the download), offers nothing, and caches nothing:
    the session holds no records afterwards. *)
Theorem X19_run_without_success
    (temp_dir : string) (show : list (option json) → json → string)
    (w : script_world) (names : list string) (s : session_state)
    (fs : gset string)
    (Hnames : names ≠ [])
    (Hnone : session_data s = None)
    (Hwrites : ∀ j, j < length names → write_error w j = None)
    (Hfail : ∀ i pdf_file, names !! i = Some pdf_file →
               ∀ attempt, attempt < 3 →
                 attempt_record (attempts w i attempt) pdf_file = None) :
  ∃ t,
    run_script temp_dir show w names s fs
    = ({| session_data := None; uploaded_file_names := sorted names |},
       inr None, t)
    ∧ errors t = map failure_message names
                 ++ [no_data_message; no_data_message]
    ∧ attempts_in t = 3 * length names.
Proof.
  pose proof (expected_data_none (attempts w) names 0 Hfail) as Hexp.
  destruct (failed_all (attempts w) names 0 Hexp) as [Hfailed Hcount].
  unfold run_script. destruct names as [|name rest]; [done|].
  set (names := name :: rest) in *.
  assert (check_uploads names s
          = {| session_data := None; uploaded_file_names := sorted names |})
    as -> by (unfold check_uploads; by rewrite Hnone).
  cbn [session_data].
  destruct (process_uploads_spec temp_dir show w names
              {| files := fs; image_path := None |} Hnames)
    as (r1 & m1 & t1 & -> & _ & _ & Hr).
  destruct (Hr Hwrites) as (-> & Herr & Hatt).
  rewrite Hexp in *. cbn [export_csv session_data].
  destruct m1 as [fs1 ip1]. cbn [download].
  cbv [mbind M_bind bind emit mret M_ret ret].
  eexists. split; [reflexivity|].
  rewrite errors_app, attempts_in_app, Herr, Hatt, Hfailed, Hcount.
  cbn [errors attempts_in omap list_omap List.filter length app].
  split; [by rewrite <-app_assoc|lia].
Qed.

Lemma X19_run_without_success_witness :
  ∃ t,
    run_script "/tmp/work" sample_show failing_world ["a.pdf"; "b.pdf"]
      initial_session ∅
    = ({| session_data := None; uploaded_file_names := ["a.pdf"; "b.pdf"] |},
       inr None, t)
    ∧ attempts_in t = 6.
Proof.
  destruct (X19_run_without_success "/tmp/work" sample_show failing_world
              ["a.pdf"; "b.pdf"] initial_session ∅ ltac:(done) eq_refl)
    as (t & E & _ & Hatt).
  - intros j _. reflexivity.
  - intros i pdf_file _ attempt _. reflexivity.
  - exists t. split; [exact E|exact Hatt].
Defined.

(** X20: the message that no PDF files were found is never displayed:
    the branch that tests the list is only reached with at least one
    upload, and every upload is in the list. *)
Theorem X20_no_pdf_message_unreachable
    (temp_dir : string) (show : list (option json) → json → string)
    (w : script_world) (names : list string) (s : session_state)
    (fs : gset string) :
  no_pdf_message ∉ errors (run_script temp_dir show w names s fs).2.
Proof.
  destruct (run_script temp_dir show w names s fs) as [[s' r] t] eqn:Hrun.
  destruct names as [|name rest].
  - cbn in Hrun. injection Hrun as <- <- <-. apply not_elem_of_nil.
  - by destruct (run_script_cases temp_dir show w (name :: rest) s fs _ _ _
                   ltac:(done) Hrun) as (_ & Hno & _).
Qed.

(** X21: when an upload cannot be written into the temporary directory,
    the run ends with that exception: from the uploader on it has only
    entered the spinner of the set-up, no message is displayed and no
    document is processed, and the session holds no records. *)
Theorem X21_write_failure_ends_the_run
    (temp_dir : string) (show : list (option json) → json → string)
    (w : script_world) (names : list string) (s : session_state)
    (fs : gset string) (k : nat) (e : string)
    (Hmiss : session_data (check_uploads names s) = None)
    (Hk : k < length names)
    (Herror : write_error w k = Some e)
    (Hbefore : ∀ j, j < k → write_error w j = None) :
  run_script temp_dir show w names s fs
  = ({| session_data := None; uploaded_file_names := sorted names |},
     inl e, [Spinner "Setting up..."]).
Proof.
  unfold run_script. destruct names as [|name rest]; [cbn in Hk; lia|].
  set (names := name :: rest) in *.
  rewrite (check_uploads_miss _ _ Hmiss). cbn [session_data].
  unfold process_uploads. cbv [mbind M_bind bind emit].
  destruct (save_uploads_fails temp_dir w e names 0 []
              {| files := fs; image_path := None |} k Hk Herror Hbefore)
    as (m' & ->).
  done.
Qed.

Lemma X21_write_failure_ends_the_run_witness :
  run_script "/tmp/work" sample_show
    {| write_error := λ idx, if idx =? 1 then Some "No space left on device"
                             else None;
       attempts := λ _ _, delivers sample_reply |}
    ["a.pdf"; "b.pdf"] initial_session ∅
  = ({| session_data := None; uploaded_file_names := ["a.pdf"; "b.pdf"] |},
     inl "No space left on device", [Spinner "Setting up..."]).
Proof.
  apply (X21_write_failure_ends_the_run "/tmp/work" sample_show _
           ["a.pdf"; "b.pdf"] initial_session ∅ 1).
  - reflexivity.
  - simpl. lia.
  - reflexivity.
  - intros [|j] Hj; [reflexivity|lia].
Defined.
(** * Examples

    The definitions evaluated on small inputs. *)

Example loads_ex1 :
  Json.loads (q "{'a': 'x', 'b': [1, -2.5e3, true, null, {}], 'a': {'c':[]}}")
  = Some (JObj [("a", JObj [("c", JArr [])]);
                ("b", JArr [JNum "1"; JNum "-2.5e3"; JBool true; JNull; JObj []])]).
Proof. vm_compute. reflexivity. Qed.

Example loads_ex2 : Json.loads (q "{'a': 1,}") = None.
Proof. vm_compute. reflexivity. Qed.

Example loads_ex3 : Json.loads " [01]" = None.
Proof. vm_compute. reflexivity. Qed.

Example loads_ex4 :
  Json.loads (q "['😀', 'é', 'a\tb', '\ud83dx']") =
  Some (JArr [JStr (String "240" (String "159" (String "152" (String "128" EmptyString))));
              JStr (String "195" (String "169" EmptyString));
              JStr (String "a" (String "009" (String "b" EmptyString)));
              JStr (String "237" (String "160" (String "189" (String "x" EmptyString))))]).
Proof. vm_compute. reflexivity. Qed.

Example loads_ex5 :
  map Json.loads ["1.5e+10"; "-0"; "1."; "+1"; ".5"; "1e"; "nul"; "-Infinity"; "[1 2]"; "{1:2}"; "[]]"; EmptyString; " 7 "]
  = [Some (JNum "1.5e+10"); Some (JNum "-0"); None; None; None; None; None;
     Some (JNum "-Infinity"); None; None; None; None; Some (JNum "7")].
Proof. vm_compute. reflexivity. Qed.

Example extract_ex1 :
  extract_tracking_number "...1Z12345D68905487401..." = "1Z12345D6890548740".
Proof. vm_compute. reflexivity. Qed.

Example extract_ex2 :
  extract_tracking_number "no such code here" = no_tracking.
Proof. vm_compute. reflexivity. Qed.

Example search_ex1 :
  Re.search json_pattern "a {b {c} d} e } f" = Some "{b {c} d} e }".
Proof. vm_compute. reflexivity. Qed.

Example search_ex2 : Re.search json_pattern "} no span {" = None.
Proof. vm_compute. reflexivity. Qed.

Example extract_ex3 :
  map extract_tracking_number
    ["1Zabcdefgh12345678"; "1Z1Z0000000000000000"; "x1ZAAAAAAAAAAAAAAA 1ZBBBBBBBBBBBBBBBB"]
  = [no_tracking; "1Z1Z00000000000000"; "1ZBBBBBBBBBBBBBBBB"].
Proof. vm_compute. reflexivity. Qed.

Example normalize_ex1 :
  normalize_field_names
    [(" invoice date ", JStr "01/02/2024"); ("Cust. PO#", JStr "77");
     ("total:", JNum "1"); ("Notes", JNull); ("TOTAL", JNum "2")]
  = [("INVOICE_DATE", JStr "01/02/2024"); ("CUSTOMER_PO", JStr "77");
     ("TOTAL", JNum "2"); ("NOTES", JNull)].
Proof. vm_compute. reflexivity. Qed.

Example path_join_ex1 :
  map (path_join "/tmp/work") ["a.pdf"; "/etc/a.pdf"] = ["/tmp/work/a.pdf"; "/etc/a.pdf"].
Proof. vm_compute. reflexivity. Qed.

Example process_pdf_ex1 :
  run_on_empty
    (process_pdf "/tmp/work"
       (λ attempt, if attempt <? 1 then request_fails else delivers sample_reply)
       "a.pdf" 3 5)
  = (inr (Some [("INVOICE_DATE", JStr "01/02/2024"); ("TOTAL", JStr "12.50");
                ("TRACKING_NUMBER", JStr "1ZABCDEFGH12345678");
                ("pdf_file", JStr "a.pdf")]),
     [],
     [Convert "/tmp/work/a.pdf"; Save "/tmp/work/temp_a.pdf_0.png"; Request;
      StWarning "An error occurred while processing a.pdf on attempt 1: Connection error.";
      Remove "/tmp/work/temp_a.pdf_0.png";
      StInfo "Retrying a.pdf in 5 seconds..."; Sleep 5;
      Convert "/tmp/work/a.pdf"; Save "/tmp/work/temp_a.pdf_1.png"; Request;
      Remove "/tmp/work/temp_a.pdf_1.png"]).
Proof. vm_compute. reflexivity. Qed.

Example process_pdf_ex2 :
  run_on_empty
    (process_pdf "/tmp/work" (λ _, delivers "not json {") "a.pdf" 1 5)
  = (inr None, [],
     [Convert "/tmp/work/a.pdf"; Save "/tmp/work/temp_a.pdf_0.png"; Request;
      StWarning "An error occurred while processing a.pdf on attempt 1: No JSON found in the response";
      Remove "/tmp/work/temp_a.pdf_0.png";
      StError "All retries failed for a.pdf"]).
Proof. vm_compute. reflexivity. Qed.

Example export_ex1 :
  export_csv (λ _ v, match v with JStr s => csv_field s | _ => "?" end)
    [[("TOTAL", JStr "5,0"); ("pdf_file", JStr "a.pdf")];
     [("NOTES", JNull); ("INVOICE_DATE", JStr "d"); ("pdf_file", JStr "b.pdf")]]
  = Exported
      ("INVOICE_DATE,INVOICE_NUMBER,CUSTOMER_PO,SUB_TOTAL,FREIGHT,TOTAL,TRACKING_NUMBER,pdf_file"
       +:+ newline +:+ ",,,,," +:+ csv_field "5,0" +:+ ",,a.pdf"
       +:+ newline +:+ "d,,,,,,,b.pdf" +:+ newline).
Proof. vm_compute. reflexivity. Qed.

Example export_ex2 :
  export_csv (λ _ v, match v with JStr s => csv_field s | _ => "?" end)
    [[("pdf_file", JStr "a.pdf")]; [("TOTAL", JStr (Json.utf8 55357))]]
  = EncodingError.
Proof. vm_compute. reflexivity. Qed.

(** Keys that differ in case only, also beyond ASCII, are one field; the
    later value is kept. *)
Example normalize_ex2 :
  normalize_field_names [("é", JStr "1"); ("É", JStr "2")]
  = [("É", JStr "2")].
Proof. by vm_compute. Qed.

(** White space beyond ASCII is stripped, and the upper case of a
    character may be longer than the character. *)
Example normalize_ex3 :
  normalize_key (nbsp +:+ "total:" +:+ Json.utf8 8195) = "TOTAL"
  ∧ Str.upper "Maße ſ ŉ" = "MASSE S ʼN"
  ∧ Str.strip (Json.utf8 12288 +:+ "a b" +:+ Json.utf8 133) = "a b".
Proof. by vm_compute. Qed.

Example chars_ex1 :
  Str.chars "aé€😀" = ["a"; "é"; "€"; "😀"].
Proof. by vm_compute. Qed.

(** A field with a carriage return is not quoted, one with a line feed
    is. *)
Example csv_field_ex1 :
  csv_field ("a" +:+ String "013" "b") = "a" +:+ String "013" "b"
  ∧ csv_field ("a" +:+ String "010" "b")
    = String "034" ("a" +:+ String "010" ("b" +:+ String "034" EmptyString)).
Proof. by vm_compute. Qed.

(** The first attempt fails at the request and its image is removed;
    the rasterizer then fails, but leaves a file at the path of that
    image: the handler removes it. *)
Example process_pdf_ex3 :
  removals
    (process_pdf "/tmp/work"
       (λ attempt,
          match attempt with
          | 0 => request_fails
          | 1 => {| rasterizer_files := ["/tmp/work/temp_a.pdf_0.png"];
                    rasterizer_error := Some "Unable to get page count.";
                    image_save := Saved; read_error := None;
                    reply := inl EmptyString |}
          | _ => delivers sample_reply
          end) "a.pdf" 3 5 empty_machine).2
  = ["/tmp/work/temp_a.pdf_0.png"; "/tmp/work/temp_a.pdf_0.png";
     "/tmp/work/temp_a.pdf_2.png"].
Proof. by vm_compute. Qed.
